(** * SmartHomeNG item core ([lib/item.py]): a shallow embedding

    The development follows the layout of [lib/item.py]:
    - [PyStr]: the [str] methods the item code relies on ([find], [rfind],
      slicing, [strip], [replace], [partition], ...), with Python's [-1]
      "not found" convention and negative slice bounds;
    - the attribute parsers of [Item.__init__] (destination splitting,
      relative path expansion, threshold parsing, inherited attributes);
    - Python values, the [_cast_*] functions and the comparison operators;
    - the item registry, [Item.__update], [Item.__call__] and [_fadejob].

    Part I holds the definitions, Part II the properties. *)

From Stdlib Require Import ZArith QArith Qround Lia Bool List Ascii String.
From stdpp Require Import base option list strings gmap.

Local Open Scope string_scope.
Local Open Scope Z_scope.

(* ===================================================================== *)
(** * Part I: definitions                                                 *)
(* ===================================================================== *)

(** ** Python [str] operations *)

Module PyStr.

(** [len(s)] *)
Definition len (s : string) : Z := Z.of_nat (String.length s).

(** [s.startswith(p)] *)
Fixpoint startswith (s p : string) : bool :=
  match p, s with
  | EmptyString, _ => true
  | String _ _, EmptyString => false
  | String a p', String b s' => Ascii.eqb a b && startswith s' p'
  end.

(** [s.find(sub)], scanning from offset [i]: the lowest index at which
    [sub] occurs, [-1] when it does not occur. *)
Fixpoint find_from (s sub : string) (i : Z) : Z :=
  if startswith s sub then i
  else match s with
       | EmptyString => -1
       | String _ s' => find_from s' sub (i + 1)
       end.

Definition find (s sub : string) : Z := find_from s sub 0.

(** [s.rfind(sub)]: the highest index at which [sub] occurs, or [-1]. *)
Fixpoint rfind_from (s sub : string) (i acc : Z) : Z :=
  let acc' := if startswith s sub then i else acc in
  match s with
  | EmptyString => acc'
  | String _ s' => rfind_from s' sub (i + 1) acc'
  end.

Definition rfind (s sub : string) : Z := rfind_from s sub 0 (-1).

Fixpoint drop (n : nat) (s : string) : string :=
  match n, s with
  | O, _ => s
  | S _, EmptyString => EmptyString
  | S n', String _ s' => drop n' s'
  end.

Fixpoint take (n : nat) (s : string) : string :=
  match n, s with
  | O, _ => EmptyString
  | S _, EmptyString => EmptyString
  | S n', String a s' => String a (take n' s')
  end.

(** A slice bound as Python normalises it: a negative bound counts from
    the end, and the result is clipped to [0 .. len s]. *)
Definition bound (s : string) (k : Z) : nat :=
  let k' := if k <? 0 then Z.max 0 (len s + k) else Z.min k (len s) in
  Z.to_nat k'.

(** [s[k:]] *)
Definition slice_from (s : string) (k : Z) : string := drop (bound s k) s.

(** [s[:k]] *)
Definition slice_to (s : string) (k : Z) : string := take (bound s k) s.

(** Whitespace as [str.strip()] sees it on one-byte characters. *)
Definition is_space (a : Ascii.ascii) : bool :=
  let n := Z.of_nat (Ascii.nat_of_ascii a) in
  ((9 <=? n) && (n <=? 13)) || ((28 <=? n) && (n <=? 32)).

Fixpoint lstrip (s : string) : string :=
  match s with
  | String a s' => if is_space a then lstrip s' else s
  | EmptyString => EmptyString
  end.

Fixpoint rstrip (s : string) : string :=
  match s with
  | EmptyString => EmptyString
  | String a s' =>
      match rstrip s' with
      | EmptyString => if is_space a then EmptyString else String a EmptyString
      | r => String a r
      end
  end.

Definition strip (s : string) : string := rstrip (lstrip s).

(** [s.replace(old, new)] for a non-empty [old]: occurrences are replaced
    left to right without overlap.  [skip] counts the characters of the
    occurrence just replaced that are still to be passed over. *)
Fixpoint replace_go (s old new : string) (skip : nat) : string :=
  match s with
  | EmptyString => EmptyString
  | String a s' =>
      match skip with
      | S k => replace_go s' old new k
      | O =>
          if startswith s old
          then new +:+ replace_go s' old new (String.length old - 1)
          else String a (replace_go s' old new O)
      end
  end.

Definition replace (s old new : string) : string := replace_go s old new O.

(** [s.partition(sep)] *)
Definition partition (s sep : string) : string * string * string :=
  let i := find s sep in
  if i =? -1 then (s, "", "")
  else (slice_to s i, sep, slice_from s (i + len sep)).

(** [s.rpartition(sep)] *)
Definition rpartition (s sep : string) : string * string * string :=
  let i := rfind s sep in
  if i =? -1 then ("", "", s)
  else (slice_to s i, sep, slice_from s (i + len sep)).

Definition lower_ascii (a : Ascii.ascii) : Ascii.ascii :=
  let n := Ascii.nat_of_ascii a in
  if ((65 <=? n) && (n <=? 90))%nat then Ascii.ascii_of_nat (n + 32) else a.

(** [s.lower()] on one-byte characters. *)
Fixpoint lower (s : string) : string :=
  match s with
  | EmptyString => EmptyString
  | String a s' => String (lower_ascii a) (lower s')
  end.

(** [s.endswith(p)] *)
Definition endswith (s p : string) : bool :=
  (String.length p <=? String.length s)%nat
  && String.eqb (drop (String.length s - String.length p) s) p.

End PyStr.

(** ** Exceptions and log records *)

Inductive exn :=
| ValueError | TypeError | KeyError | AttributeError
| EvalException (* whatever an evaluated expression raises *).

(** The result of code that may raise. *)
Inductive result (A : Type) :=
| Ok (a : A)
| Raise (e : exn).
Arguments Ok {A} a.
Arguments Raise {A} e.

Inductive level := DEBUG | INFO | WARNING | ERROR.

(** One call to a [logger] method: the level and the formatted text. *)
Definition logrec : Type := level * string.

(** ** Attribute parsers of [Item] *)

(** [Item._split_destitem_from_value]: separates the destination item of an
    [on_change] / [on_update] entry from its expression. *)
Definition _split_destitem_from_value (value : string) : string * string :=
  if negb (PyStr.find value "=" =? -1) then
    if negb (PyStr.find value "==" =? -1) then
      if PyStr.find value "=" <? PyStr.find value "==" then
        (PyStr.strip (PyStr.slice_to value (PyStr.find value "=")),
         PyStr.strip (PyStr.slice_from value (PyStr.find value "=" + 1)))
      else ("", value)
    else
      (PyStr.slice_to value (PyStr.find value "="),
       PyStr.strip (PyStr.slice_from value (PyStr.find value "=" + 1)))
  else ("", value).

(** [s[0] == c] guarded by [len(s) > 0]. *)
Definition starts_with_char (s : string) (c : ascii) : bool :=
  match s with
  | String a _ => Ascii.eqb a c
  | EmptyString => false
  end.

(** The [while] loop of [Item.get_absolutepath]: every pass removes one
    leading dot of [relpath]; when another dot follows, [rootpath] loses its
    last segment.  Returns the remaining [relpath], the [rootpath] reached and
    the log records written. *)
Fixpoint walk_up (self_path attribute relpath rootpath : string)
    (logs : list logrec) : string * string * list logrec :=
  match relpath with
  | String a rel' =>
      if Ascii.eqb a "." then
        if starts_with_char rel' "." then
          if PyStr.rfind rootpath "." =? -1 then
            if String.eqb rootpath "" then
              ("", rootpath,
               (logs ++ [(ERROR, self_path +:+
                  ".get_absolutepath(): Relative path trying to access above root level on attribute '"
                  +:+ attribute +:+ "'")])%list)
            else walk_up self_path attribute rel' "" logs
          else
            walk_up self_path attribute rel'
              (PyStr.slice_to rootpath (PyStr.rfind rootpath ".")) logs
        else walk_up self_path attribute rel' rootpath logs
      else (relpath, rootpath, logs)
  | EmptyString => (relpath, rootpath, logs)
  end.

(** [Item.get_absolutepath(relativepath, attribute)] for the item at
    [self_path]: the absolute path and the log records written. *)
Definition get_absolutepath (self_path relativepath attribute : string)
    : string * list logrec :=
  if starts_with_char relativepath "." then
    let relpath := PyStr.rstrip relativepath in
    let '(relpath, rootpath, logs) :=
      walk_up self_path attribute relpath self_path [] in
    let rootpath :=
      if negb (String.eqb relpath "") then
        if negb (String.eqb rootpath "") then rootpath +:+ "." +:+ relpath
        else relpath
      else rootpath in
    let logs := (logs ++
      [(INFO, self_path +:+ ".get_absolutepath('" +:+ relativepath
              +:+ "'): Result = '" +:+ rootpath +:+ "' (for attribute '"
              +:+ attribute +:+ "')")])%list in
    let rootpath :=
      if String.eqb (PyStr.slice_from rootpath (-5)) ".self"
      then PyStr.replace rootpath ".self" ""
      else rootpath in
    (PyStr.replace rootpath ".self." ".", logs)
  else (relativepath, []).

(** *** Numeric literals

    [int(s)] and [float(s)] on strings.  The model covers an optional sign
    followed by decimal digits (for [float]: an optional fraction and an
    optional exponent); a float is represented by the exact rational value of
    its literal.  Digit separators, [inf] and [nan] are outside the model. *)

Definition digit_val (a : Ascii.ascii) : option Z :=
  let n := Z.of_nat (Ascii.nat_of_ascii a) in
  if (48 <=? n) && (n <=? 57) then Some (n - 48) else None.

(** The longest prefix of digits: the number read (continuing [acc]), how
    many digits it has, and the rest of the string. *)
Fixpoint span_digits (s : string) (acc : Z) (n : nat) : Z * nat * string :=
  match s with
  | EmptyString => (acc, n, s)
  | String a s' =>
      match digit_val a with
      | Some d => span_digits s' (10 * acc + d) (S n)
      | None => (acc, n, s)
      end
  end.

Definition split_sign (s : string) : bool * string :=
  match s with
  | String a r =>
      if Ascii.eqb a "-" then (true, r)
      else if Ascii.eqb a "+" then (false, r)
      else (false, s)
  | EmptyString => (false, s)
  end.

(** [int(s)] for a string [s]; [None] stands for [ValueError]. *)
Definition int_of_string (s : string) : option Z :=
  let '(neg, body) := split_sign (PyStr.strip s) in
  match span_digits body 0 O with
  | (n, S _, EmptyString) => Some (if neg then - n else n)
  | _ => None
  end.

(** The exponent part of a float literal ([None]: malformed). *)
Definition exponent_of_string (s : string) : option Z :=
  match s with
  | EmptyString => Some 0
  | String c r =>
      if Ascii.eqb c "e"%char || Ascii.eqb c "E"%char then
        let '(neg, body) := split_sign r in
        match span_digits body 0 O with
        | (n, S _, EmptyString) => Some (if neg then - n else n)
        | _ => None
        end
      else None
  end.

(** [float(s)] for a string [s]; [None] stands for [ValueError]. *)
Definition float_of_string (s : string) : option Q :=
  let '(neg, body) := split_sign (PyStr.strip s) in
  let '(i, ni, r1) := span_digits body 0 O in
  let '(m, nf, r2) :=
    match r1 with
    | String a r => if Ascii.eqb a "." then span_digits r i O else (i, O, r1)
    | EmptyString => (i, O, r1)
    end in
  match (ni + nf)%nat with
  | O => None
  | S _ =>
      match exponent_of_string r2 with
      | None => None
      | Some e =>
          let m := if neg then - m else m in
          let k := e - Z.of_nat nf in
          Some (if 0 <=? k then (m * 10 ^ k) # 1
                else Qred (m # Z.to_pos (10 ^ (- k))))
      end
  end.

(** The [KEY_THRESHOLD] branch of [Item.__init__]: the values stored in
    [__th_low] and [__th_high]. *)
Definition init_threshold (value : string) : result (Q * Q) :=
  let '(low, _, high) := PyStr.rpartition value ":" in
  let low := if String.eqb low "" then high else low in
  match float_of_string (PyStr.strip low) with
  | None => Raise ValueError
  | Some l =>
      match float_of_string (PyStr.strip high) with
      | None => Raise ValueError
      | Some h => Ok (l, h)
      end
  end.

(** ** Python values *)

(** Python values as the item code meets them.  A [float] is represented
    by a rational number: rounding, infinities and NaN are outside the
    model. *)
#[warnings="-register-all"]
Inductive value :=
| VNone
| VBool (b : bool)
| VInt (z : Z)
| VFloat (q : Q)
| VStr (s : string)
| VList (l : list value)
| VDict (d : list (string * value)).

(** Numeric values ([bool], [int], [float]) as rationals. *)
Definition num_of (v : value) : option Q :=
  match v with
  | VBool b => Some (inject_Z (if b then 1 else 0))
  | VInt z => Some (inject_Z z)
  | VFloat q => Some q
  | _ => None
  end.

Fixpoint assoc (k : string) (d : list (string * value)) : option value :=
  match d with
  | [] => None
  | (k', v) :: d' => if String.eqb k k' then Some v else assoc k d'
  end.

(** [a == b]: numbers compare by value across [bool], [int] and [float],
    lists element by element, mappings key by key. *)
Fixpoint py_eq (a b : value) {struct a} : bool :=
  match a, b with
  | VNone, VNone => true
  | VStr s, VStr s' => String.eqb s s'
  | VList l, VList l' =>
      (fix go (l l' : list value) : bool :=
         match l, l' with
         | [], [] => true
         | x :: xs, y :: ys => py_eq x y && go xs ys
         | _, _ => false
         end) l l'
  | VDict d, VDict d' =>
      (length d =? length d')%nat
      && (fix go (d : list (string * value)) : bool :=
            match d with
            | [] => true
            | (k, v) :: ds =>
                match assoc k d' with
                | Some v' => py_eq v v' && go ds
                | None => false
                end
            end) d
  | VBool x, _ =>
      match num_of b with
      | Some y => Qeq_bool (inject_Z (if x then 1 else 0)) y
      | None => false
      end
  | VInt z, _ =>
      match num_of b with Some y => Qeq_bool (inject_Z z) y | None => false end
  | VFloat q, _ =>
      match num_of b with Some y => Qeq_bool q y | None => false end
  | _, _ => false
  end.

(** [a != b] *)
Definition py_ne (a b : value) : bool := negb (py_eq a b).

(** [v is None] *)
Definition is_none (v : value) : bool :=
  match v with VNone => true | _ => false end.

(** [v <= q], [v >= q] and [v < q], [v > q] for a float [q]: only numbers
    are ordered against a float, anything else raises [TypeError]. *)
Definition py_le_float (v : value) (q : Q) : result bool :=
  match num_of v with Some x => Ok (Qle_bool x q) | None => Raise TypeError end.

Definition py_ge_float (v : value) (q : Q) : result bool :=
  match num_of v with Some x => Ok (Qle_bool q x) | None => Raise TypeError end.

Definition py_lt_float (v : value) (q : Q) : result bool :=
  match num_of v with
  | Some x => Ok (negb (Qle_bool q x))
  | None => Raise TypeError
  end.

Definition py_gt_float (v : value) (q : Q) : result bool :=
  match num_of v with
  | Some x => Ok (negb (Qle_bool x q))
  | None => Raise TypeError
  end.

Definition int_of_bool (b : bool) : Z := if b then 1 else 0.

(** [a + b] *)
Definition py_add (a b : value) : result value :=
  match a, b with
  | VStr s, VStr s' => Ok (VStr (s +:+ s'))
  | VList l, VList l' => Ok (VList (l ++ l')%list)
  | VFloat x, _ =>
      match num_of b with Some y => Ok (VFloat (Qred (x + y))) | None => Raise TypeError end
  | _, VFloat y =>
      match num_of a with Some x => Ok (VFloat (Qred (x + y))) | None => Raise TypeError end
  | VInt x, VInt y => Ok (VInt (x + y))
  | VInt x, VBool y => Ok (VInt (x + int_of_bool y))
  | VBool x, VInt y => Ok (VInt (int_of_bool x + y))
  | VBool x, VBool y => Ok (VInt (int_of_bool x + int_of_bool y))
  | _, _ => Raise TypeError
  end.

(** [a - b] *)
Definition py_sub (a b : value) : result value :=
  match a, b with
  | VFloat x, _ =>
      match num_of b with Some y => Ok (VFloat (Qred (x - y))) | None => Raise TypeError end
  | _, VFloat y =>
      match num_of a with Some x => Ok (VFloat (Qred (x - y))) | None => Raise TypeError end
  | VInt x, VInt y => Ok (VInt (x - y))
  | VInt x, VBool y => Ok (VInt (x - int_of_bool y))
  | VBool x, VInt y => Ok (VInt (int_of_bool x - y))
  | VBool x, VBool y => Ok (VInt (int_of_bool x - int_of_bool y))
  | _, _ => Raise TypeError
  end.

(** ** Inherited plugin attributes *)

(** What [Item.return_parent()] gives during construction: the [Items]
    loader for a top-level item, otherwise the parent item, of which the
    attribute code reads [conf] and, in turn, [return_parent()]. *)
Inductive parent_ref :=
| ItemsLoader
| ParentItem (pconf : gmap string value) (pparent : parent_ref).

(** [pitem.conf[attr]]; the [Items] loader has no [conf]. *)
Definition conf_lookup (pitem : parent_ref) (attr : string) : result value :=
  match pitem with
  | ItemsLoader => Raise AttributeError
  | ParentItem pconf _ =>
      match pconf !! attr with
      | Some v => Ok v
      | None => Raise KeyError
      end
  end.

(** [pitem.return_parent()]; the [Items] loader has no such method. *)
Definition return_parent_of (pitem : parent_ref) : result parent_ref :=
  match pitem with
  | ItemsLoader => Raise AttributeError
  | ParentItem _ pp => Ok pp
  end.

(** [Item._get_attr_from_parent] for an item whose parent is [parent]. *)
Definition _get_attr_from_parent (parent : parent_ref) (attr : string)
    : result value :=
  let pitem := parent in
  conf_lookup pitem attr.

(** [Item._get_attr_from_grandparent] for an item whose parent is [parent]. *)
Definition _get_attr_from_grandparent (parent : parent_ref) (attr : string)
    : result value :=
  let pitem := parent in
  match return_parent_of pitem with
  | Raise e => Raise e
  | Ok gpitem => conf_lookup pitem attr
  end.

(** The plugin-specific branch of the attribute loop of [Item.__init__]:
    the effect of one scalar attribute on [self.conf]. *)
Definition init_plugin_attr (parent : parent_ref) (conf : gmap string value)
    (attr : string) (v : value) : result (gmap string value) :=
  if py_eq v (VStr "..") then
    match _get_attr_from_parent parent attr with
    | Ok pv => Ok (<[attr := pv]> conf)
    | Raise e => Raise e
    end
  else if py_eq v (VStr "...") then
    match _get_attr_from_grandparent parent attr with
    | Ok gv => Ok (<[attr := gv]> conf)
    | Raise e => Raise e
    end
  else Ok (<[attr := v]> conf).

(** ** Items *)

Inductive itype := TNum | TStr | TBool | TList | TDict | TFoo | TScene.

(** The type name as [Item._type] holds it. *)
Definition type_name (t : itype) : string :=
  match t with
  | TNum => "num" | TStr => "str" | TBool => "bool" | TList => "list"
  | TDict => "dict" | TFoo => "foo" | TScene => "scene"
  end.

(** [Item._autotimer] when set: [[(time, value), compat, timeitem, valueitem]]. *)
Record autotimer := {
  at_time : value;
  at_value : value;
  at_compat : string;
  at_timeitem : option string;
  at_valueitem : option string
}.

(** The fields of an [Item] object that the update path, [__call__] and
    [_fadejob] read or write.  Other items ([_items_to_trigger], rule
    destinations) are referred to by path; logics and method callbacks by
    name.  An unset rule list ([None]) is the empty list, an unset [_cache]
    or [_autotimer] ([False]) is [None]. *)
Record Item := {
  _path : string;
  _type : itype;
  _value : value;
  __prev_value : value;
  __last_change : Q;
  __prev_change : Q;
  __last_update : Q;
  __prev_update : Q;
  __changed_by : string;
  __updated_by : string;
  _eval : option string;
  _enforce_updates : bool;
  _on_update : list string;
  _on_update_dest_var : list string;
  _on_change : list string;
  _on_change_dest_var : list string;
  _log_change_logger : option string;
  _fading : bool;
  _items_to_trigger : list string;
  __logics_to_trigger : list string;
  __methods_to_trigger : list string;
  _threshold : bool;
  __th_crossed : bool;
  __th_low : Q;
  __th_high : Q;
  _cache : option string;
  _autotimer : option autotimer
}.

(** Attribute assignment [self.<field> = x], one function per assigned field. *)
Definition set_value (x : value) (it : Item) : Item :=
  {| _path := it.(_path); _type := it.(_type); _value := x;
     __prev_value := it.(__prev_value); __last_change := it.(__last_change);
     __prev_change := it.(__prev_change); __last_update := it.(__last_update);
     __prev_update := it.(__prev_update); __changed_by := it.(__changed_by);
     __updated_by := it.(__updated_by); _eval := it.(_eval);
     _enforce_updates := it.(_enforce_updates); _on_update := it.(_on_update);
     _on_update_dest_var := it.(_on_update_dest_var);
     _on_change := it.(_on_change);
     _on_change_dest_var := it.(_on_change_dest_var);
     _log_change_logger := it.(_log_change_logger); _fading := it.(_fading);
     _items_to_trigger := it.(_items_to_trigger);
     __logics_to_trigger := it.(__logics_to_trigger);
     __methods_to_trigger := it.(__methods_to_trigger);
     _threshold := it.(_threshold); __th_crossed := it.(__th_crossed);
     __th_low := it.(__th_low); __th_high := it.(__th_high);
     _cache := it.(_cache); _autotimer := it.(_autotimer) |}.

Definition set__prev_value (x : value) (it : Item) : Item :=
  {| _path := it.(_path); _type := it.(_type); _value := it.(_value);
     __prev_value := x; __last_change := it.(__last_change);
     __prev_change := it.(__prev_change); __last_update := it.(__last_update);
     __prev_update := it.(__prev_update); __changed_by := it.(__changed_by);
     __updated_by := it.(__updated_by); _eval := it.(_eval);
     _enforce_updates := it.(_enforce_updates); _on_update := it.(_on_update);
     _on_update_dest_var := it.(_on_update_dest_var);
     _on_change := it.(_on_change);
     _on_change_dest_var := it.(_on_change_dest_var);
     _log_change_logger := it.(_log_change_logger); _fading := it.(_fading);
     _items_to_trigger := it.(_items_to_trigger);
     __logics_to_trigger := it.(__logics_to_trigger);
     __methods_to_trigger := it.(__methods_to_trigger);
     _threshold := it.(_threshold); __th_crossed := it.(__th_crossed);
     __th_low := it.(__th_low); __th_high := it.(__th_high);
     _cache := it.(_cache); _autotimer := it.(_autotimer) |}.

Definition set__last_change (x : Q) (it : Item) : Item :=
  {| _path := it.(_path); _type := it.(_type); _value := it.(_value);
     __prev_value := it.(__prev_value); __last_change := x;
     __prev_change := it.(__prev_change); __last_update := it.(__last_update);
     __prev_update := it.(__prev_update); __changed_by := it.(__changed_by);
     __updated_by := it.(__updated_by); _eval := it.(_eval);
     _enforce_updates := it.(_enforce_updates); _on_update := it.(_on_update);
     _on_update_dest_var := it.(_on_update_dest_var);
     _on_change := it.(_on_change);
     _on_change_dest_var := it.(_on_change_dest_var);
     _log_change_logger := it.(_log_change_logger); _fading := it.(_fading);
     _items_to_trigger := it.(_items_to_trigger);
     __logics_to_trigger := it.(__logics_to_trigger);
     __methods_to_trigger := it.(__methods_to_trigger);
     _threshold := it.(_threshold); __th_crossed := it.(__th_crossed);
     __th_low := it.(__th_low); __th_high := it.(__th_high);
     _cache := it.(_cache); _autotimer := it.(_autotimer) |}.

Definition set__prev_change (x : Q) (it : Item) : Item :=
  {| _path := it.(_path); _type := it.(_type); _value := it.(_value);
     __prev_value := it.(__prev_value); __last_change := it.(__last_change);
     __prev_change := x; __last_update := it.(__last_update);
     __prev_update := it.(__prev_update); __changed_by := it.(__changed_by);
     __updated_by := it.(__updated_by); _eval := it.(_eval);
     _enforce_updates := it.(_enforce_updates); _on_update := it.(_on_update);
     _on_update_dest_var := it.(_on_update_dest_var);
     _on_change := it.(_on_change);
     _on_change_dest_var := it.(_on_change_dest_var);
     _log_change_logger := it.(_log_change_logger); _fading := it.(_fading);
     _items_to_trigger := it.(_items_to_trigger);
     __logics_to_trigger := it.(__logics_to_trigger);
     __methods_to_trigger := it.(__methods_to_trigger);
     _threshold := it.(_threshold); __th_crossed := it.(__th_crossed);
     __th_low := it.(__th_low); __th_high := it.(__th_high);
     _cache := it.(_cache); _autotimer := it.(_autotimer) |}.

Definition set__last_update (x : Q) (it : Item) : Item :=
  {| _path := it.(_path); _type := it.(_type); _value := it.(_value);
     __prev_value := it.(__prev_value); __last_change := it.(__last_change);
     __prev_change := it.(__prev_change); __last_update := x;
     __prev_update := it.(__prev_update); __changed_by := it.(__changed_by);
     __updated_by := it.(__updated_by); _eval := it.(_eval);
     _enforce_updates := it.(_enforce_updates); _on_update := it.(_on_update);
     _on_update_dest_var := it.(_on_update_dest_var);
     _on_change := it.(_on_change);
     _on_change_dest_var := it.(_on_change_dest_var);
     _log_change_logger := it.(_log_change_logger); _fading := it.(_fading);
     _items_to_trigger := it.(_items_to_trigger);
     __logics_to_trigger := it.(__logics_to_trigger);
     __methods_to_trigger := it.(__methods_to_trigger);
     _threshold := it.(_threshold); __th_crossed := it.(__th_crossed);
     __th_low := it.(__th_low); __th_high := it.(__th_high);
     _cache := it.(_cache); _autotimer := it.(_autotimer) |}.

Definition set__prev_update (x : Q) (it : Item) : Item :=
  {| _path := it.(_path); _type := it.(_type); _value := it.(_value);
     __prev_value := it.(__prev_value); __last_change := it.(__last_change);
     __prev_change := it.(__prev_change); __last_update := it.(__last_update);
     __prev_update := x; __changed_by := it.(__changed_by);
     __updated_by := it.(__updated_by); _eval := it.(_eval);
     _enforce_updates := it.(_enforce_updates); _on_update := it.(_on_update);
     _on_update_dest_var := it.(_on_update_dest_var);
     _on_change := it.(_on_change);
     _on_change_dest_var := it.(_on_change_dest_var);
     _log_change_logger := it.(_log_change_logger); _fading := it.(_fading);
     _items_to_trigger := it.(_items_to_trigger);
     __logics_to_trigger := it.(__logics_to_trigger);
     __methods_to_trigger := it.(__methods_to_trigger);
     _threshold := it.(_threshold); __th_crossed := it.(__th_crossed);
     __th_low := it.(__th_low); __th_high := it.(__th_high);
     _cache := it.(_cache); _autotimer := it.(_autotimer) |}.

Definition set__changed_by (x : string) (it : Item) : Item :=
  {| _path := it.(_path); _type := it.(_type); _value := it.(_value);
     __prev_value := it.(__prev_value); __last_change := it.(__last_change);
     __prev_change := it.(__prev_change); __last_update := it.(__last_update);
     __prev_update := it.(__prev_update); __changed_by := x;
     __updated_by := it.(__updated_by); _eval := it.(_eval);
     _enforce_updates := it.(_enforce_updates); _on_update := it.(_on_update);
     _on_update_dest_var := it.(_on_update_dest_var);
     _on_change := it.(_on_change);
     _on_change_dest_var := it.(_on_change_dest_var);
     _log_change_logger := it.(_log_change_logger); _fading := it.(_fading);
     _items_to_trigger := it.(_items_to_trigger);
     __logics_to_trigger := it.(__logics_to_trigger);
     __methods_to_trigger := it.(__methods_to_trigger);
     _threshold := it.(_threshold); __th_crossed := it.(__th_crossed);
     __th_low := it.(__th_low); __th_high := it.(__th_high);
     _cache := it.(_cache); _autotimer := it.(_autotimer) |}.

Definition set__updated_by (x : string) (it : Item) : Item :=
  {| _path := it.(_path); _type := it.(_type); _value := it.(_value);
     __prev_value := it.(__prev_value); __last_change := it.(__last_change);
     __prev_change := it.(__prev_change); __last_update := it.(__last_update);
     __prev_update := it.(__prev_update); __changed_by := it.(__changed_by);
     __updated_by := x; _eval := it.(_eval);
     _enforce_updates := it.(_enforce_updates); _on_update := it.(_on_update);
     _on_update_dest_var := it.(_on_update_dest_var);
     _on_change := it.(_on_change);
     _on_change_dest_var := it.(_on_change_dest_var);
     _log_change_logger := it.(_log_change_logger); _fading := it.(_fading);
     _items_to_trigger := it.(_items_to_trigger);
     __logics_to_trigger := it.(__logics_to_trigger);
     __methods_to_trigger := it.(__methods_to_trigger);
     _threshold := it.(_threshold); __th_crossed := it.(__th_crossed);
     __th_low := it.(__th_low); __th_high := it.(__th_high);
     _cache := it.(_cache); _autotimer := it.(_autotimer) |}.

Definition set_fading (x : bool) (it : Item) : Item :=
  {| _path := it.(_path); _type := it.(_type); _value := it.(_value);
     __prev_value := it.(__prev_value); __last_change := it.(__last_change);
     __prev_change := it.(__prev_change); __last_update := it.(__last_update);
     __prev_update := it.(__prev_update); __changed_by := it.(__changed_by);
     __updated_by := it.(__updated_by); _eval := it.(_eval);
     _enforce_updates := it.(_enforce_updates); _on_update := it.(_on_update);
     _on_update_dest_var := it.(_on_update_dest_var);
     _on_change := it.(_on_change);
     _on_change_dest_var := it.(_on_change_dest_var);
     _log_change_logger := it.(_log_change_logger); _fading := x;
     _items_to_trigger := it.(_items_to_trigger);
     __logics_to_trigger := it.(__logics_to_trigger);
     __methods_to_trigger := it.(__methods_to_trigger);
     _threshold := it.(_threshold); __th_crossed := it.(__th_crossed);
     __th_low := it.(__th_low); __th_high := it.(__th_high);
     _cache := it.(_cache); _autotimer := it.(_autotimer) |}.

Definition set__th_crossed (x : bool) (it : Item) : Item :=
  {| _path := it.(_path); _type := it.(_type); _value := it.(_value);
     __prev_value := it.(__prev_value); __last_change := it.(__last_change);
     __prev_change := it.(__prev_change); __last_update := it.(__last_update);
     __prev_update := it.(__prev_update); __changed_by := it.(__changed_by);
     __updated_by := it.(__updated_by); _eval := it.(_eval);
     _enforce_updates := it.(_enforce_updates); _on_update := it.(_on_update);
     _on_update_dest_var := it.(_on_update_dest_var);
     _on_change := it.(_on_change);
     _on_change_dest_var := it.(_on_change_dest_var);
     _log_change_logger := it.(_log_change_logger); _fading := it.(_fading);
     _items_to_trigger := it.(_items_to_trigger);
     __logics_to_trigger := it.(__logics_to_trigger);
     __methods_to_trigger := it.(__methods_to_trigger);
     _threshold := it.(_threshold); __th_crossed := x;
     __th_low := it.(__th_low); __th_high := it.(__th_high);
     _cache := it.(_cache); _autotimer := it.(_autotimer) |}.

Definition set_autotimer (x : option autotimer) (it : Item) : Item :=
  {| _path := it.(_path); _type := it.(_type); _value := it.(_value);
     __prev_value := it.(__prev_value); __last_change := it.(__last_change);
     __prev_change := it.(__prev_change); __last_update := it.(__last_update);
     __prev_update := it.(__prev_update); __changed_by := it.(__changed_by);
     __updated_by := it.(__updated_by); _eval := it.(_eval);
     _enforce_updates := it.(_enforce_updates); _on_update := it.(_on_update);
     _on_update_dest_var := it.(_on_update_dest_var);
     _on_change := it.(_on_change);
     _on_change_dest_var := it.(_on_change_dest_var);
     _log_change_logger := it.(_log_change_logger); _fading := it.(_fading);
     _items_to_trigger := it.(_items_to_trigger);
     __logics_to_trigger := it.(__logics_to_trigger);
     __methods_to_trigger := it.(__methods_to_trigger);
     _threshold := it.(_threshold); __th_crossed := it.(__th_crossed);
     __th_low := it.(__th_low); __th_high := it.(__th_high);
     _cache := it.(_cache); _autotimer := x |}.

(** ** The registry, the environment and what an update does to them *)

(** The state the update path works on: the registered items by path
    ([Items.__item_dict]) and the reading of [shtime.now()]. *)
Record world := {
  items : gmap string Item;
  now : Q
}.

(** [self.<field> = x] on the item registered under [p]. *)
Definition assign (p : string) (f : Item -> Item) (w : world) : world :=
  {| items := alter f p (items w); now := now w |}.

(** [Items.stop]: clears the fading flag of every item. *)
Definition stop (w : world) : world :=
  {| items := set_fading false <$> items w; now := now w |}.

Inductive eval_result :=
| EvalRaises
| EvalValue (v : value).

(** What the code does to its collaborators: log records, the condition
    variable, rule evaluation ([EvEval]; [EvEvalAgain] is the second
    evaluation of a rule without destination), subscriber callbacks, the
    scheduler and the cache.  A nested [__update] (from a rule) or [__call__] (from the fade
    job) carries the events of that invocation, so the trace of a call
    mirrors the call tree. *)
#[warnings="-register-all"]
Inductive event :=
| EvLog (l : level) (template : string)
| EvNotifyAll (path : string)
| EvChangeLog (path : string) (v : value) (caller : string)
    (source dest : option string)
| EvItemChangeLog (logger path : string) (v : value) (caller : string)
    (source dest : option string)
| EvEval (path attr on_dest on_eval : string) (r : eval_result)
| EvEvalAgain (path attr on_eval : string) (r : eval_result)
| EvUpdate (path : string) (v : value) (caller : string)
    (source : option string) (sub : list event)
| EvMethod (path method caller : string) (source dest : option string)
| EvLogic (logic by_ source : string) (v : value)
| EvTrigger (name obj : string) (args : list (string * value)) (by_ : string)
    (source dest : option string)
| EvCacheWrite (filename : string) (v : value)
| EvSchedulerAdd (name : string) (v : value) (caller : string) (next : Q)
| EvCall (path : string) (v : value) (caller : string) (sub : list event)
| EvExternal (sub : list event).

(** How an invocation ends: normally, with an exception reaching the caller,
    or not within the recursion budget of the model. *)
Inductive outcome :=
| Done (w : world) (t : list event)
| Raised (e : exn) (w : world) (t : list event)
| OutOfFuel.

(** The collaborators outside [lib/item.py]: the JSON decoder of the casts,
    the expression evaluator ([eval] of a rule inside item [path] with
    [value] bound, in the current registry) and the constant
    [ATTRIB_COMPAT_LATEST] of [lib.constants]. *)
Class Runtime := {
  json_loads : string -> option value;
  Eval : world -> string -> value -> string -> eval_result;
  ATTRIB_COMPAT_LATEST : string
}.

(** ** Casts *)

Definition _cast_str (v : value) : result value :=
  match v with VStr _ => Ok v | _ => Raise ValueError end.

(** The one-character string holding a double quote. *)
Definition dquote : string := String (Ascii.ascii_of_nat 34) EmptyString.

(** The decoding step shared by [_cast_list] and [_cast_dict]: a string is
    decoded, with a second attempt after replacing single by double quotes. *)
Definition loads_lenient `{Runtime} (v : value) : result value :=
  match v with
  | VStr s =>
      match json_loads s with
      | Some v' => Ok v'
      | None =>
          match json_loads (PyStr.replace s "'" dquote) with
          | Some v' => Ok v'
          | None => Raise ValueError
          end
      end
  | _ => Ok v
  end.

Definition _cast_list `{Runtime} (v : value) : result value :=
  match loads_lenient v with
  | Ok (VList l) => Ok (VList l)
  | Ok _ => Raise ValueError
  | Raise e => Raise e
  end.

Definition _cast_dict `{Runtime} (v : value) : result value :=
  match loads_lenient v with
  | Ok (VDict d) => Ok (VDict d)
  | Ok _ => Raise ValueError
  | Raise e => Raise e
  end.

Definition _cast_foo (v : value) : result value := Ok v.

Definition _cast_bool (v : value) : result value :=
  match v with
  | VBool _ | VInt _ | VFloat _ =>
      if py_eq v (VBool false) then Ok (VBool false)
      else if py_eq v (VBool true) then Ok (VBool true)
      else Raise ValueError
  | VStr s =>
      let l := PyStr.lower s in
      if existsb (String.eqb l) ["0"; "false"; "no"; "off"; ""]
      then Ok (VBool false)
      else if existsb (String.eqb l) ["1"; "true"; "yes"; "on"]
      then Ok (VBool true)
      else Raise ValueError
  | _ => Raise TypeError
  end.

(** [int(q)] for a float: rounding towards zero. *)
Definition Qtrunc (q : Q) : Z :=
  if Qle_bool 0 q then Qfloor q else Qceiling q.

(** [int(v)] *)
Definition py_int (v : value) : result Z :=
  match v with
  | VBool b => Ok (int_of_bool b)
  | VInt z => Ok z
  | VFloat q => Ok (Qtrunc q)
  | VStr s =>
      match int_of_string s with Some z => Ok z | None => Raise ValueError end
  | _ => Raise TypeError
  end.

(** [float(v)] *)
Definition py_float (v : value) : result Q :=
  match v with
  | VStr s =>
      match float_of_string s with Some q => Ok q | None => Raise ValueError end
  | VNone | VList _ | VDict _ => Raise TypeError
  | _ => match num_of v with Some q => Ok q | None => Raise TypeError end
  end.

Definition _cast_scene (v : value) : result value :=
  match py_int v with Ok z => Ok (VInt z) | Raise e => Raise e end.

Definition _cast_num (v : value) : result value :=
  let v := match v with VStr s => VStr (PyStr.strip s) | _ => v end in
  if py_eq v (VStr "") then Ok (VInt 0)
  else match v with
       | VFloat _ => Ok v
       | _ =>
           match py_int v with
           | Ok z => Ok (VInt z)
           | Raise _ =>
               match py_float v with
               | Ok q => Ok (VFloat q)
               | Raise _ => Raise ValueError
               end
           end
       end.

(** [self.cast]: the caster selected by the item's type. *)
Definition cast `{Runtime} (t : itype) (v : value) : result value :=
  match t with
  | TNum => _cast_num v
  | TStr => _cast_str v
  | TBool => _cast_bool v
  | TList => _cast_list v
  | TDict => _cast_dict v
  | TFoo => _cast_foo v
  | TScene => _cast_scene v
  end.

(** *** Sequencing *)

(** Events that happened before [o]. *)
Definition emit (t : list event) (o : outcome) : outcome :=
  match o with
  | Done w t' => Done w (t ++ t')%list
  | Raised e w t' => Raised e w (t ++ t')%list
  | OutOfFuel => OutOfFuel
  end.

(** [o] and then [k], unless [o] raised. *)
Definition andthen (o : outcome) (k : world -> outcome) : outcome :=
  match o with
  | Done w t => emit t (k w)
  | _ => o
  end.

(** Work on the item object registered under [p]. *)
Definition with_item (p : string) (w : world) (k : Item -> outcome) : outcome :=
  match items w !! p with
  | Some it => k it
  | None => Raised AttributeError w []
  end.

(** ["{0}:{1}".format(caller, source)] *)
Definition fmt_by (caller : string) (source : option string) : string :=
  caller +:+ ":" +:+ default "None" source.

(** [bool(l)] of a list is [not is_empty l]. *)
Definition is_empty {A} (l : list A) : bool :=
  match l with [] => true | _ => false end.

Definition opt_str (o : option string) : value :=
  match o with Some s => VStr s | None => VNone end.

(** ** [Item.__update] *)

Section UpdatePath.
Context `{Runtime}.

(** The recursive occurrence: [dest_item.__update(value, caller, source)]. *)
Variable rec :
  world -> string -> value -> string -> option string -> option string ->
  outcome.

(** [Item._run_on_xxx] from its second statement on: one [on_update] /
    [on_change] entry of the item at [path]. *)
Definition eval_rule (w : world) (path : string) (value : value)
    (on_dest on_eval attr : string) : outcome :=
  let info := EvLog INFO "Item {}: '{}' evaluating {} = {}" in
  let r := Eval w path value on_eval in
  match r with
  | EvalRaises =>
      Done w [info; EvEval path attr on_dest on_eval r;
              EvLog WARNING "Item {}: '{}' item-value='{}' problem evaluating {}: {}"]
  | EvalValue dest_value =>
      if negb (is_none dest_value) then
        if negb (String.eqb on_dest "") then
          match items w !! on_dest with
          | Some _ =>
              match rec w on_dest dest_value attr (Some path) None with
              | Done w' t =>
                  Done w' [info; EvEval path attr on_dest on_eval r;
                           EvUpdate on_dest dest_value attr (Some path) t;
                           EvLog DEBUG " - : '{}' finally evaluating {} = {}, result={}"]
              | Raised e w' t =>
                  Raised e w' [info; EvEval path attr on_dest on_eval r;
                               EvUpdate on_dest dest_value attr (Some path) t]
              | OutOfFuel => OutOfFuel
              end
          | None =>
              Done w [info; EvEval path attr on_dest on_eval r;
                      EvLog ERROR " - : '{}' has not found dest_item {} = {}, result={}"]
          end
        else
          let r2 := Eval w path value on_eval in
          match r2 with
          | EvalRaises =>
              Raised EvalException w
                [info; EvEval path attr on_dest on_eval r;
                 EvEvalAgain path attr on_eval r2]
          | EvalValue _ =>
              Done w [info; EvEval path attr on_dest on_eval r;
                      EvEvalAgain path attr on_eval r2;
                      EvLog DEBUG " - : '{}' finally evaluating {}, result={}"]
          end
      else
        Done w [info; EvEval path attr on_dest on_eval r;
                EvLog DEBUG " - : '{}' {} not set (cause: eval=None)"]
  end.

(** [Item._run_on_xxx]: a log line for one particular item path, then the
    evaluation of the entry. *)
Definition _run_on_xxx (w : world) (path : string) (value : value)
    (on_dest on_eval attr : string) : outcome :=
  emit (if String.eqb path "wohnung.flur.szenen_helper"
        then [EvLog INFO "_run_on_xxx: item = {}, value = {}"] else [])
       (eval_rule w path value on_dest on_eval attr).

(** The [for ... in zip(dest_var, exprs)] loop of [__run_on_update] and
    [__run_on_change]. *)
Fixpoint run_rules (w : world) (path : string) (value : value)
    (rules : list (string * string)) (attr : string) : outcome :=
  match rules with
  | [] => Done w []
  | (on_dest, on_eval) :: rules' =>
      andthen (_run_on_xxx w path value on_dest on_eval attr)
        (fun w' => run_rules w' path value rules' attr)
  end.

Definition __run_on_update (w : world) (p : string) (value : value) : outcome :=
  with_item p w (fun it =>
    run_rules w (_path it) value
      (combine (_on_update_dest_var it) (_on_update it)) "on_update").

Definition __run_on_change (w : world) (p : string) (value : value) : outcome :=
  with_item p w (fun it =>
    run_rules w (_path it) value
      (combine (_on_change_dest_var it) (_on_change it)) "on_change").

(** [Item.__trigger_logics] *)
Definition __trigger_logics (it : Item) : list event :=
  map (fun logic => EvLogic logic "Item" (_path it) (_value it))
      (__logics_to_trigger it).

(** The part of [__update] that runs while [self._lock] is held: the item
    after it, whether the value changed, and the events. *)
Definition locked_section (it : Item) (value : value) (caller : string)
    (source dest : option string) (tnow : Q) : Item * bool * list event :=
  let it := set__updated_by (fmt_by caller source) it in
  if py_ne value (_value it) then
    let it := set__prev_value (_value it) it in
    let it := set_value value it in
    let it := set__prev_change (__last_change it) it in
    let it := set__last_change tnow it in
    let it := set__changed_by (fmt_by caller source) it in
    if negb (String.eqb caller "fader") then
      (set_fading false it, true,
       [EvNotifyAll (_path it);
        EvChangeLog (_path it) value caller source dest]
       ++ match _log_change_logger it with
          | Some l => [EvItemChangeLog l (_path it) value caller source dest]
          | None => []
          end)%list
    else (it, true, [])
  else (it, false, []).

(** The threshold / logic part of the change path. *)
Definition notify_logics (w : world) (p : string) : outcome :=
  with_item p w (fun it =>
    if _threshold it && negb (is_empty (__logics_to_trigger it)) then
      if __th_crossed it then
        match py_le_float (_value it) (__th_low it) with
        | Raise e => Raised e w []
        | Ok true =>
            let w' := assign p (set__th_crossed false) w in
            with_item p w' (fun it' => Done w' (__trigger_logics it'))
        | Ok false => Done w []
        end
      else
        match py_ge_float (_value it) (__th_high it) with
        | Raise e => Raised e w []
        | Ok true =>
            let w' := assign p (set__th_crossed true) w in
            with_item p w' (fun it' => Done w' (__trigger_logics it'))
        | Ok false => Done w []
        end
    else if negb (is_empty (__logics_to_trigger it)) then
      Done w (__trigger_logics it)
    else Done w []).

(** The block guarded by [_changed or self._enforce_updates or
    self._type == 'scene']. *)
Definition change_path (w : world) (p : string) (value : value)
    (caller : string) (source dest : option string) : outcome :=
  let w := assign p (fun it => set__prev_update (__last_update it) it) w in
  let w := assign p (set__last_update (now w)) w in
  andthen (__run_on_change w p value) (fun w =>
  andthen (with_item p w (fun it =>
             Done w (map (fun m => EvMethod (_path it) m caller source dest)
                         (__methods_to_trigger it)))) (fun w =>
  andthen (notify_logics w p) (fun w =>
  with_item p w (fun it =>
    Done w (map (fun item =>
                   EvTrigger item item
                     [("value", value); ("source", VStr (_path it))]
                     caller source dest)
                (_items_to_trigger it)))))).

(** [Item._castvalue_to_itemtype] *)
Definition _castvalue_to_itemtype (it : Item) (v : value) (compat : string)
    : result value * list event :=
  if String.eqb compat ATTRIB_COMPAT_LATEST then
    match cast (_type it) v with
    | Ok v' => (Ok v', [])
    | Raise _ =>
        let logs := [EvLog WARNING "Item {}: Unable to cast '{}' to {}"] in
        match v with
        | VList _ => (Ok (VList []), logs)
        | VDict _ => (Ok (VDict []), logs)
        | _ => (cast (_type it) (VStr ""), logs)
        end
    end
  else (Ok v, []).

(** [datetime.timedelta(seconds=v)] *)
Definition timedelta_seconds (v : value) : result Q :=
  match num_of v with
  | Some q => Ok q
  | None => Raise TypeError
  end.

(** [eval('self._sh.' + path + '()')]: the current value of another item;
    [None] when there is no such item. *)
Definition read_item (w : world) (path : string) : option value :=
  _value <$> items w !! path.

Definition truthy_path (o : option string) : option string :=
  match o with
  | Some s => if String.eqb s "" then None else Some s
  | None => None
  end.

(** The autotimer block of [__update], entered when [self._autotimer] is
    set, the caller is not ['Autotimer'] and the item is not fading. *)
Definition rearm_autotimer (w : world) (p : string) (it : Item)
    (a : autotimer) : outcome :=
  let missing :=
    EvLog WARNING "Item '{}': Attribute 'autotimer': Item '{}' does not exist" in
  let '(_time, log1) :=
    match truthy_path (at_timeitem a) with
    | Some ti =>
        match read_item w ti with
        | Some v => (v, [])
        | None => (at_time a, [missing])
        end
    | None => (at_time a, [])
    end in
  let '(_val, log2) :=
    match truthy_path (at_valueitem a) with
    | Some vi =>
        match read_item w vi with
        | Some v =>
            match _castvalue_to_itemtype it v (at_compat a) with
            | (Ok v', l) => (v', l)
            | (Raise _, l) => (at_value a, l ++ [missing])%list
            end
        | None => (at_value a, [missing])
        end
    | None => (at_value a, [])
    end in
  let a' := {| at_time := _time; at_value := _val; at_compat := at_compat a;
               at_timeitem := at_timeitem a; at_valueitem := at_valueitem a |} in
  let w' := assign p (set_autotimer (Some a')) w in
  match timedelta_seconds _time with
  | Raise e => Raised e w' (log1 ++ log2)%list
  | Ok secs =>
      Done w' (log1 ++ log2 ++
               [EvSchedulerAdd ("items." +:+ _path it +:+ "-Timer") _val "Autotimer"
                  (Qred (now w + secs))])%list
  end.

(** [Item.__update(value, caller, source, dest)] on the item registered
    under [p]. *)
Definition update_body (w : world) (p : string) (value : value)
    (caller : string) (source dest : option string) : outcome :=
  with_item p w (fun it =>
    match cast (_type it) value with
    | Raise _ =>
        Done w [EvLog WARNING "Item {}: value {} does not match type {}. Via {} {}"]
    | Ok value =>
        let '(it', _changed, evs) :=
          locked_section it value caller source dest (now w) in
        let w := {| items := <[p := it']> (items w); now := now w |} in
        emit evs (
        andthen (__run_on_update w p value) (fun w =>
        andthen (with_item p w (fun it =>
                   if _changed || _enforce_updates it
                      || String.eqb (type_name (_type it)) "scene"
                   then change_path w p value caller source dest
                   else Done w [])) (fun w =>
        andthen (with_item p w (fun it =>
                   match _cache it with
                   | Some file =>
                       if _changed && negb (_fading it)
                       then Done w [EvCacheWrite file (_value it)]
                       else Done w []
                   | None => Done w []
                   end)) (fun w =>
        with_item p w (fun it =>
          match _autotimer it with
          | Some a =>
              if negb (String.eqb caller "Autotimer") && negb (_fading it)
              then rearm_autotimer w p it a
              else Done w []
          | None => Done w []
          end)))))
    end).

End UpdatePath.

(** [Item.__update] with the depth of nested rule-driven updates bounded by
    [fuel]. *)
Fixpoint __update `{Runtime} (fuel : nat) (w : world) (p : string)
    (value : value) (caller : string) (source dest : option string)
    {struct fuel} : outcome :=
  match fuel with
  | O => OutOfFuel
  | S n => update_body (__update n) w p value caller source dest
  end.

(** [Item.__call__(value, caller, source, dest)]: what it returns and what
    it does. *)
Definition __call__ `{Runtime} (fuel : nat) (w : world) (p : string)
    (val : value) (caller : string) (source dest : option string)
    : value * outcome :=
  match items w !! p with
  | None => (VNone, Raised AttributeError w [])
  | Some it =>
      if is_none val then (_value it, Done w [])
      else
        match _eval it with
        | Some e =>
            if negb (String.eqb e "") then
              (VNone,
               Done w [EvTrigger (_path it +:+ "-eval") p
                         [("value", val); ("caller", VStr caller);
                          ("source", opt_str source); ("dest", opt_str dest)]
                         caller source dest])
            else (VNone, __update fuel w p val caller source dest)
        | None => (VNone, __update fuel w p val caller source dest)
        end
  end.

(** ** [_fadejob] *)

(** What the other threads do while the fade job waits on the item's
    condition variable ([item._lock.wait(delta)]): nothing, a shutdown
    ([Items.stop]), a direct write to some item, or time passing. *)
Inductive ext :=
| Idle
| Stop
| Call (p : string) (v : value) (caller : string)
| Tick (dt : Q).

Section Fade.
Context `{Runtime}.

(** [item(value, caller)] as the fade job issues it. *)
Definition issue (fuel : nat) (w : world) (p : string) (v : value)
    (caller : string) : outcome :=
  match snd (__call__ fuel w p v caller None None) with
  | Done w' t => Done w' [EvCall p v caller t]
  | Raised e w' t => Raised e w' [EvCall p v caller t]
  | OutOfFuel => OutOfFuel
  end.

(** One [item._lock.wait(delta)]: the step the other threads take.  An
    exception there stays in the other thread. *)
Definition wait (fuel : nat) (e : ext) (w : world) : outcome :=
  match e with
  | Idle => Done w []
  | Stop => Done (stop w) []
  | Tick dt => Done {| items := items w; now := Qred (now w + dt) |} []
  | Call p v caller =>
      match snd (__call__ fuel w p v caller None None) with
      | Done w' t => Done w' [EvExternal t]
      | Raised _ w' t => Done w' [EvExternal t]
      | OutOfFuel => OutOfFuel
      end
  end.

(** The two [while] loops of [_fadejob] ([up]: the first one).  [n] bounds
    the number of passes; [sched] lists what happens at each wait, nothing
    once it is exhausted. *)
Fixpoint fade_loop (n fuel : nat) (up : bool) (w : world) (p : string)
    (dest : Q) (step : value) (sched : list ext) : outcome :=
  with_item p w (fun it =>
    match (if up then py_add else py_sub) (_value it) step with
    | Raise e => Raised e w []
    | Ok next =>
        match (if up then py_lt_float else py_gt_float) next dest with
        | Raise e => Raised e w []
        | Ok further =>
            if further && _fading it then
              match n with
              | O => OutOfFuel
              | S n' =>
                  andthen (issue fuel w p next "fader") (fun w =>
                  andthen (wait fuel (hd Idle sched) w) (fun w =>
                  fade_loop n' fuel up w p dest step (tl sched)))
              end
            else Done w []
        end
    end).

(** [_fadejob(item, dest, step, delta)] for the item registered under [p];
    [dest] is the float that [Item.fade] passes. *)
Definition _fadejob (n fuel : nat) (w : world) (p : string) (dest : Q)
    (step : value) (sched : list ext) : outcome :=
  with_item p w (fun it =>
    if _fading it then Done w []
    else
      let w := assign p (set_fading true) w in
      match py_lt_float (_value it) dest with
      | Raise e => Raised e w []
      | Ok up =>
          andthen (fade_loop n fuel up w p dest step sched) (fun w =>
          with_item p w (fun it =>
            if _fading it then
              let w := assign p (set_fading false) w in
              issue fuel w p (VFloat dest) "Fader"
            else Done w []))
      end).

End Fade.

(** ** Vocabulary of the properties *)

(** [c in s] *)
Fixpoint mem_char (c : ascii) (s : string) : bool :=
  match s with
  | EmptyString => false
  | String a s' => Ascii.eqb a c || mem_char c s'
  end.

(** The split as the specification words it: the first ['='] that is not
    part of ['=='] separates destination and expression.  [prev] tells
    whether the previous character was ['=']. *)
Fixpoint bare_equals (prev : bool) (s : string) (i : nat) : option nat :=
  match s with
  | EmptyString => None
  | String a s' =>
      if Ascii.eqb a "=" then
        if negb prev && negb (starts_with_char s' "=") then Some i
        else bare_equals true s' (S i)
      else bare_equals false s' (S i)
  end.

Definition spec_split (s : string) : string * string :=
  match bare_equals false s O with
  | Some i => (PyStr.take i s, PyStr.drop (S i) s)
  | None => ("", s)
  end.

(** *** Observing a trace

    The observers look at the events of the invocation itself; what a nested
    invocation did sits inside its [EvUpdate] / [EvCall] event. *)

(** The rules of kind [attr] that were evaluated: destination and expression. *)
Definition rule_evals (attr : string) (t : list event) : list (string * string) :=
  omap (fun e => match e with
                 | EvEval _ a d x _ => if String.eqb a attr then Some (d, x) else None
                 | _ => None
                 end) t.

(** The method subscribers that were called. *)
Definition methods_called (t : list event) : list string :=
  omap (fun e => match e with EvMethod _ m _ _ _ => Some m | _ => None end) t.

(** The logics that were triggered. *)
Definition logics_fired (t : list event) : list string :=
  omap (fun e => match e with EvLogic l _ _ _ => Some l | _ => None end) t.

(** The names under which a re-evaluation was handed to [sh.trigger]. *)
Definition dispatched (t : list event) : list string :=
  omap (fun e => match e with EvTrigger n _ _ _ _ _ => Some n | _ => None end) t.

(** The cache writes: file and value. *)
Definition cache_writes (t : list event) : list (string * value) :=
  omap (fun e => match e with EvCacheWrite f v => Some (f, v) | _ => None end) t.

(** The timers handed to the scheduler: value and caller tag. *)
Definition timers (t : list event) : list (value * string) :=
  omap (fun e => match e with EvSchedulerAdd _ v c _ => Some (v, c) | _ => None end) t.


(** The calls the fade job issued: value and caller tag. *)
Definition calls_issued (t : list event) : list (value * string) :=
  omap (fun e => match e with EvCall _ v c _ => Some (v, c) | _ => None end) t.




(** *** What an update may change *)

(** [bool(self._autotimer)] *)
Definition has_autotimer (it : Item) : bool :=
  match _autotimer it with Some _ => true | None => false end.

(** The part of an item that the update path never assigns. *)
Definition static (it : Item) :=
  (_path it, _type it, _eval it, _enforce_updates it,
   _on_update it, _on_update_dest_var it, _on_change it, _on_change_dest_var it,
   _log_change_logger it, _items_to_trigger it, __logics_to_trigger it,
   __methods_to_trigger it, _threshold it, __th_low it, __th_high it,
   _cache it, has_autotimer it).

(** The destinations the rules of an item write to. *)
Definition dests (it : Item) : list string :=
  (_on_update_dest_var it ++ _on_change_dest_var it)%list.

(** [S] contains every destination of every item in [S]. *)
Definition closed (w : world) (S : string -> Prop) : Prop :=
  forall q it d,
    S q -> items w !! q = Some it -> In d (dests it) -> d <> "" -> S d.

(** The destinations of the rules of the item at [p] lie in [S]. *)
Definition dests_in (w : world) (p : string) (S : string -> Prop) : Prop :=
  forall it d, items w !! p = Some it -> In d (dests it) -> d <> "" -> S d.


(** [it'] is a later state of [it]: same static part; changed at all only
    if [may]; and, when [nn] is set, not [None] unless it was [None]. *)
Definition item_evolves (nn : bool) (may : Prop) (it it' : Item) : Prop :=
  static it' = static it /\
  (may \/ it' = it) /\
  (nn = true -> is_none (_value it') = true -> is_none (_value it) = true).

(** [w'] is a later state of [w] in which only items in [S] were assigned. *)
Definition evolves (nn : bool) (S : string -> Prop) (w w' : world) : Prop :=
  now w' = now w /\
  forall q, option_Forall2 (item_evolves nn (S q)) (items w !! q) (items w' !! q).

(** [P] holds of the state in which [o] ended, normally or by raising. *)
Definition ends_in (P : world -> Prop) (o : outcome) : Prop :=
  match o with
  | Done w _ | Raised _ w _ => P w
  | OutOfFuel => True
  end.

(** What is assumed of the nested updates: started on an item of the closed
    set [S] with a value other than [None], they stay within [S]. *)
Definition rec_ok (nn : bool) (S : string -> Prop)
    (rec : world -> string -> value -> string -> option string ->
           option string -> outcome) : Prop :=
  forall w q v c s d,
    closed w S -> S q -> is_none v = false ->
    ends_in (evolves nn S w) (rec w q v c s d).

(** The threshold test of the change path on the state of an item: with the
    crossed flag set, whether the value is at or below the low bound; with
    the flag clear, whether it is at or above the high bound. *)
Definition crossing (it : Item) : bool :=
  match (if __th_crossed it
         then py_le_float (_value it) (__th_low it)
         else py_ge_float (_value it) (__th_high it)) with
  | Ok b => b
  | Raise _ => false
  end.

(** A trace without subscriber, dispatch, cache or scheduler events. *)
Definition quiet (t : list event) : Prop :=
  methods_called t = [] /\ logics_fired t = [] /\ dispatched t = [] /\
  cache_writes t = [] /\ timers t = [].

(** Whether the logics of an item are behind the threshold test. *)
Definition gated (it : Item) : bool :=
  _threshold it && negb (is_empty (__logics_to_trigger it)).

(** [self._type == 'scene'] *)
Definition is_scene (it : Item) : bool :=
  String.eqb (type_name (_type it)) "scene".

(** The two timestamp assignments at the head of the change path. *)
Definition stamp_update (tnow : Q) (it : Item) : Item :=
  set__last_update tnow (set__prev_update (__last_update it) it).

(** Every [on_update] rule of [it] was evaluated, in order. *)
Definition on_update_ran (it : Item) (t : list event) : Prop :=
  rule_evals "on_update" t = combine (_on_update_dest_var it) (_on_update it).

(** The change path ran: every [on_change] rule was evaluated, every method
    subscriber called and every dependent handed to [sh.trigger], in order;
    the logics were all triggered unless they are behind a threshold. *)
Definition change_path_ran (it : Item) (t : list event) : Prop :=
  rule_evals "on_change" t = combine (_on_change_dest_var it) (_on_change it) /\
  methods_called t = __methods_to_trigger it /\
  dispatched t = _items_to_trigger it /\
  (gated it = false -> logics_fired t = __logics_to_trigger it).

(** The change path did not run. *)
Definition change_path_skipped (t : list event) : Prop :=
  rule_evals "on_change" t = [] /\ methods_called t = [] /\
  logics_fired t = [] /\ dispatched t = [].

(** [self._enforce_updates or self._type == 'scene'] *)
Definition forced (it : Item) : bool := _enforce_updates it || is_scene it.

(** *** Example configurations *)

(** A small evaluator: an integer literal evaluates to that integer, the
    name [value] to the bound value, [None] to [None]; anything else raises. *)
Definition demo_eval (w : world) (path : string) (v : value) (e : string)
    : eval_result :=
  match int_of_string e with
  | Some z => EvalValue (VInt z)
  | None =>
      if String.eqb e "value" then EvalValue v
      else if String.eqb e "None" then EvalValue VNone
      else EvalRaises
  end.

Definition demo_runtime : Runtime :=
  {| json_loads := fun _ => None;
     Eval := demo_eval;
     ATTRIB_COMPAT_LATEST := "latest" |}.

(** An item as [Item.__init__] leaves it when only [type] and [value] are
    configured. *)
Definition plain_item (p : string) (t : itype) (v : value) : Item :=
  {| _path := p; _type := t; _value := v; __prev_value := v;
     __last_change := 0; __prev_change := 0; __last_update := 0;
     __prev_update := 0; __changed_by := "Init:None";
     __updated_by := "Init:None"; _eval := None; _enforce_updates := false;
     _on_update := []; _on_update_dest_var := []; _on_change := [];
     _on_change_dest_var := []; _log_change_logger := None; _fading := false;
     _items_to_trigger := []; __logics_to_trigger := [];
     __methods_to_trigger := []; _threshold := false; __th_crossed := false;
     __th_low := 0; __th_high := 0; _cache := None; _autotimer := None |}.

(** [threshold = 10:20] and one subscribed logic on top of [plain_item]. *)
Definition threshold_item (p : string) (t : itype) (v : value) : Item :=
  {| _path := p; _type := t; _value := v; __prev_value := v;
     __last_change := 0; __prev_change := 0; __last_update := 0;
     __prev_update := 0; __changed_by := "Init:None";
     __updated_by := "Init:None"; _eval := None; _enforce_updates := false;
     _on_update := []; _on_update_dest_var := []; _on_change := [];
     _on_change_dest_var := []; _log_change_logger := None; _fading := false;
     _items_to_trigger := []; __logics_to_trigger := ["logic1"];
     __methods_to_trigger := []; _threshold := true; __th_crossed := false;
     __th_low := 10 # 1; __th_high := 20 # 1; _cache := None;
     _autotimer := None |}.


(** [autotimer = 5 = 42 = latest] *)
Definition demo_autotimer : autotimer :=
  {| at_time := VInt 5; at_value := VInt 42; at_compat := "latest";
     at_timeitem := None; at_valueitem := None |}.

(** An item with rules writing to item [b], subscribers, a dependent, a
    cache file and an autotimer. *)
Definition ruled_item (p : string) (v : value) : Item :=
  {| _path := p; _type := TNum; _value := v; __prev_value := v;
     __last_change := 0; __prev_change := 0; __last_update := 0;
     __prev_update := 0; __changed_by := "Init:None";
     __updated_by := "Init:None"; _eval := None; _enforce_updates := false;
     _on_update := ["value"]; _on_update_dest_var := ["b"];
     _on_change := ["1"; "None"]; _on_change_dest_var := ["b"; ""];
     _log_change_logger := None; _fading := false;
     _items_to_trigger := ["c"]; __logics_to_trigger := ["logic1"];
     __methods_to_trigger := ["knx"]; _threshold := false;
     __th_crossed := false; __th_low := 0; __th_high := 0;
     _cache := Some "/cache/a";
     _autotimer := Some demo_autotimer |}.

Definition world_of (l : list (string * Item)) : world :=
  {| items := list_to_map l; now := 0 |}.




(** The registry of the examples: an item with rules, subscribers, cache
    and autotimer; the destination of its rules; a dependent. *)
Definition demo_world : world :=
  world_of [("a", ruled_item "a" (VInt 0));
            ("b", plain_item "b" TNum (VInt 0));
            ("c", plain_item "c" TNum (VInt 0))].

(** No item of [w'] holds [None] unless it did in [w]. *)
Definition no_new_none (w w' : world) : Prop :=
  forall q it', items w' !! q = Some it' -> is_none (_value it') = true ->
  exists it, items w !! q = Some it /\ is_none (_value it) = true.

(** A numeric item without eval expression, rules or autotimer, holding a
    number. *)
Definition plain_num (it : Item) : Prop :=
  _type it = TNum /\ _eval it = None /\ _on_update it = [] /\
  _on_change it = [] /\ _autotimer it = None /\
  is_Some (num_of (_value it)) /\ dests it = [].

(** A wait during which nobody touches the items. *)
Definition undisturbed (e : ext) : Prop :=
  match e with Idle | Tick _ => True | _ => False end.

(** The stepped updates of a ramp from [z] in steps of [st]. *)
Definition ramp (z st : Z) (k : nat) : list (value * string) :=
  map (fun i => (VInt (z + Z.of_nat (S i) * st), "fader")) (seq 0 k).


(** ** Further parts of [lib/item.py] *)

(** *** More [str] operations *)

Module PyStrExt.

(** [s[i:j]] *)
Definition slice (s : string) (i j : Z) : string :=
  PyStr.take (PyStr.bound s j - PyStr.bound s i) (PyStr.drop (PyStr.bound s i) s).

(** The last character, if any. *)
Fixpoint last (s : string) : option ascii :=
  match s with
  | EmptyString => None
  | String a EmptyString => Some a
  | String _ s' => last s'
  end.

(** [s[-1] == c] guarded by [len(s) > 0]. *)
Definition ends_with_char (s : string) (c : ascii) : bool :=
  match last s with
  | Some a => Ascii.eqb a c
  | None => false
  end.

(** [s.lstrip(c)], [s.rstrip(c)] and [s.strip(c)] for a one-character
    string [c]. *)
Fixpoint lstrip_char (c : ascii) (s : string) : string :=
  match s with
  | String a s' => if Ascii.eqb a c then lstrip_char c s' else s
  | EmptyString => EmptyString
  end.

Fixpoint rstrip_char (c : ascii) (s : string) : string :=
  match s with
  | EmptyString => EmptyString
  | String a s' =>
      match rstrip_char c s' with
      | EmptyString => if Ascii.eqb a c then EmptyString else String a EmptyString
      | r => String a r
      end
  end.

Definition strip_char (c : ascii) (s : string) : string :=
  rstrip_char c (lstrip_char c s).

(** [sep.join(l)] *)
Fixpoint join (sep : string) (l : list string) : string :=
  match l with
  | [] => EmptyString
  | [x] => x
  | x :: l' => x +:+ sep +:+ join sep l'
  end.

End PyStrExt.

(** *** Duration/value strings *)

(** [_split_duration_value_string(value)]: the three parts [time], [value]
    and [compat] of an attribute such as [autotimer = 5m = 42 = latest].
    [default] is the module variable [ATTRIB_COMPAT_DEFAULT] at the time of
    the call. *)
Definition _split_duration_value_string (default value : string)
    : string * string * string :=
  let '(time, _, value) := PyStr.partition value "=" in
  let '(value, _, compat) := PyStr.partition value "=" in
  let time := PyStr.strip time in
  let value := PyStr.strip value in
  let value :=
    if negb (String.eqb value "")
       && ((starts_with_char value "'" && PyStrExt.ends_with_char value "'")
           || (starts_with_char value (Ascii.ascii_of_nat 34)
               && PyStrExt.ends_with_char value (Ascii.ascii_of_nat 34)))
    then PyStrExt.slice value 1 (-1)
    else value in
  let compat := PyStr.lower (PyStr.strip compat) in
  let compat := if String.eqb compat "" then default else compat in
  (time, value, compat).

(** [_join_duration_value_string(time, value, compat)]; [time] is the text
    [str(time)]. *)
Definition _join_duration_value_string (time value compat : string) : string :=
  let result := time in
  if negb (String.eqb value "") || negb (String.eqb compat "") then
    let result := result +:+ " =" in
    let result :=
      if negb (String.eqb value "") then result +:+ " " +:+ value else result in
    if negb (String.eqb compat "") then result +:+ " = " +:+ compat else result
  else result.

(** [Item._cast_duration(time)]: the number of seconds, or [False] with a
    warning in the log. *)
Definition _cast_duration (time : value) : value * list event :=
  match time with
  | VStr s =>
      let s := PyStr.strip s in
      let r :=
        if PyStr.endswith s "m"
        then match int_of_string (PyStrExt.strip_char "m" s) with
             | Some z => Some (z * 60)
             | None => None
             end
        else if PyStr.endswith s "s"
        then int_of_string (PyStrExt.strip_char "s" s)
        else int_of_string s in
      match r with
      | Some z => (VInt z, [])
      | None =>
          (VBool false, [EvLog WARNING "Item {}: _cast_duration ({}) problem: {}"])
      end
  | VInt z => (VInt z, [])
  | VBool b => (VInt (int_of_bool b), [])
  | _ =>
      (VBool false,
       [EvLog WARNING
          "Item {}: _cast_duration ({}) problem: unable to convert to int"])
  end.

(** *** Relative paths inside expressions *)

(** The [while] loop of [Item.get_stringwithabsolutepathes]; [fuel] bounds
    the number of passes, [None] tells that the bound was reached. *)
Fixpoint expand_loop (fuel : nat) (self_path attribute begintag endtag : string)
    (pref rest : string) (logs : list logrec) : option (string * list logrec) :=
  if negb (PyStr.find rest (begintag +:+ ".") =? -1) then
    match fuel with
    | O => None
    | S fuel' =>
        let i := PyStr.find rest (begintag +:+ ".") in
        let pref := pref +:+ PyStr.slice_to rest (i + PyStr.len begintag) in
        let rest := PyStr.slice_from rest (i + PyStr.len begintag) in
        let rel := PyStr.slice_to rest (PyStr.find rest endtag) in
        let rest := PyStr.slice_from rest (PyStr.find rest endtag) in
        let '(abs, l) := get_absolutepath self_path rel attribute in
        expand_loop fuel' self_path attribute begintag endtag
          (pref +:+ abs) rest (logs ++ l)%list
    end
  else Some (pref +:+ rest, logs).

(** [Item.get_stringwithabsolutepathes(evalstr, begintag, endtag, attribute)]
    for the item at [self_path]: the expanded string and the log records of
    the path expansions.  The loop is given one pass per character of
    [evalstr]. *)
Definition get_stringwithabsolutepathes
    (self_path evalstr begintag endtag attribute : string)
    : option (string * list logrec) :=
  if PyStr.find evalstr (begintag +:+ ".") =? -1 then Some (evalstr, [])
  else expand_loop (String.length evalstr) self_path attribute begintag endtag
         "" evalstr [].

(** *** The [Items] registry *)

Module Items.

(** The class attributes [__items] (the paths, in the order of their first
    registration) and [__item_dict]. *)
Record t := {
  __items : list string;
  __item_dict : gmap string Item
}.

(** The registry before any item is added. *)
Definition empty : t := {| __items := []; __item_dict := ∅ |}.

(** [Items.add_item(path, item)] *)
Definition add_item (path : string) (item : Item) (r : t) : t :=
  {| __items := if bool_decide (path ∈ __items r) then __items r
                else (__items r ++ [path])%list;
     __item_dict := <[path := item]> (__item_dict r) |}.

(** [self.__item_dict[path]] *)
Definition getitem (r : t) (path : string) : result Item :=
  match __item_dict r !! path with
  | Some it => Ok it
  | None => Raise KeyError
  end.

(** [Items.return_item(string)]: the item, or [None]. *)
Definition return_item (r : t) (s : string) : result (option Item) :=
  if bool_decide (s ∈ __items r) then
    match getitem r s with
    | Ok it => Ok (Some it)
    | Raise e => Raise e
    end
  else Ok None.

(** [list(Items.return_items())]: what the generator yields. *)
Fixpoint collect (r : t) (paths : list string) : result (list Item) :=
  match paths with
  | [] => Ok []
  | p :: ps =>
      match getitem r p with
      | Raise e => Raise e
      | Ok it =>
          match collect r ps with
          | Ok l => Ok (it :: l)
          | Raise e => Raise e
          end
      end
  end.

Definition return_items (r : t) : result (list Item) := collect r (__items r).

(** [Items.item_count()] *)
Definition item_count (r : t) : Z := Z.of_nat (length (__items r)).

(** The loop of [Items.stop]: [self.__item_dict[item]._fading = False] for
    every registered path. *)
Fixpoint stop_loop (paths : list string) (d : gmap string Item)
    : result (gmap string Item) :=
  match paths with
  | [] => Ok d
  | p :: ps =>
      match d !! p with
      | Some it => stop_loop ps (<[p := set_fading false it]> d)
      | None => Raise KeyError
      end
  end.

(** [Items.stop()] *)
Definition stop (r : t) : result t :=
  match stop_loop (__items r) (__item_dict r) with
  | Ok d => Ok {| __items := __items r; __item_dict := d |}
  | Raise e => Raise e
  end.

End Items.

(** *** [Item.set] and [Item.timer] *)

(** [Item.set(value, caller, source, dest, prev_change, last_change)] on the
    item registered under [p]: the value is stored without any of the
    notifications of [__update]. *)
Definition set `{Runtime} (w : world) (p : string) (value : value)
    (caller : string) (source dest : option string)
    (prev_change last_change : option Q) : outcome :=
  with_item p w (fun it =>
    match cast (_type it) value with
    | Raise _ =>
        Done w [EvLog WARNING "Item {}: value {} does not match type {}. Via {} {}"]
    | Ok value =>
        let w := assign p (set_value value) w in
        let w := assign p (fun it =>
                   set__prev_change
                     (match prev_change with
                      | None => __last_change it
                      | Some x => x
                      end) it) w in
        let w := assign p (set__last_change
                             (match last_change with
                              | None => now w
                              | Some x => x
                              end)) w in
        let w := assign p (set__changed_by (fmt_by caller None)) w in
        let w := assign p (set__updated_by (fmt_by caller None)) w in
        Done w [EvChangeLog (_path it) value caller source dest]
    end).

(** [Item.timer(time, value, auto, compat)] on the item registered under
    [p]. *)
Definition timer `{Runtime} (w : world) (p : string) (time value : value)
    (auto : bool) (compat : string) : outcome :=
  with_item p w (fun it =>
    let '(time, l1) := _cast_duration time in
    match _castvalue_to_itemtype it value compat with
    | (Raise e, l2) => Raised e w (l1 ++ l2)%list
    | (Ok value, l2) =>
        let caller := if auto then "Autotimer" else "Timer" in
        let w :=
          if auto
          then assign p (set_autotimer
                           (Some {| at_time := time; at_value := value;
                                    at_compat := compat; at_timeitem := None;
                                    at_valueitem := None |})) w
          else w in
        match timedelta_seconds time with
        | Raise e => Raised e w (l1 ++ l2)%list
        | Ok secs =>
            Done w (l1 ++ l2 ++
                    [EvSchedulerAdd ("items." +:+ _path it +:+ "-Timer") value
                       caller (Qred (now w + secs))])%list
        end
    end).

(** *** Ages *)

(** [Item.age()], [Item.update_age()], [Item.prev_age()] and
    [Item.prev_update_age()], in seconds; [tnow] is the reading of
    [shtime.now()]. *)
Definition age (tnow : Q) (it : Item) : Q := tnow - __last_change it.

Definition update_age (tnow : Q) (it : Item) : Q := tnow - __last_update it.

Definition prev_age (it : Item) : Q := __last_change it - __prev_change it.

Definition prev_update_age (it : Item) : Q :=
  __last_update it - __prev_update it.

(** *** Subscriptions *)

Definition set__logics_to_trigger (x : list string) (it : Item) : Item :=
  {| _path := it.(_path); _type := it.(_type); _value := it.(_value);
     __prev_value := it.(__prev_value); __last_change := it.(__last_change);
     __prev_change := it.(__prev_change); __last_update := it.(__last_update);
     __prev_update := it.(__prev_update); __changed_by := it.(__changed_by);
     __updated_by := it.(__updated_by); _eval := it.(_eval);
     _enforce_updates := it.(_enforce_updates); _on_update := it.(_on_update);
     _on_update_dest_var := it.(_on_update_dest_var);
     _on_change := it.(_on_change);
     _on_change_dest_var := it.(_on_change_dest_var);
     _log_change_logger := it.(_log_change_logger); _fading := it.(_fading);
     _items_to_trigger := it.(_items_to_trigger);
     __logics_to_trigger := x;
     __methods_to_trigger := it.(__methods_to_trigger);
     _threshold := it.(_threshold); __th_crossed := it.(__th_crossed);
     __th_low := it.(__th_low); __th_high := it.(__th_high);
     _cache := it.(_cache); _autotimer := it.(_autotimer) |}.

Definition set__methods_to_trigger (x : list string) (it : Item) : Item :=
  {| _path := it.(_path); _type := it.(_type); _value := it.(_value);
     __prev_value := it.(__prev_value); __last_change := it.(__last_change);
     __prev_change := it.(__prev_change); __last_update := it.(__last_update);
     __prev_update := it.(__prev_update); __changed_by := it.(__changed_by);
     __updated_by := it.(__updated_by); _eval := it.(_eval);
     _enforce_updates := it.(_enforce_updates); _on_update := it.(_on_update);
     _on_update_dest_var := it.(_on_update_dest_var);
     _on_change := it.(_on_change);
     _on_change_dest_var := it.(_on_change_dest_var);
     _log_change_logger := it.(_log_change_logger); _fading := it.(_fading);
     _items_to_trigger := it.(_items_to_trigger);
     __logics_to_trigger := it.(__logics_to_trigger);
     __methods_to_trigger := x;
     _threshold := it.(_threshold); __th_crossed := it.(__th_crossed);
     __th_low := it.(__th_low); __th_high := it.(__th_high);
     _cache := it.(_cache); _autotimer := it.(_autotimer) |}.

(** [l.remove(x)]: [l] without the first occurrence of [x]; [ValueError]
    when there is none. *)
Fixpoint list_remove (x : string) (l : list string) : result (list string) :=
  match l with
  | [] => Raise ValueError
  | y :: l' =>
      if String.eqb y x then Ok l'
      else match list_remove x l' with
           | Ok r => Ok (y :: r)
           | Raise e => Raise e
           end
  end.

(** [Item.add_logic_trigger(logic)] *)
Definition add_logic_trigger (logic : string) (it : Item) : Item :=
  set__logics_to_trigger (__logics_to_trigger it ++ [logic])%list it.

(** [Item.remove_logic_trigger(logic)] *)
Definition remove_logic_trigger (logic : string) (it : Item) : result Item :=
  match list_remove logic (__logics_to_trigger it) with
  | Ok l => Ok (set__logics_to_trigger l it)
  | Raise e => Raise e
  end.

(** [Item.get_logic_triggers()] *)
Definition get_logic_triggers (it : Item) : list string :=
  __logics_to_trigger it.

(** [Item.add_method_trigger(method)] *)
Definition add_method_trigger (method : string) (it : Item) : Item :=
  set__methods_to_trigger (__methods_to_trigger it ++ [method])%list it.

(** [Item.remove_method_trigger(method)] *)
Definition remove_method_trigger (method : string) (it : Item) : result Item :=
  match list_remove method (__methods_to_trigger it) with
  | Ok l => Ok (set__methods_to_trigger l it)
  | Raise e => Raise e
  end.

(** [Item.get_method_triggers()] *)
Definition get_method_triggers (it : Item) : list string :=
  __methods_to_trigger it.

(** *** Trigger conditions *)

(** What [Item._build_trigger_condition_eval] ends in: the expression (with
    the log records of the path expansions), the [UnboundLocalError] of
    returning [result] before any assignment to it, or the bound on the
    passes of the expansion loop. *)
Inductive built :=
| Built (e : string) (logs : list logrec)
| UnboundLocalError
| LoopBound.

(** The body of the innermost loop of [_build_trigger_condition_eval]: one
    condition of the item at [self_path]; [key_condition] is the constant
    [KEY_CONDITION]. *)
Definition condition_expr (self_path key_condition cond : string)
    : option (string * list logrec) :=
  let wrk := cond in
  let wrk :=
    if negb (PyStr.find wrk "=" =? -1) && (PyStr.find wrk "==" =? -1)
       && (PyStr.find wrk "<=" =? -1) && (PyStr.find wrk ">=" =? -1)
       && (PyStr.find wrk "=<" =? -1) && (PyStr.find wrk "=>" =? -1)
    then PyStr.replace wrk "=" "=="
    else wrk in
  let p := PyStr.find (PyStr.lower wrk) "true" in
  let wrk :=
    if negb (p =? -1)
    then PyStr.slice_to wrk p +:+ "True" +:+ PyStr.slice_from wrk (p + 4)
    else wrk in
  let p := PyStr.find (PyStr.lower wrk) "false" in
  let wrk :=
    if negb (p =? -1)
    then PyStr.slice_to wrk p +:+ "False" +:+ PyStr.slice_from wrk (p + 5)
    else wrk in
  get_stringwithabsolutepathes self_path wrk "sh." "(" key_condition.

(** The innermost loop: the conditions under one key. *)
Fixpoint and_cond_loop (self_path key_condition : string) (conds : list string)
    : option (list string * list logrec) :=
  match conds with
  | [] => Some ([], [])
  | cond :: conds' =>
      match condition_expr self_path key_condition cond with
      | None => None
      | Some (wrk, l1) =>
          match and_cond_loop self_path key_condition conds' with
          | None => None
          | Some (and_cond, l2) => Some (wrk :: and_cond, (l1 ++ l2)%list)
          end
      end
  end.

(** The loop over the keys of one condition dict (its entries in the order
    of the dict); [wrk_eval], [result] and the log are carried along. *)
Fixpoint key_loop (self_path key_condition : string)
    (or_cond : list (string * list string)) (wrk_eval : list string)
    (result : option string) (logs : list logrec)
    : option (list string * option string * list logrec) :=
  match or_cond with
  | [] => Some (wrk_eval, result, logs)
  | (ckey, conds) :: or_cond' =>
      if String.eqb (PyStr.lower ckey) "value"
      then key_loop self_path key_condition or_cond' wrk_eval result logs
      else
        match and_cond_loop self_path key_condition conds with
        | None => None
        | Some (and_cond, l) =>
            let wrk := PyStrExt.join ") and (" and_cond in
            let wrk :=
              if 1 <? Z.of_nat (length conds) then "(" +:+ wrk +:+ ")"
              else wrk in
            let wrk_eval := (wrk_eval ++ [wrk])%list in
            key_loop self_path key_condition or_cond' wrk_eval
              (Some (PyStrExt.join ") or (" wrk_eval)) (logs ++ l)%list
        end
  end.

(** The outer loop, over the condition dicts. *)
Fixpoint or_cond_loop (self_path key_condition : string)
    (trigger_condition : list (list (string * list string)))
    (wrk_eval : list string) (result : option string) (logs : list logrec)
    : option (list string * option string * list logrec) :=
  match trigger_condition with
  | [] => Some (wrk_eval, result, logs)
  | or_cond :: rest =>
      match key_loop self_path key_condition or_cond wrk_eval result logs with
      | None => None
      | Some (wrk_eval, result, logs) =>
          or_cond_loop self_path key_condition rest wrk_eval result logs
      end
  end.

(** [Item._build_trigger_condition_eval(trigger_condition)] for a list of
    condition dicts whose entries are lists of condition strings. *)
Definition _build_trigger_condition_eval (self_path key_condition : string)
    (trigger_condition : list (list (string * list string))) : built :=
  match or_cond_loop self_path key_condition trigger_condition [] None [] with
  | None => LoopBound
  | Some (_, None, _) => UnboundLocalError
  | Some (_, Some result, logs) =>
      Built (if 1 <? Z.of_nat (length trigger_condition)
             then "(" +:+ result +:+ ")" else result) logs
  end.

(** ** Vocabulary of the further properties *)

(** Whether [_split_duration_value_string] takes [v] for a quoted value. *)
Definition quoted (v : string) : bool :=
  (starts_with_char v "'" && PyStrExt.ends_with_char v "'")
  || (starts_with_char v (Ascii.ascii_of_nat 34)
      && PyStrExt.ends_with_char v (Ascii.ascii_of_nat 34)).

(** What [_cast_duration] returns for the outcome of the [int(...)] it
    tried. *)
Definition duration_of (r : option Z) : value * list event :=
  match r with
  | Some z => (VInt z, [])
  | None =>
      (VBool false, [EvLog WARNING "Item {}: _cast_duration ({}) problem: {}"])
  end.

(** The values of an item type: what the cast of that type returns. *)
Definition has_type (t : itype) (v : value) : bool :=
  match t, v with
  | TNum, (VInt _ | VFloat _) => true
  | TStr, VStr _ => true
  | TBool, VBool _ => true
  | TList, VList _ => true
  | TDict, VDict _ => true
  | TScene, VInt _ => true
  | TFoo, _ => true
  | _, _ => false
  end.

(** [isinstance(v, list) or isinstance(v, dict)] *)
Definition is_container (v : value) : bool :=
  match v with VList _ | VDict _ => true | _ => false end.

(** The item types whose cast accepts the empty string. *)
Definition casts_empty (t : itype) : bool :=
  match t with TNum | TStr | TBool | TFoo => true | _ => false end.

(** The registry after the registrations [l], in that order. *)
Definition registered (l : list (string * Item)) : Items.t :=
  foldl (fun r pi => Items.add_item pi.1 pi.2 r) Items.empty l.

(** [I] holds of every registered item, at the current clock reading. *)
Definition all_items (I : Q -> Item -> Prop) (w : world) : Prop :=
  forall p it, items w !! p = Some it -> I (now w) it.

(** The item holds a value of its type. *)
Definition well_typed (tnow : Q) (it : Item) : Prop :=
  has_type (_type it) (_value it) = true.

(** None of the four ages of the item is negative. *)
Definition ages_nonneg (tnow : Q) (it : Item) : Prop :=
  (0 <= age tnow it)%Q /\ (0 <= update_age tnow it)%Q /\
  (0 <= prev_age it)%Q /\ (0 <= prev_update_age it)%Q.

(** [w'] has the items of [w], each with the configuration it had. *)
Definition same_configuration (w w' : world) : Prop :=
  now w' = now w /\
  forall q,
    match items w !! q, items w' !! q with
    | Some it, Some it' => static it' = static it
    | None, None => True
    | _, _ => False
    end.

(** The times the scheduler was given. *)
Definition schedule (t : list event) : list Q :=
  omap (fun e => match e with EvSchedulerAdd _ _ _ nx => Some nx | _ => None end) t.

(** The log records written at level [WARNING]. *)
Definition warnings (t : list event) : list string :=
  omap (fun e => match e with EvLog WARNING m => Some m | _ => None end) t.

(** The expression of the conditions [ws] under one key that holds [n]
    conditions. *)
Definition group_expr (ws : list string) (n : nat) : string :=
  if 1 <? Z.of_nat n then "(" +:+ PyStrExt.join ") and (" ws +:+ ")"
  else PyStrExt.join ") and (" ws.

(** The groups of one condition dict, in order: one per key other than
    ['value'], with [g] telling the expression of a condition. *)
Definition groups_of (g : string -> string) (or_cond : list (string * list string))
    : list string :=
  flat_map (fun kc => if String.eqb (PyStr.lower kc.1) "value" then []
                      else [group_expr (map g kc.2) (length kc.2)]) or_cond.

(* ===================================================================== *)
(** * Part II: properties                                                 *)
(* ===================================================================== *)

(** ** Facts about the [str] operations *)

Lemma append_nil_l b : "" +:+ b = b.
Proof. reflexivity. Qed.

Lemma append_cons a s b : String a s +:+ b = String a (s +:+ b).
Proof. reflexivity. Qed.

Ltac str_simpl := rewrite ?append_nil_l, ?append_cons in *; simpl in *.

Lemma len_cons a s : PyStr.len (String a s) = 1 + PyStr.len s.
Proof. unfold PyStr.len. simpl String.length. lia. Qed.

Lemma len_nonneg s : 0 <= PyStr.len s.
Proof. unfold PyStr.len. lia. Qed.

Lemma len_app a b : PyStr.len (a +:+ b) = PyStr.len a + PyStr.len b.
Proof.
  induction a as [|c a IH]; str_simpl.
  - change (PyStr.len "") with 0. lia.
  - rewrite !len_cons, IH. lia.
Qed.

Lemma take_app a b : PyStr.take (String.length a) (a +:+ b) = a.
Proof. induction a as [|c a IH]; str_simpl; [by destruct b | by rewrite IH]. Qed.

Lemma drop_app a b : PyStr.drop (String.length a) (a +:+ b) = b.
Proof. induction a as [|c a IH]; str_simpl; done. Qed.

Lemma bound_app a b : PyStr.bound (a +:+ b) (PyStr.len a) = String.length a.
Proof.
  unfold PyStr.bound. pose proof (len_nonneg a). pose proof (len_nonneg b).
  rewrite len_app. destruct (Z.ltb_spec (PyStr.len a) 0); [lia|].
  rewrite Z.min_l by lia. unfold PyStr.len. lia.
Qed.

Lemma slice_to_app a b : PyStr.slice_to (a +:+ b) (PyStr.len a) = a.
Proof. unfold PyStr.slice_to. by rewrite bound_app, take_app. Qed.

Lemma slice_from_app a b : PyStr.slice_from (a +:+ b) (PyStr.len a) = b.
Proof. unfold PyStr.slice_from. by rewrite bound_app, drop_app. Qed.

Lemma append_assoc_cons a c b : a +:+ String c b = (a +:+ String c "") +:+ b.
Proof. induction a as [|x a IH]; str_simpl; [done | by rewrite IH]. Qed.

Lemma slice_from_app_cons a c b :
  PyStr.slice_from (a +:+ String c b) (PyStr.len a + 1) = b.
Proof.
  rewrite append_assoc_cons.
  replace (PyStr.len a + 1) with (PyStr.len (a +:+ String c "")).
  - apply slice_from_app.
  - rewrite len_app, len_cons. change (PyStr.len "") with 0. lia.
Qed.

Lemma startswith_nil s : PyStr.startswith s "" = true.
Proof. by destruct s. Qed.

(** A search result is [-1] or an index at or after the starting offset. *)
Lemma find_from_range s sub i :
  PyStr.find_from s sub i = -1 \/ i <= PyStr.find_from s sub i.
Proof.
  revert i. induction s as [|a s IH]; intros i; cbn [PyStr.find_from].
  - destruct (PyStr.startswith "" sub); [right; lia | by left].
  - destruct (PyStr.startswith (String a s) sub); [right; lia|].
    destruct (IH (i + 1)) as [->| ?]; [by left | right; lia].
Qed.

(** Searching shifts with the starting offset. *)
Lemma find_from_shift s sub i :
  PyStr.find_from s sub i =
  if PyStr.find_from s sub 0 =? -1 then -1 else i + PyStr.find_from s sub 0.
Proof.
  revert i. induction s as [|a s IH]; intros i; cbn [PyStr.find_from].
  - destruct (PyStr.startswith "" sub); simpl; [lia | done].
  - destruct (PyStr.startswith (String a s) sub); simpl; [lia|].
    change (0 + 1) with 1. rewrite (IH (i + 1)), (IH 1).
    destruct (Z.eqb_spec (PyStr.find_from s sub 0) (-1)) as [E|E]; [done|].
    pose proof (find_from_range s sub 0) as [?|?]; [done|].
    destruct (Z.eqb_spec (1 + PyStr.find_from s sub 0) (-1)); lia.
Qed.

(** The first occurrence of a character that the prefix does not contain. *)
Lemma find_char_app c a b i :
  mem_char c a = false ->
  PyStr.find_from (a +:+ String c b) (String c "") i = i + PyStr.len a.
Proof.
  revert i. induction a as [|x a IH]; intros i Ha;
    rewrite ?append_nil_l, ?append_cons;
    cbn [PyStr.find_from PyStr.startswith mem_char] in *.
  - rewrite Ascii.eqb_refl, startswith_nil. simpl. change (PyStr.len "") with 0. lia.
  - apply orb_false_iff in Ha as [Hx Ha].
    rewrite Ascii.eqb_sym, Hx. simpl. rewrite IH by done. rewrite len_cons. lia.
Qed.

Lemma find_char_absent c a sub i :
  mem_char c a = false ->
  PyStr.find_from a (String c sub) i = -1.
Proof.
  revert i. induction a as [|x a IH]; intros i Ha;
    cbn [PyStr.find_from PyStr.startswith mem_char] in *; [done|].
  apply orb_false_iff in Ha as [Hx Ha].
  rewrite Ascii.eqb_sym, Hx. simpl. by apply IH.
Qed.

(** Where a two-character pattern [cc] is first found behind a prefix
    without [c] and one [c]. *)
Lemma find_pair_app c a b i :
  mem_char c a = false ->
  PyStr.find_from (a +:+ String c b) (String c (String c "")) i =
  if starts_with_char b c then i + PyStr.len a
  else PyStr.find_from b (String c (String c "")) (i + PyStr.len a + 1).
Proof.
  revert i. induction a as [|x a IH]; intros i Ha;
    rewrite ?append_nil_l, ?append_cons;
    cbn [PyStr.find_from PyStr.startswith mem_char] in *.
  - rewrite Ascii.eqb_refl. simpl andb. change (PyStr.len "") with 0.
    destruct b as [|y b]; cbn [starts_with_char PyStr.startswith].
    + f_equal; lia.
    + rewrite (Ascii.eqb_sym c y), startswith_nil.
      destruct (Ascii.eqb y c); simpl andb; cbv iota; [lia | f_equal; lia].
  - apply orb_false_iff in Ha as [Hx Ha].
    rewrite Ascii.eqb_sym, Hx. simpl andb. cbv iota.
    rewrite IH by done. rewrite len_cons.
    destruct (starts_with_char b c); [lia | f_equal; lia].
Qed.

(** ** Destination splitting ([_split_destitem_from_value]) *)

(** Refutes C7 as stated: on ['a == b = c'] the specification's rule splits
    at the bare ['='], the code does not split at all. *)
Lemma split_destitem_bare_after_double_counterexample :
  spec_split "a == b = c" = ("a == b ", " c") /\
  _split_destitem_from_value "a == b = c" = ("", "a == b = c") /\
  _split_destitem_from_value "a == b = c" <> spec_split "a == b = c".
Proof. repeat split; vm_compute; congruence. Qed.

(** C7 (amended): the code looks at the first ['='] only.  If it is not
    directly followed by another ['='], the destination is the text before it
    (stripped when a ['=='] occurs later in the string) and the expression is
    the stripped text after it; if it starts a ['=='], or there is no ['='],
    the destination is empty and the string is returned unchanged. *)
Theorem split_destitem_first_equals (a b : string) :
  mem_char "=" a = false ->
  _split_destitem_from_value a = ("", a) /\
  _split_destitem_from_value (a +:+ String "=" b) =
    if starts_with_char b "=" then ("", a +:+ String "=" b)
    else (if PyStr.find b "==" =? -1 then a else PyStr.strip a, PyStr.strip b).
Proof.
  intros Ha. unfold _split_destitem_from_value, PyStr.find. split.
  - by rewrite (find_char_absent "=" a "" 0 Ha).
  - rewrite (find_char_app "=" a b 0 Ha), (find_pair_app "=" a b 0 Ha).
    pose proof (len_nonneg a) as Hlen.
    replace (0 + PyStr.len a) with (PyStr.len a) by lia.
    destruct (Z.eqb_spec (PyStr.len a) (-1)) as [?|_]; [lia|]. cbn [negb].
    rewrite slice_to_app, slice_from_app_cons.
    destruct (starts_with_char b "=") eqn:Hb.
    + rewrite Z.ltb_irrefl.
      by destruct (Z.eqb_spec (PyStr.len a) (-1)) as [?|_]; [lia|].
    + rewrite (find_from_shift b "==" (PyStr.len a + 1)).
      pose proof (find_from_range b "==" 0) as Hr.
      destruct (Z.eqb_spec (PyStr.find_from b "==" 0) (-1)) as [E|E]; [done|].
      cbn [negb].
      destruct (Z.eqb_spec (PyStr.len a + 1 + PyStr.find_from b "==" 0) (-1));
        [lia|]. cbn [negb].
      destruct (Z.ltb_spec (PyStr.len a)
                  (PyStr.len a + 1 + PyStr.find_from b "==" 0)); [done | lia].
Qed.

Lemma split_destitem_first_equals_witness :
  mem_char "=" "a.b " = false /\
  _split_destitem_from_value "a.b " = ("", "a.b ") /\
  _split_destitem_from_value "a.b = 1 if value == 2 else 3" =
    ("a.b", "1 if value == 2 else 3").
Proof.
  split; [reflexivity|].
  exact (split_destitem_first_equals "a.b " " 1 if value == 2 else 3" eq_refl).
Defined.

(** ** Threshold parsing *)

Lemma rfind_char_absent c s i acc :
  mem_char c s = false ->
  PyStr.rfind_from s (String c "") i acc = acc.
Proof.
  revert i acc. induction s as [|x s IH]; intros i acc Hs;
    cbn [PyStr.rfind_from PyStr.startswith mem_char] in *; [done|].
  apply orb_false_iff in Hs as [Hx Hs].
  rewrite Ascii.eqb_sym, Hx. simpl andb. cbv iota. by apply IH.
Qed.

(** The last occurrence of a character that the suffix does not contain. *)
Lemma rfind_char_app c l h i acc :
  mem_char c h = false ->
  PyStr.rfind_from (l +:+ String c h) (String c "") i acc = i + PyStr.len l.
Proof.
  intros Hh. revert i acc. induction l as [|x l IH]; intros i acc;
    rewrite ?append_nil_l, ?append_cons;
    cbn [PyStr.rfind_from PyStr.startswith].
  - rewrite Ascii.eqb_refl, startswith_nil. simpl andb. cbv iota.
    rewrite rfind_char_absent by done. change (PyStr.len "") with 0. lia.
  - rewrite IH, len_cons. lia.
Qed.

Lemma rpartition_no_sep c s :
  mem_char c s = false -> PyStr.rpartition s (String c "") = ("", "", s).
Proof.
  intros Hs. unfold PyStr.rpartition, PyStr.rfind.
  by rewrite rfind_char_absent.
Qed.

Lemma rpartition_last c l h :
  mem_char c h = false ->
  PyStr.rpartition (l +:+ String c h) (String c "") = (l, String c "", h).
Proof.
  intros Hh. unfold PyStr.rpartition, PyStr.rfind.
  rewrite rfind_char_app by done. pose proof (len_nonneg l).
  destruct (Z.eqb_spec (0 + PyStr.len l) (-1)); [lia|].
  replace (0 + PyStr.len l) with (PyStr.len l) by lia.
  rewrite slice_to_app. change (PyStr.len (String c "")) with 1.
  by rewrite slice_from_app_cons.
Qed.

(** Refutes C8 as stated: with the high side omitted the parse raises. *)
Lemma init_threshold_missing_high_counterexample :
  init_threshold "10:" = Raise ValueError /\
  init_threshold "10:" <> Ok (10 # 1, 10 # 1).
Proof. split; vm_compute; congruence. Qed.

(** C8 (amended): a threshold ['low:high'] parses to two floats; when the low
    side is omitted ([':20'], or no colon at all) it defaults to the high
    side; when the high side is omitted (['10:']) nothing is defaulted and
    the parse raises [ValueError]. *)
Theorem init_threshold_sides (l h : string) :
  mem_char ":" h = false ->
  init_threshold "10:20" = Ok (10 # 1, 20 # 1) /\
  init_threshold ":20" = Ok (20 # 1, 20 # 1) /\
  init_threshold (":" +:+ h) = init_threshold h /\
  init_threshold h =
    match float_of_string (PyStr.strip h) with
    | Some q => Ok (q, q)
    | None => Raise ValueError
    end /\
  init_threshold (l +:+ ":") = Raise ValueError.
Proof.
  intros Hh. split; [by vm_compute|]. split; [by vm_compute|].
  assert (Hplain : init_threshold h =
    match float_of_string (PyStr.strip h) with
    | Some q => Ok (q, q)
    | None => Raise ValueError
    end).
  { unfold init_threshold. rewrite rpartition_no_sep by done.
    cbn [String.eqb]. by destruct (float_of_string (PyStr.strip h)). }
  split; [|split; [done|]].
  - rewrite Hplain. unfold init_threshold.
    change (":" +:+ h) with ("" +:+ String ":" h).
    rewrite (rpartition_last ":" "" h Hh). cbn [String.eqb].
    by destruct (float_of_string (PyStr.strip h)).
  - unfold init_threshold. rewrite (rpartition_last ":" l "" eq_refl).
    cbv beta iota.
    change (float_of_string (PyStr.strip "")) with (@None Q).
    destruct (String.eqb l ""); [done|].
    by destruct (float_of_string (PyStr.strip l)).
Qed.

Lemma init_threshold_sides_witness :
  mem_char ":" " 21.5 " = false /\
  init_threshold ":  21.5 " = Ok (43 # 2, 43 # 2) /\
  init_threshold "7:" = Raise ValueError.
Proof.
  split; [reflexivity|].
  pose proof (init_threshold_sides "7" " 21.5 " eq_refl) as (_ & _ & H1 & H2 & H3).
  split; [|exact H3].
  etransitivity; [exact H1|]. etransitivity; [exact H2|]. reflexivity.
Defined.

(** ** Relative paths ([get_absolutepath]) *)

Lemma rstrip_cons_nonspace a s :
  PyStr.is_space a = false ->
  PyStr.rstrip (String a s) = String a (PyStr.rstrip s).
Proof.
  intros Ha. cbn [PyStr.rstrip]. rewrite Ha. by destruct (PyStr.rstrip s).
Qed.

(** Walking above the root level from a top-level item: the result is the
    empty path, an error is logged, nothing is raised. *)
Lemma get_absolutepath_above_root (n x attr : string) :
  mem_char "." n = false -> n <> "" ->
  exists msg info,
    get_absolutepath n ("..." +:+ x) attr = ("", [(ERROR, msg); (INFO, info)]).
Proof.
  intros Hn Hne. unfold get_absolutepath.
  rewrite !append_cons, append_nil_l. cbn [starts_with_char Ascii.eqb].
  change (Ascii.eqb "." ".") with true. cbv iota.
  rewrite !(rstrip_cons_nonspace ".") by reflexivity.
  cbn [walk_up starts_with_char]. change (Ascii.eqb "." ".") with true. cbv iota.
  unfold PyStr.rfind at 1. rewrite rfind_char_absent by done.
  change (-1 =? -1) with true. cbv iota.
  destruct (String.eqb_spec n "") as [?|_]; [done|].
  cbn [walk_up starts_with_char]. change (Ascii.eqb "." ".") with true. cbv iota.
  change (PyStr.rfind "" "." =? -1) with true. cbv iota.
  change (String.eqb "" "") with true. cbv iota.
  eexists _, _. reflexivity.
Qed.

(** C5 (defect): the documented expansions hold, but a trailing ['.self']
    makes the code delete every occurrence of ['.self'] in the path, not
    only the trailing segment: from item ['a.selfie'] the relative path
    ['.self'] yields ['aie'] instead of ['a.selfie']. *)
Theorem get_absolutepath_trailing_self_deletes_every_self :
  fst (get_absolutepath "a.b.c" ".d" "") = "a.b.c.d" /\
  fst (get_absolutepath "a.b.c" "..d" "") = "a.b.d" /\
  fst (get_absolutepath "a.b.c" "...d" "") = "a.d" /\
  fst (get_absolutepath "a.b.c" ".self" "") = "a.b.c" /\
  (exists msg info,
     get_absolutepath "a" "...d" "eval_trigger"
     = ("", [(ERROR, msg); (INFO, info)])) /\
  fst (get_absolutepath "a.selfie" ".self" "") = "aie" /\
  fst (get_absolutepath "a" ".selfie.self" "") = "aie".
Proof.
  repeat split; try (by vm_compute).
  eexists _, _. by vm_compute.
Qed.

(** ** Inherited plugin attributes *)

(** C9 (defect): for an item below another item, the literal ['...'] is
    resolved exactly as ['..']: [_get_attr_from_grandparent] fetches the
    grandparent and then reads the parent's [conf].  With ['x' = 'g'] on the
    grandparent and ['x' = 'p'] on the parent, the child gets ['p']. *)
Theorem grandparent_attr_is_read_from_parent
    (pconf conf : gmap string value) (pparent : parent_ref) (attr : string) :
  _get_attr_from_grandparent (ParentItem pconf pparent) attr
    = _get_attr_from_parent (ParentItem pconf pparent) attr /\
  init_plugin_attr (ParentItem pconf pparent) conf attr (VStr "...")
    = init_plugin_attr (ParentItem pconf pparent) conf attr (VStr "..") /\
  (let grandparent := ParentItem {[ "x" := VStr "g" ]} ItemsLoader in
   let parent := ParentItem {[ "x" := VStr "p" ]} grandparent in
   init_plugin_attr parent ∅ "x" (VStr "...") = Ok {[ "x" := VStr "p" ]}).
Proof.
  split; [reflexivity|]. split; [reflexivity|].
  cbv zeta. unfold init_plugin_attr. cbn [py_eq String.eqb Ascii.eqb Bool.eqb].
  unfold _get_attr_from_grandparent. cbn [return_parent_of conf_lookup].
  by rewrite lookup_singleton_eq.
Qed.

(** ** How the registry evolves under an update *)

Lemma static_fields it it' :
  static it' = static it ->
  _path it' = _path it /\ _type it' = _type it /\ _eval it' = _eval it /\
  _enforce_updates it' = _enforce_updates it /\
  _on_update it' = _on_update it /\
  _on_update_dest_var it' = _on_update_dest_var it /\
  _on_change it' = _on_change it /\
  _on_change_dest_var it' = _on_change_dest_var it /\
  _log_change_logger it' = _log_change_logger it /\
  _items_to_trigger it' = _items_to_trigger it /\
  __logics_to_trigger it' = __logics_to_trigger it /\
  __methods_to_trigger it' = __methods_to_trigger it /\
  _threshold it' = _threshold it /\ __th_low it' = __th_low it /\
  __th_high it' = __th_high it /\ _cache it' = _cache it /\
  has_autotimer it' = has_autotimer it.
Proof. unfold static. intros E. injection E as <- <- <- <- <- <- <- <- <- <- <- <- <- <- <- <- <-. repeat split. Qed.

Lemma item_evolves_refl nn may it : item_evolves nn may it it.
Proof. repeat split; auto. Qed.

Lemma item_evolves_trans nn may it1 it2 it3 :
  item_evolves nn may it1 it2 -> item_evolves nn may it2 it3 ->
  item_evolves nn may it1 it3.
Proof.
  intros (E1 & F1 & N1) (E2 & F2 & N2). repeat split.
  - congruence.
  - destruct F1 as [?| ->]; [by left|]. destruct F2 as [?| ->]; auto.
  - auto.
Qed.

Lemma evolves_refl nn S w : evolves nn S w w.
Proof.
  split; [done|]. intros q. destruct (items w !! q); constructor.
  apply item_evolves_refl.
Qed.

Lemma evolves_trans nn S w1 w2 w3 :
  evolves nn S w1 w2 -> evolves nn S w2 w3 -> evolves nn S w1 w3.
Proof.
  intros [T1 H1] [T2 H2]. split; [congruence|]. intros q.
  specialize (H1 q). specialize (H2 q).
  destruct H1; inversion H2; subst; constructor.
  eapply item_evolves_trans; eauto.
Qed.

Lemma evolves_lookup nn S w w' q it :
  evolves nn S w w' -> items w !! q = Some it ->
  exists it', items w' !! q = Some it' /\ item_evolves nn (S q) it it'.
Proof.
  intros [_ Hq] Hit. specialize (Hq q). rewrite Hit in Hq.
  inversion Hq; subst. eauto.
Qed.

Lemma evolves_lookup_rev nn S w w' q it' :
  evolves nn S w w' -> items w' !! q = Some it' ->
  exists it, items w !! q = Some it /\ item_evolves nn (S q) it it'.
Proof.
  intros [_ Hq] Hit. specialize (Hq q). rewrite Hit in Hq.
  inversion Hq; subst. eauto.
Qed.


Lemma evolves_closed nn S S' w w' :
  evolves nn S' w w' -> closed w S -> closed w' S.
Proof.
  intros Hev Hcl q it' d HS Hit' Hd Hne.
  destruct (evolves_lookup_rev _ _ _ _ _ _ Hev Hit') as (it & Hit & E & _).
  apply static_fields in E as (_&_&_&_&_&Eu&_&Ec&_).
  eapply Hcl; eauto. unfold dests in *. by rewrite <- Eu, <- Ec.
Qed.

Lemma dests_in_evolves nn S S' w w' p :
  evolves nn S' w w' -> dests_in w p S -> dests_in w' p S.
Proof.
  intros Hev Hds it' d Hit' Hd Hne.
  destruct (evolves_lookup_rev _ _ _ _ _ _ Hev Hit') as (it & Hit & E & _).
  apply static_fields in E as (_&_&_&_&_&Eu&_&Ec&_).
  eapply Hds; eauto. unfold dests in *. by rewrite <- Eu, <- Ec.
Qed.

Lemma evolves_weaken nn (S S' : string -> Prop) w w' :
  (forall q, S q -> S' q) -> evolves nn S w w' -> evolves nn S' w w'.
Proof.
  intros HSS [T Hq]. split; [done|]. intros q. specialize (Hq q).
  destruct Hq as [it it' (E & F & N)|]; constructor.
  repeat split; auto. destruct F; auto.
Qed.

(** Replacing the item under [p] by a later state of it. *)
Lemma evolves_insert nn (S : string -> Prop) w p it it' :
  items w !! p = Some it -> item_evolves nn (S p) it it' ->
  evolves nn S w {| items := <[p := it']> (items w); now := now w |}.
Proof.
  intros Hit Hev. split; [done|]. intros q. cbn [items].
  destruct (decide (p = q)) as [<-|Hne].
  - rewrite lookup_insert_eq, Hit. by constructor.
  - rewrite lookup_insert_ne by done.
    destruct (items w !! q); constructor. apply item_evolves_refl.
Qed.

(** An attribute assignment on the item under [p]. *)
Lemma evolves_assign nn (S : string -> Prop) w p f :
  (forall it, items w !! p = Some it -> item_evolves nn (S p) it (f it)) ->
  evolves nn S w (assign p f w).
Proof.
  intros Hf. split; [done|]. intros q. unfold assign. cbn [items].
  destruct (decide (p = q)) as [<-|Hne].
  - rewrite lookup_alter_eq. destruct (items w !! p); constructor. by apply Hf.
  - rewrite lookup_alter_ne by done.
    destruct (items w !! q); constructor. apply item_evolves_refl.
Qed.

Lemma ends_in_mono (P Q : world -> Prop) o :
  (forall w, P w -> Q w) -> ends_in P o -> ends_in Q o.
Proof. destruct o; simpl; auto. Qed.

Lemma ends_in_emit P t o : ends_in P o -> ends_in P (emit t o).
Proof. by destruct o. Qed.

Lemma ends_in_andthen (P : world -> Prop) o k :
  ends_in P o -> (forall w, P w -> ends_in P (k w)) -> ends_in P (andthen o k).
Proof.
  destruct o as [w t|e w t|]; simpl; auto.
  intros HP Hk. apply ends_in_emit, Hk, HP.
Qed.

Lemma ends_in_with_item (P : world -> Prop) p w k :
  P w -> (forall it, items w !! p = Some it -> ends_in P (k it)) ->
  ends_in P (with_item p w k).
Proof. unfold with_item. destruct (items w !! p); simpl; auto. Qed.

Section Evolution.
Context `{Runtime}.

Lemma cast_not_none t v v' :
  cast t v = Ok v' -> is_none v = false -> is_none v' = false.
Proof.
  destruct t; cbn [cast].
  - unfold _cast_num. intros E _. revert E.
    repeat (case_match; try discriminate); intros [= <-]; done.
  - unfold _cast_str. destruct v; intros [= <-]; done.
  - unfold _cast_bool. intros E _. revert E.
    repeat (case_match; try discriminate); intros [= <-]; done.
  - unfold _cast_list. intros E _. revert E.
    repeat (case_match; try discriminate); intros [= <-]; done.
  - unfold _cast_dict. intros E _. revert E.
    repeat (case_match; try discriminate); intros [= <-]; done.
  - unfold _cast_foo. by intros [= <-].
  - unfold _cast_scene. intros E _. revert E.
    repeat (case_match; try discriminate); intros [= <-]; done.
Qed.

(** The locked section leaves the static part alone and writes the cast
    value or nothing. *)
Lemma locked_section_spec it v c s d tn :
  let '(it', ch, _) := locked_section it v c s d tn in
  static it' = static it /\
  ch = py_ne v (_value it) /\
  _value it' = (if ch then v else _value it) /\
  _fading it' =
    (if ch && negb (String.eqb c "fader") then false else _fading it) /\
  __th_crossed it' = __th_crossed it /\
  _autotimer it' = _autotimer it.
Proof.
  unfold locked_section.
  change (_value (set__updated_by (fmt_by c s) it)) with (_value it).
  destruct (py_ne v (_value it)); [|done].
  by destruct (String.eqb c "fader").
Qed.

Lemma locked_section_evolves nn (may : Prop) it v c s d tn :
  may -> (nn = true -> is_none v = false) ->
  item_evolves nn may it (locked_section it v c s d tn).1.1.
Proof.
  intros Hmay Hv. pose proof (locked_section_spec it v c s d tn) as Hs.
  destruct (locked_section it v c s d tn) as [[it' ch] evs].
  destruct Hs as (E & _ & Ev & _). repeat split; auto. cbn [fst].
  rewrite Ev. intros Hnn. destruct ch; [|done]. rewrite Hv; done.
Qed.

Section Nested.
Variable nn : bool.
Variable S : string -> Prop.
Variable rec : world -> string -> value -> string -> option string ->
               option string -> outcome.
Hypothesis Hrec : rec_ok nn S rec.

Lemma run_on_xxx_evolves w path v on_dest on_eval attr :
  closed w S -> (on_dest <> "" -> S on_dest) ->
  ends_in (evolves nn S w) (_run_on_xxx rec w path v on_dest on_eval attr).
Proof.
  intros Hcl Hd. unfold _run_on_xxx. apply ends_in_emit. unfold eval_rule.
  destruct (Eval w path v on_eval) as [|dv]; [apply evolves_refl|].
  destruct (is_none dv) eqn:Hdv; cbn [negb]; [apply evolves_refl|].
  destruct (String.eqb_spec on_dest "") as [->|Hne]; cbn [negb].
  - destruct (Eval w path v on_eval); apply evolves_refl.
  - destruct (items w !! on_dest); [|apply evolves_refl].
    pose proof (Hrec w on_dest dv attr (Some path) None Hcl (Hd Hne) Hdv).
    by destruct (rec w on_dest dv attr (Some path) None).
Qed.

Lemma run_rules_evolves w path v rules attr :
  closed w S -> (forall d e, In (d, e) rules -> d <> "" -> S d) ->
  ends_in (evolves nn S w) (run_rules rec w path v rules attr).
Proof.
  revert w. induction rules as [|[d e] rules IH]; intros w Hcl Hds;
    cbn [run_rules]; [apply evolves_refl|].
  apply ends_in_andthen.
  - eapply ends_in_mono; [|apply run_on_xxx_evolves]; eauto.
    intros Hne. eapply Hds; [left; reflexivity | done].
  - intros w1 H1. eapply ends_in_mono; [intros w2; apply evolves_trans, H1|].
    apply IH; [by eapply evolves_closed|].
    intros; eapply Hds; [right|]; eauto.
Qed.

Lemma run_on_update_evolves w p v :
  closed w S -> dests_in w p S ->
  ends_in (evolves nn S w) (__run_on_update rec w p v).
Proof.
  intros Hcl Hds. unfold __run_on_update.
  apply ends_in_with_item; [apply evolves_refl|]. intros it Hit.
  apply run_rules_evolves; [done|]. intros d e Hin Hne.
  eapply Hds; eauto. unfold dests. apply in_or_app. left.
  eapply in_combine_l; eauto.
Qed.

Lemma run_on_change_evolves w p v :
  closed w S -> dests_in w p S ->
  ends_in (evolves nn S w) (__run_on_change rec w p v).
Proof.
  intros Hcl Hds. unfold __run_on_change.
  apply ends_in_with_item; [apply evolves_refl|]. intros it Hit.
  apply run_rules_evolves; [done|]. intros d e Hin Hne.
  eapply Hds; eauto. unfold dests. apply in_or_app. right.
  eapply in_combine_l; eauto.
Qed.

Lemma notify_logics_evolves w p :
  S p -> ends_in (evolves nn S w) (notify_logics w p).
Proof.
  intros Hp. unfold notify_logics.
  apply ends_in_with_item; [apply evolves_refl|]. intros it Hit.
  assert (Hset : forall b, evolves nn S w (assign p (set__th_crossed b) w)).
  { intros b. apply evolves_assign. intros it0 _. repeat split; auto. }
  repeat case_match; simpl; try apply evolves_refl;
    apply ends_in_with_item; try done; intros; simpl; done.
Qed.

Lemma change_path_evolves w p v c s d :
  closed w S -> S p ->
  ends_in (evolves nn S w) (change_path rec w p v c s d).
Proof.
  intros Hcl Hp. unfold change_path.
  set (w1 := assign p (fun it => set__prev_update (__last_update it) it) w).
  set (w2 := assign p (set__last_update (now w1)) w1).
  assert (H2 : evolves nn S w w2).
  { eapply evolves_trans; apply evolves_assign; intros it0 _;
      repeat split; auto. }
  assert (Hds : forall w', evolves nn S w w' -> dests_in w' p S).
  { intros w' Hev it0 d0 Hit0 Hd Hne.
    eapply (evolves_closed _ _ _ _ _ Hev Hcl); eauto. }
  apply ends_in_andthen.
  { eapply ends_in_mono; [intros w'; apply evolves_trans, H2|].
    apply run_on_change_evolves; [by eapply evolves_closed | by apply Hds]. }
  intros w3 H3. apply ends_in_andthen.
  { apply ends_in_with_item; [done|]. intros; done. }
  intros w4 H4. apply ends_in_andthen.
  { eapply ends_in_mono; [intros w'; apply evolves_trans, H4|].
    by apply notify_logics_evolves. }
  intros w5 H5. apply ends_in_with_item; [done|]. intros; done.
Qed.

Lemma rearm_autotimer_evolves w p it a :
  S p -> items w !! p = Some it -> _autotimer it = Some a ->
  ends_in (evolves nn S w) (rearm_autotimer w p it a).
Proof.
  intros Hp Hit Ha. unfold rearm_autotimer.
  repeat case_match; simpl; apply evolves_assign;
    intros it0 Hit0; assert (it0 = it) as -> by congruence;
    (repeat split; auto); unfold static, has_autotimer; cbn; by rewrite Ha.
Qed.

(** One update on an item of [S] stays within [S]. *)
Lemma update_body_evolves w p v c s d :
  closed w S -> S p -> (nn = true -> is_none v = false) ->
  ends_in (evolves nn S w) (update_body rec w p v c s d).
Proof.
  intros Hcl Hp Hv. unfold update_body.
  apply ends_in_with_item; [apply evolves_refl|]. intros it Hit.
  destruct (cast (_type it) v) as [v'|] eqn:Hcast; [|apply evolves_refl].
  pose proof (locked_section_evolves nn (S p) it v' c s d (now w) Hp) as Hl.
  destruct (locked_section it v' c s d (now w)) as [[it' ch] evs].
  cbn [fst] in Hl.
  set (w1 := {| items := <[p:=it']> (items w); now := now w |}).
  assert (H1 : evolves nn S w w1).
  { apply evolves_insert with it; [done|]. apply Hl. intros Hnn.
    eapply cast_not_none; eauto. }
  assert (Hds : forall w', evolves nn S w w' -> dests_in w' p S).
  { intros w' Hev it0 d0 Hit0 Hd Hne.
    eapply (evolves_closed _ _ _ _ _ Hev Hcl); eauto. }
  apply ends_in_emit, ends_in_andthen.
  { eapply ends_in_mono; [intros w'; apply evolves_trans, H1|].
    apply run_on_update_evolves; [by eapply evolves_closed | by apply Hds]. }
  intros w2 H2. apply ends_in_andthen.
  { apply ends_in_with_item; [done|]. intros it2 Hit2.
    case_match; [|done].
    eapply ends_in_mono; [intros w'; apply evolves_trans, H2|].
    apply change_path_evolves; [by eapply evolves_closed | done]. }
  intros w3 H3. apply ends_in_andthen.
  { apply ends_in_with_item; [done|]. intros it3 Hit3.
    repeat case_match; done. }
  intros w4 H4. apply ends_in_with_item; [done|]. intros it4 Hit4.
  repeat case_match; try done.
  eapply ends_in_mono; [intros w'; apply evolves_trans, H4|].
  by apply rearm_autotimer_evolves.
Qed.

End Nested.

(** Updates, however deeply nested, stay within a closed set of items and
    never turn a value into [None]. *)
Lemma update_rec_ok nn S n : rec_ok nn S (__update n).
Proof.
  induction n as [|n IH]; intros w q v c s d Hcl Hq Hv; cbn [__update];
    [done|].
  apply update_body_evolves; auto.
Qed.

Lemma update_evolves nn S n w p v c s d :
  closed w S -> S p -> (nn = true -> is_none v = false) ->
  ends_in (evolves nn S w) (__update n w p v c s d).
Proof.
  intros Hcl Hp Hv. destruct n as [|n]; cbn [__update]; [done|].
  apply update_body_evolves; auto. apply update_rec_ok.
Qed.

End Evolution.

(** ** Reading an outcome *)

Lemma emit_Done_inv t0 o w t :
  emit t0 o = Done w t -> exists t', o = Done w t' /\ t = (t0 ++ t')%list.
Proof. destruct o; simpl; intros [= <- <-] || discriminate; eauto. Qed.

Lemma andthen_Done_inv o k w t :
  andthen o k = Done w t ->
  exists w1 t1 t2, o = Done w1 t1 /\ k w1 = Done w t2 /\ t = (t1 ++ t2)%list.
Proof.
  destruct o as [w1 t1| |]; simpl; try discriminate.
  intros (t2 & ? & ->)%emit_Done_inv. eauto 6.
Qed.

Lemma with_item_Done_inv p w k w' t :
  with_item p w k = Done w' t ->
  exists it, items w !! p = Some it /\ k it = Done w' t.
Proof. unfold with_item. destruct (items w !! p); [eauto | discriminate]. Qed.

Lemma quiet_app t1 t2 : quiet t1 -> quiet t2 -> quiet (t1 ++ t2).
Proof.
  unfold quiet, methods_called, logics_fired, dispatched, cache_writes, timers.
  rewrite !omap_app. intros (-> & -> & -> & -> & ->) (-> & -> & -> & -> & ->).
  done.
Qed.

Section RuleTraces.
Context `{Runtime}.
Variable rec : world -> string -> value -> string -> option string ->
               option string -> outcome.

Lemma run_on_xxx_trace w path v on_dest on_eval attr w' t a :
  _run_on_xxx rec w path v on_dest on_eval attr = Done w' t ->
  rule_evals a t = (if String.eqb attr a then [(on_dest, on_eval)] else [])
  /\ quiet t.
Proof.
  unfold _run_on_xxx. intros (t' & Hb & ->)%emit_Done_inv.
  assert (rule_evals a t' =
            (if String.eqb attr a then [(on_dest, on_eval)] else [])
          /\ quiet t') as [E Q].
  { revert Hb. unfold eval_rule, quiet, rule_evals.
    repeat case_match; try discriminate; intros [= <- <-]; cbn;
      destruct (String.eqb attr a); done. }
  destruct (String.eqb path "wohnung.flur.szenen_helper"); [|done].
  split; [exact E|]. by apply (quiet_app [_]).
Qed.

Lemma run_rules_trace w path v rules attr w' t a :
  run_rules rec w path v rules attr = Done w' t ->
  rule_evals a t = (if String.eqb attr a then rules else []) /\ quiet t.
Proof.
  revert w t. induction rules as [|[d e] rules IH]; intros w t;
    cbn [run_rules].
  - intros [= <- <-]. by destruct (String.eqb attr a).
  - intros (w1 & t1 & t2 & H1 & H2 & ->)%andthen_Done_inv.
    apply (run_on_xxx_trace _ _ _ _ _ _ _ _ a) in H1 as [E1 Q1].
    apply IH in H2 as [E2 Q2]. split; [|by apply quiet_app].
    unfold rule_evals in *. rewrite omap_app, E1, E2.
    by destruct (String.eqb attr a).
Qed.

End RuleTraces.

Lemma quiet_nil : quiet [].
Proof. by repeat split. Qed.

Lemma logics_fired_trigger it :
  logics_fired (__trigger_logics it) = __logics_to_trigger it.
Proof.
  unfold __trigger_logics, logics_fired.
  induction (__logics_to_trigger it) as [|l ls IH]; cbn; [done | by rewrite IH].
Qed.

Lemma trigger_logics_others it :
  (forall a, rule_evals a (__trigger_logics it) = []) /\
  methods_called (__trigger_logics it) = [] /\
  dispatched (__trigger_logics it) = [] /\
  cache_writes (__trigger_logics it) = [] /\
  timers (__trigger_logics it) = [].
Proof.
  unfold __trigger_logics.
  induction (__logics_to_trigger it) as [|l ls IH]; cbn; [done|].
  destruct IH as (?&?&?&?&?). done.
Qed.

(** What the threshold / logic part does: without a threshold every
    subscribed logic is triggered; with one, the logics are triggered and the
    crossed flag is flipped exactly when the threshold test succeeds. *)
Lemma notify_logics_Done w p it w' t :
  items w !! p = Some it -> notify_logics w p = Done w' t ->
  let gated := _threshold it && negb (is_empty (__logics_to_trigger it)) in
  logics_fired t =
    (if gated && negb (crossing it) then [] else __logics_to_trigger it) /\
  w' = (if gated && crossing it
        then assign p (set__th_crossed (negb (__th_crossed it))) w else w) /\
  (forall a, rule_evals a t = []) /\ methods_called t = [] /\
  dispatched t = [] /\ cache_writes t = [] /\ timers t = [].
Proof.
  intros Hit. unfold notify_logics, with_item, crossing. rewrite Hit.
  assert (Hl : forall b, items (assign p (set__th_crossed b) w) !! p
                         = Some (set__th_crossed b it)).
  { intros b. unfold assign. cbn [items]. by rewrite lookup_alter_eq, Hit. }
  destruct (_threshold it && negb (is_empty (__logics_to_trigger it))) eqn:Hg;
    cbn [andb].
  - destruct (__th_crossed it) eqn:Hc.
    + destruct (py_le_float (_value it) (__th_low it)) as [[|]|]; try discriminate.
      * rewrite Hl. intros [= <- <-]. cbn [negb].
        pose proof (trigger_logics_others (set__th_crossed false it)) as (?&?&?&?&?).
        by rewrite logics_fired_trigger.
      * intros [= <- <-]. done.
    + destruct (py_ge_float (_value it) (__th_high it)) as [[|]|]; try discriminate.
      * rewrite Hl. intros [= <- <-]. cbn [negb].
        pose proof (trigger_logics_others (set__th_crossed true it)) as (?&?&?&?&?).
        by rewrite logics_fired_trigger.
      * intros [= <- <-]. done.
  - destruct (is_empty (__logics_to_trigger it)) eqn:He; cbn [negb].
    + intros [= <- <-]. destruct (__logics_to_trigger it); done.
    + intros [= <- <-]. pose proof (trigger_logics_others it) as (?&?&?&?&?).
      by rewrite logics_fired_trigger.
Qed.

Lemma methods_called_map p c sr d (ms : list string) :
  methods_called (map (fun m => EvMethod p m c sr d) ms) = ms /\
  (forall a, rule_evals a (map (fun m => EvMethod p m c sr d) ms) = []) /\
  logics_fired (map (fun m => EvMethod p m c sr d) ms) = [] /\
  dispatched (map (fun m => EvMethod p m c sr d) ms) = [] /\
  cache_writes (map (fun m => EvMethod p m c sr d) ms) = [] /\
  timers (map (fun m => EvMethod p m c sr d) ms) = [].
Proof.
  induction ms as [|m ms (IH & ? & ? & ? & ? & ?)]; cbn; [done|].
  repeat split; try done. by f_equal.
Qed.

Lemma dispatched_map (args : string -> list (string * value)) c sr d
    (l : list string) :
  dispatched (map (fun i => EvTrigger i i (args i) c sr d) l) = l /\
  (forall a, rule_evals a (map (fun i => EvTrigger i i (args i) c sr d) l) = []) /\
  logics_fired (map (fun i => EvTrigger i i (args i) c sr d) l) = [] /\
  methods_called (map (fun i => EvTrigger i i (args i) c sr d) l) = [] /\
  cache_writes (map (fun i => EvTrigger i i (args i) c sr d) l) = [] /\
  timers (map (fun i => EvTrigger i i (args i) c sr d) l) = [].
Proof.
  induction l as [|m ms (IH & ? & ? & ? & ? & ?)]; cbn; [done|].
  repeat split; try done. by f_equal.
Qed.

Lemma lookup_assign p f w :
  items (assign p f w) !! p = f <$> items w !! p.
Proof. unfold assign. cbn [items]. apply lookup_alter_eq. Qed.

Lemma lookup_assign_ne p q f w :
  p <> q -> items (assign p f w) !! q = items w !! q.
Proof. intros. unfold assign. cbn [items]. by apply lookup_alter_ne. Qed.

Section Shape.
Context `{Runtime}.
Variable S : string -> Prop.
Variable rec : world -> string -> value -> string -> option string ->
               option string -> outcome.
Hypothesis Hrec : rec_ok false S rec.

Let Sp (p : string) : string -> Prop := fun q => S q \/ q = p.

Lemma assign_evolves_Sp w p f :
  (forall it, static (f it) = static it) ->
  evolves false (Sp p) w (assign p f w).
Proof.
  intros Hf. apply evolves_assign. intros it _. split; [apply Hf|].
  split; [left; by right | discriminate].
Qed.

(** The change path of the item at [p], when it returns: [itg] is the
    state of the item when the subscribers are notified. *)
Lemma change_path_Done w p v c s d w' t it :
  closed w S -> dests_in w p S -> items w !! p = Some it ->
  change_path rec w p v c s d = Done w' t ->
  exists itg,
    static itg = static it /\
    (S p \/ itg = stamp_update (now w) it) /\
    items w' !! p =
      Some (if gated itg && crossing itg
            then set__th_crossed (negb (__th_crossed itg)) itg else itg) /\
    evolves false (Sp p) w w' /\
    rule_evals "on_change" t
      = combine (_on_change_dest_var it) (_on_change it) /\
    rule_evals "on_update" t = [] /\
    methods_called t = __methods_to_trigger it /\
    logics_fired t =
      (if gated itg && negb (crossing itg) then []
       else __logics_to_trigger it) /\
    dispatched t = _items_to_trigger it /\
    cache_writes t = [] /\ timers t = [].
Proof.
  intros Hcl Hds Hit. unfold change_path.
  set (w1 := assign p (fun it => set__prev_update (__last_update it) it) w).
  set (wa := assign p (set__last_update (now w1)) w1).
  assert (Hita : items wa !! p = Some (stamp_update (now w) it)).
  { unfold wa, w1. by rewrite !lookup_assign, Hit. }
  assert (Hwa : evolves false (Sp p) w wa).
  { eapply evolves_trans; by apply assign_evolves_Sp. }
  intros (wb & t_r & t2 & Hr & H2 & ->)%andthen_Done_inv.
  apply andthen_Done_inv in H2 as (wb' & t_m & t3 & Hm & H3 & ->).
  apply andthen_Done_inv in H3 as (wc & t_l & t4 & Hl & H4 & ->).
  (* the rules *)
  pose proof (run_on_change_evolves false S rec Hrec wa p v) as Hev.
  rewrite Hr in Hev. cbn [ends_in] in Hev.
  specialize (Hev (evolves_closed _ _ _ _ _ Hwa Hcl)
                  (dests_in_evolves _ _ _ _ _ _ Hwa Hds)).
  destruct (evolves_lookup _ _ _ _ _ _ Hev Hita) as (itg & Hitg & Eg & Fg & _).
  unfold __run_on_change, with_item in Hr. rewrite Hita in Hr.
  pose proof (run_rules_trace _ _ _ _ _ _ _ _ "on_change" Hr) as [Rc Qc].
  pose proof (run_rules_trace _ _ _ _ _ _ _ _ "on_update" Hr) as [Ru _].
  cbn [String.eqb Ascii.eqb Bool.eqb] in Rc, Ru.
  (* the methods *)
  unfold with_item in Hm. rewrite Hitg in Hm. injection Hm as <- <-.
  pose proof (methods_called_map (_path itg) c s d (__methods_to_trigger itg))
    as (Mm & Mr & Ml & Md & Mc & Mt).
  (* the logics *)
  pose proof (notify_logics_Done _ _ _ _ _ Hitg Hl) as (Ll & Lw & Lr & Lm & Ld & Lc & Lt).
  fold (gated itg) in Ll, Lw.
  (* the dependents *)
  assert (Hitc : items wc !! p =
            Some (if gated itg && crossing itg
                  then set__th_crossed (negb (__th_crossed itg)) itg else itg)).
  { rewrite Lw. destruct (gated itg && crossing itg); [|done].
    by rewrite lookup_assign, Hitg. }
  unfold with_item in H4. rewrite Hitc in H4. injection H4 as <- <-.
  set (itc := if gated itg && crossing itg
              then set__th_crossed (negb (__th_crossed itg)) itg else itg) in *.
  assert (Ec : static itc = static itg).
  { unfold itc. by destruct (gated itg && crossing itg). }
  pose proof (dispatched_map
                (fun _ => [("value", v); ("source", VStr (_path itc))])
                c s d (_items_to_trigger itc)) as (Dd & Dr & Dl & Dm & Dc & Dt).
  assert (Es : static itg = static it).
  { rewrite Eg. reflexivity. }
  pose proof (static_fields _ _ Es) as (_&_&_&_&_&_&E7&E8&_&E10&E11&E12&_).
  pose proof (static_fields _ _ Ec) as (_&_&_&_&_&_&_&_&_&F10&_).
  destruct Qc as (Qm & Ql & Qd & Qc & Qt).
  exists itg. split; [done|]. split.
  { destruct Fg as [?| ->]; auto. }
  split; [done|]. split.
  { eapply evolves_trans; [exact Hwa|].
    eapply evolves_trans; [eapply evolves_weaken, Hev; by left|].
    rewrite Lw. destruct (gated itg && crossing itg); [|apply evolves_refl].
    by apply assign_evolves_Sp. }
  unfold rule_evals, methods_called, logics_fired, dispatched, cache_writes,
    timers in *.
  rewrite !omap_app.
  rewrite Rc, Ru, Qm, Ql, Qd, Qc, Qt, Mm, !Mr, Ml, Md, Mc, Mt, Ll, !Lr, Lm, Ld,
    Lc, Lt, Dd, !Dr, Dl, Dm, Dc, Dt.
  rewrite !app_nil_r. cbn [stamp_update] in *.
  rewrite E12, E11, F10, E10. repeat split; try done.
Qed.

Lemma castvalue_logs it v compat r l :
  _castvalue_to_itemtype it v compat = (r, l) ->
  l = [] \/ exists lv m, l = [EvLog lv m].
Proof.
  unfold _castvalue_to_itemtype.
  repeat case_match; intros [= <- <-]; eauto.
Qed.

(** Re-arming the autotimer, when it returns: one timer with the caller
    tag ['Autotimer'], and the resolved pair stored back. *)
Lemma rearm_autotimer_Done w p it a w' t :
  rearm_autotimer w p it a = Done w' t ->
  (exists a', w' = assign p (set_autotimer (Some a')) w) /\
  (exists x, timers t = [(x, "Autotimer")]) /\
  (forall k, rule_evals k t = []) /\ methods_called t = [] /\
  logics_fired t = [] /\ dispatched t = [] /\ cache_writes t = [].
Proof.
  unfold rearm_autotimer.
  destruct (match truthy_path (at_timeitem a) with
            | Some ti => match read_item w ti with
                         | Some v => (v, [])
                         | None => (at_time a, [_])
                         end
            | None => (at_time a, [])
            end) as [tm log1] eqn:E1.
  assert (L1 : log1 = [] \/ exists lv m, log1 = [EvLog lv m]).
  { revert E1. repeat case_match; intros [= <- <-]; eauto. }
  destruct (match truthy_path (at_valueitem a) with
            | Some vi => _
            | None => (at_value a, [])
            end) as [vl log2] eqn:E2.
  assert (L2 : log2 = [] \/ (exists lv m, log2 = [EvLog lv m])
               \/ (exists lv m lv' m', log2 = [EvLog lv m; EvLog lv' m'])).
  { revert E2. repeat case_match; intros [= <- <-]; eauto 8.
    all: match goal with
         | E : _castvalue_to_itemtype _ _ _ = _ |- _ =>
             apply castvalue_logs in E as [->|(?&?&->)]
         end; cbn; eauto 10. }
  destruct (timedelta_seconds tm); [|discriminate].
  intros [= <- <-]. split; [eauto|].
  destruct L1 as [->|(?&?&->)];
    destruct L2 as [->|[(?&?&->)|(?&?&?&?&->)]]; cbn; eauto 10.
Qed.

Lemma locked_section_events it v c s d tn :
  let evs := (locked_section it v c s d tn).2 in
  (forall k, rule_evals k evs = []) /\ methods_called evs = [] /\
  logics_fired evs = [] /\ dispatched evs = [] /\ cache_writes evs = [] /\
  timers evs = [].
Proof.
  unfold locked_section. repeat case_match; cbn; done.
Qed.

(** One update of the item at [p], when it returns.  [itg] is the state
    of the item once the rules and, on the change path, the timestamps
    and the [on_change] rules and method subscribers are through: the
    state the threshold test, the cache write and the autotimer look at. *)
Lemma update_body_Done w p v c s d w' t it v' :
  closed w S -> dests_in w p S ->
  items w !! p = Some it -> cast (_type it) v = Ok v' ->
  update_body rec w p v c s d = Done w' t ->
  let it1 := (locked_section it v' c s d (now w)).1.1 in
  let ch := py_ne v' (_value it) in
  let g := ch || _enforce_updates it || is_scene it in
  exists itg it',
    items w' !! p = Some it' /\
    static it' = static it /\ static itg = static it /\
    (S p \/ itg = if g then stamp_update (now w) it1 else it1) /\
    _value it' = _value itg /\ _fading it' = _fading itg /\
    __th_crossed it' =
      xorb (__th_crossed itg) (g && gated itg && crossing itg) /\
    evolves false (Sp p) w w' /\
    rule_evals "on_update" t
      = combine (_on_update_dest_var it) (_on_update it) /\
    rule_evals "on_change" t
      = (if g then combine (_on_change_dest_var it) (_on_change it) else []) /\
    methods_called t = (if g then __methods_to_trigger it else []) /\
    logics_fired t =
      (if g && negb (gated itg && negb (crossing itg))
       then __logics_to_trigger it else []) /\
    dispatched t = (if g then _items_to_trigger it else []) /\
    cache_writes t =
      match _cache it with
      | Some f => if ch && negb (_fading it') then [(f, _value it')] else []
      | None => []
      end /\
    exists x,
      timers t =
        if has_autotimer it && negb (String.eqb c "Autotimer")
           && negb (_fading it')
        then [(x, "Autotimer")] else [].
Proof.
  intros Hcl Hds Hit Hcast. unfold update_body, with_item at 1.
  rewrite Hit, Hcast.
  pose proof (locked_section_spec it v' c s d (now w)) as Hls.
  pose proof (locked_section_events it v' c s d (now w)) as Hle.
  destruct (locked_section it v' c s d (now w)) as [[it1 ch] evs].
  destruct Hls as (E1 & -> & Hv1 & Hf1 & Hc1 & Ha1). cbn [fst snd] in *.
  set (w1 := {| items := <[p:=it1]> (items w); now := now w |}).
  assert (Hit1 : items w1 !! p = Some it1) by apply lookup_insert_eq.
  assert (H01 : evolves false (Sp p) w w1).
  { apply evolves_insert with it; [done|]. split; [done|].
    split; [left; by right | discriminate]. }
  intros (t0 & H0 & ->)%emit_Done_inv.
  apply andthen_Done_inv in H0 as (w2 & t_u & t1 & Hu & H1 & ->).
  apply andthen_Done_inv in H1 as (w3 & t_c & t2 & Hc & H2 & ->).
  apply andthen_Done_inv in H2 as (w4 & t_k & t_a & Hk & Ha & ->).
  (* the on_update rules *)
  pose proof (run_on_update_evolves false S rec Hrec w1 p v'
                (evolves_closed _ _ _ _ _ H01 Hcl)
                (dests_in_evolves _ _ _ _ _ _ H01 Hds)) as H12.
  rewrite Hu in H12. cbn [ends_in] in H12.
  destruct (evolves_lookup _ _ _ _ _ _ H12 Hit1) as (it2 & Hit2 & E2 & F2 & _).
  unfold __run_on_update, with_item in Hu. rewrite Hit1 in Hu.
  pose proof (run_rules_trace _ _ _ _ _ _ _ _ "on_update" Hu) as [Uu Uq].
  pose proof (run_rules_trace _ _ _ _ _ _ _ _ "on_change" Hu) as [Uc _].
  cbn [String.eqb Ascii.eqb Bool.eqb] in Uu, Uc.
  assert (H02 : evolves false (Sp p) w w2).
  { eapply evolves_trans; [exact H01|]. eapply evolves_weaken, H12. by left. }
  assert (Es2 : static it2 = static it) by congruence.
  pose proof (static_fields _ _ Es2)
    as (_&Ety&_&Een&_&_&_&_&_&_&_&_&_&_&_&Eca&Eau).
  pose proof (static_fields _ _ E1) as (_&_&_&_&Eou&Eoud&_).
  (* the change path *)
  unfold with_item in Hc. rewrite Hit2 in Hc.
  unfold is_scene. rewrite <- Een, <- Ety.
  set (g := py_ne v' (_value it) || _enforce_updates it2
            || String.eqb (type_name (_type it2)) "scene") in *.
  assert (exists itg it3,
    items w3 !! p = Some it3 /\ static itg = static it /\
    (S p \/ itg = if g then stamp_update (now w) it1 else it1) /\
    it3 = (if g && gated itg && crossing itg
           then set__th_crossed (negb (__th_crossed itg)) itg else itg) /\
    evolves false (Sp p) w w3 /\
    rule_evals "on_change" t_c
      = (if g then combine (_on_change_dest_var it) (_on_change it) else []) /\
    rule_evals "on_update" t_c = [] /\
    methods_called t_c = (if g then __methods_to_trigger it else []) /\
    logics_fired t_c =
      (if g && negb (gated itg && negb (crossing itg))
       then __logics_to_trigger it else []) /\
    dispatched t_c = (if g then _items_to_trigger it else []) /\
    cache_writes t_c = [] /\ timers t_c = [])
    as (itg & it3 & Hit3 & Eg & Fg & Hi3 & H03 & Cc & Cu & Cm & Cl & Cd & Ck & Ct).
  { destruct g eqn:Hg.
    - pose proof (change_path_Done w2 p v' c s d w3 t_c it2
                    (evolves_closed _ _ _ _ _ H02 Hcl)
                    (dests_in_evolves _ _ _ _ _ _ H02 Hds) Hit2 Hc)
        as (itg & Eg & Fg & Hit3 & H23 & Cc & Cu & Cm & Cl & Cd & Ck & Ct).
      pose proof (static_fields _ _ Es2)
        as (_&_&_&_&_&_&E7&E8&_&E10&E11&E12&_).
      exists itg, (if gated itg && crossing itg
                   then set__th_crossed (negb (__th_crossed itg)) itg
                   else itg).
      cbn [andb]. rewrite Cc, Cm, Cl, Cd, E7, E8, E10, E11, E12.
      split_and!; try done; try congruence.
      + destruct Fg as [?| ->]; [by left|]. destruct F2 as [?| ->]; [by left|].
        right. destruct H12 as [-> _]. done.
      + by eapply evolves_trans.
      + by destruct (gated itg && negb (crossing itg)).
    - injection Hc as <- <-. exists it2, it2. cbn [andb].
      split_and!; done. }
  (* the cache *)
  destruct (evolves_lookup _ _ _ _ _ _ H03 Hit) as (it3' & Hit3' & E3 & _).
  assert (it3' = it3) as -> by congruence.
  pose proof (static_fields _ _ E3) as (_&_&_&_&_&_&_&_&_&_&_&_&_&_&_&Eca3&Eau3).
  unfold with_item in Hk. rewrite Hit3 in Hk.
  assert (w4 = w3 /\
          t_k = match _cache it with
                | Some f => if py_ne v' (_value it) && negb (_fading it3)
                            then [EvCacheWrite f (_value it3)] else []
                | None => []
                end) as [-> ->].
  { rewrite <- Eca3. destruct (_cache it3); [|by injection Hk as <- <-].
    by destruct (py_ne v' (_value it) && negb (_fading it3));
      injection Hk as <- <-. }
  (* the autotimer *)
  unfold with_item in Ha. rewrite Hit3 in Ha.
  assert (exists it',
    items w' !! p = Some it' /\ static it' = static it3 /\
    _value it' = _value it3 /\ _fading it' = _fading it3 /\
    __th_crossed it' = __th_crossed it3 /\
    evolves false (Sp p) w3 w' /\
    (forall k, rule_evals k t_a = []) /\ methods_called t_a = [] /\
    logics_fired t_a = [] /\ dispatched t_a = [] /\ cache_writes t_a = [] /\
    exists x, timers t_a =
      if has_autotimer it && negb (String.eqb c "Autotimer")
         && negb (_fading it3)
      then [(x, "Autotimer")] else [])
    as (it' & Hit' & E' & Ev' & Ef' & Ec' & H3' & Ar & Am & Al & Ad & Ak & x & At).
  { rewrite <- Eau3. unfold has_autotimer.
    destruct (_autotimer it3) as [a|] eqn:Hau.
    - cbn [andb].
      destruct (negb (String.eqb c "Autotimer") && negb (_fading it3)).
      + apply rearm_autotimer_Done in Ha
          as ((a' & ->) & (x & At) & Ar & Am & Al & Ad & Ak).
        exists (set_autotimer (Some a') it3).
        rewrite lookup_assign, Hit3.
        split_and!; try done.
        * unfold static, has_autotimer. cbn. by rewrite Hau.
        * apply evolves_assign. intros it0 Hit0.
          assert (it0 = it3) as -> by congruence.
          split; [|split; [left; by right | discriminate]].
          unfold static, has_autotimer. cbn. by rewrite Hau.
        * eauto.
      + injection Ha as <- <-. exists it3.
        split_and!; try done; try apply evolves_refl; try by exists VNone.
    - injection Ha as <- <-. exists it3.
      split_and!; try done; try apply evolves_refl; try by exists VNone. }
  (* assembling *)
  destruct Hle as (Lr & Lm & Ll & Ld & Lk & Lt).
  destruct Uq as (Qm & Ql & Qd & Qk & Qt).
  assert (Hv3 : _value it3 = _value itg).
  { rewrite Hi3. by destruct (g && gated itg && crossing itg). }
  assert (Hf3 : _fading it3 = _fading itg).
  { rewrite Hi3. by destruct (g && gated itg && crossing itg). }
  assert (Hc3 : __th_crossed it3 =
                xorb (__th_crossed itg) (g && gated itg && crossing itg)).
  { rewrite Hi3. destruct (g && gated itg && crossing itg); cbn.
    - by destruct (__th_crossed itg).
    - by rewrite xorb_false_r. }
  exists itg, it'. rewrite Ev', Ef', Ec'.
  split; [done|]. split; [congruence|]. split; [done|]. split; [done|].
  split; [done|]. split; [done|]. split; [done|].
  split; [by eapply evolves_trans|].
  unfold rule_evals, methods_called, logics_fired, dispatched, cache_writes,
    timers in *.
  rewrite !omap_app, !Lr, Lm, Ll, Ld, Lk, Lt, Uu, Uc, Qm, Ql, Qd, Qk, Qt,
    Cc, Cu, Cm, Cl, Cd, Ck, Ct, !Ar, Am, Al, Ad, Ak, At.
  rewrite <- Eou, <- Eoud.
  destruct (_cache it);
    [destruct (py_ne v' (_value it) && negb (_fading it3))|];
    cbn [omap app list_omap]; rewrite ?app_nil_r;
    (split_and!; [done..|by exists x]).
Qed.

End Shape.

(** ** The update protocol *)

Section Protocol.
Context `{Runtime}.

Lemma closed_all w : closed w (fun _ => True).
Proof. by intros q it d. Qed.

Lemma dests_in_all w p : dests_in w p (fun _ => True).
Proof. by intros it d. Qed.

Lemma gated_static it it' : static it' = static it -> gated it' = gated it.
Proof.
  intros E. apply static_fields in E as (_&_&_&_&_&_&_&_&_&_&E11&_&E13&_).
  unfold gated. by rewrite E11, E13.
Qed.

Lemma forced_static it it' : static it' = static it -> forced it' = forced it.
Proof.
  intros E. apply static_fields in E as (_&E2&_&E4&_).
  unfold forced, is_scene. by rewrite E2, E4.
Qed.

(** C2 (amended): when the cast of the candidate value fails, the update
    returns normally; the registry is exactly as before (value, previous
    value, timestamps, provenance, fading and threshold state of every
    item) and the only effect is one warning in the log: no rule, no
    subscriber, no dispatch, no cache write, no timer. *)
Theorem update_cast_failure n w p it v c s d e :
  items w !! p = Some it ->
  cast (_type it) v = Raise e ->
  __update (S n) w p v c s d
    = Done w [EvLog WARNING
                "Item {}: value {} does not match type {}. Via {} {}"].
Proof.
  intros Hit Hcast. cbn [__update]. unfold update_body, with_item.
  by rewrite Hit, Hcast.
Qed.

End Protocol.

(** Refutes C2 as stated ("never raises"): an untyped item with a threshold
    and a subscribed logic receives a string; the threshold test compares
    the string with a float and the [TypeError] reaches the caller, after
    the value has been changed. *)
Lemma update_raises_counterexample :
  let w := world_of [("t", threshold_item "t" TFoo (VStr "x"))] in
  exists w' t it',
    @__update demo_runtime 1 w "t" (VStr "21.5") "Logic" None None
      = Raised TypeError w' t /\
    items w' !! "t" = Some it' /\ _value it' = VStr "21.5".
Proof. eexists _, _, _. split; [by vm_compute|]. split; by vm_compute. Qed.

Lemma update_cast_failure_witness :
  let w := world_of [("a", ruled_item "a" (VInt 0))] in
  @__update demo_runtime 1 w "a" (VStr "warm") "Logic" None None
    = Done w [EvLog WARNING
                "Item {}: value {} does not match type {}. Via {} {}"].
Proof.
  apply (@update_cast_failure demo_runtime 0 _ "a" (ruled_item "a" (VInt 0))
           (VStr "warm") "Logic" None None ValueError).
  - by vm_compute.
  - by vm_compute.
Defined.

Section Gating.
Context `{Runtime}.

(** The shape of a returning update, with nothing assumed about the
    rules. *)
Lemma update_Done_any n w p v c s d w' t it v' :
  items w !! p = Some it -> cast (_type it) v = Ok v' ->
  __update n w p v c s d = Done w' t ->
  let ch := py_ne v' (_value it) in
  let g := ch || _enforce_updates it || is_scene it in
  exists itg it',
    items w' !! p = Some it' /\
    static it' = static it /\ static itg = static it /\
    _value it' = _value itg /\ _fading it' = _fading itg /\
    on_update_ran it t /\
    rule_evals "on_change" t
      = (if g then combine (_on_change_dest_var it) (_on_change it) else []) /\
    methods_called t = (if g then __methods_to_trigger it else []) /\
    logics_fired t =
      (if g && negb (gated itg && negb (crossing itg))
       then __logics_to_trigger it else []) /\
    dispatched t = (if g then _items_to_trigger it else []) /\
    cache_writes t =
      match _cache it with
      | Some f => if ch && negb (_fading it') then [(f, _value it')] else []
      | None => []
      end /\
    exists x,
      timers t =
        if has_autotimer it && negb (String.eqb c "Autotimer")
           && negb (_fading it')
        then [(x, "Autotimer")] else [].
Proof.
  intros Hit Hcast Hup. destruct n as [|n]; [discriminate|].
  cbn [__update] in Hup.
  destruct (update_body_Done (fun _ => True) (__update n)
              (update_rec_ok false _ n) w p v c s d w' t it v'
              (closed_all w) (dests_in_all w p) Hit Hcast Hup)
    as (itg & it' & ? & ? & ? & _ & ? & ? & _ & _ & ? & ? & ? & ? & ? & ? & ?).
  exists itg, it'. split_and!; done.
Qed.

(** The change path of a returning update ran or was skipped according to
    [_changed or self._enforce_updates or self._type == 'scene']. *)
Lemma update_gating n w p v c s d w' t it v' :
  items w !! p = Some it -> cast (_type it) v = Ok v' ->
  __update n w p v c s d = Done w' t ->
  on_update_ran it t /\
  if py_ne v' (_value it) || forced it
  then change_path_ran it t else change_path_skipped t.
Proof.
  intros Hit Hcast Hup.
  destruct (update_Done_any _ _ _ _ _ _ _ _ _ _ _ Hit Hcast Hup)
    as (itg & it' & _ & _ & Eg & _ & _ & Hu & Hc & Hm & Hl & Hd & _).
  split; [done|]. unfold forced. rewrite orb_assoc.
  destruct (py_ne v' (_value it) || _enforce_updates it || is_scene it).
  - split_and!; try done. intros Hg. rewrite Hl.
    by rewrite (gated_static _ _ Eg), Hg.
  - by split_and!.
Qed.


End Gating.



(** ** The job the autotimer block hands to the scheduler *)



Section Rearm.
Context `{Runtime}.





Variable S : string -> Prop.
Variable rec : world -> string -> value -> string -> option string ->
               option string -> outcome.
Hypothesis Hrec : rec_ok false S rec.


End Rearm.

Section Autotimer.
Context `{Runtime}.


End Autotimer.



Section Call.
Context `{Runtime}.

(** C10: a call with [None] (or without value) is a read: it returns the
    current value, leaves the registry exactly as it was and does nothing
    else.  Whatever else is passed to the call, cast values are what gets
    written, here and by the rules down the line, so no item is ever set
    to [None] through this entry point. *)
Theorem call_none_is_read n w p it c s d :
  items w !! p = Some it ->
  __call__ n w p VNone c s d = (_value it, Done w []) /\
  forall v, ends_in (no_new_none w) (snd (__call__ n w p v c s d)).
Proof.
  intros Hit. unfold __call__. rewrite Hit. split; [done|]. intros v.
  assert (Hrefl : no_new_none w w) by (intros q it' ? ?; eauto).
  destruct (is_none v) eqn:Hv; [done|]. cbn [snd].
  assert (Hupd : ends_in (no_new_none w) (__update n w p v c s d)).
  { eapply ends_in_mono;
      [|apply (update_evolves true (fun _ => True) n w p v c s d
                 (closed_all w) I (fun _ => Hv))].
    intros w' Hev q it' Hit' Hn.
    destruct (evolves_lookup_rev _ _ _ _ _ _ Hev Hit') as (it0 & Hit0 & _ & _ & N).
    eauto. }
  destruct (_eval it) as [e|]; [|done].
  by destruct (negb (String.eqb e "")).
Qed.

End Call.

Lemma call_none_is_read_witness :
  @__call__ demo_runtime 3 demo_world "a" VNone "Logic" None None
    = (VInt 0, Done demo_world []).
Proof.
  apply (@call_none_is_read demo_runtime 3 demo_world "a"
           (ruled_item "a" (VInt 0)) "Logic" None None).
  vm_compute; reflexivity.
Defined.

Section Threshold.
Context `{Runtime}.

Lemma crossing_stamp tn it : crossing (stamp_update tn it) = crossing it.
Proof. reflexivity. Qed.


End Threshold.



(** ** The fade job *)

Section PlainItems.
Context `{Runtime}.

Lemma with_item_lookup p w k it :
  items w !! p = Some it -> with_item p w k = k it.
Proof. unfold with_item. by intros ->. Qed.

Lemma combine_nil_r {A B} (l : list A) : combine l (@nil B) = [].
Proof. by destruct l. Qed.

Lemma cast_num_numeric v v' :
  cast TNum v = Ok v' -> is_Some (num_of v').
Proof.
  cbn [cast]. unfold _cast_num.
  repeat (case_match; try discriminate); intros [= <-]; by eexists.
Qed.

Lemma notify_logics_returns w p it :
  items w !! p = Some it -> is_Some (num_of (_value it)) ->
  exists w' t, notify_logics w p = Done w' t.
Proof.
  intros Hit [x Hx]. unfold notify_logics. rewrite (with_item_lookup _ _ _ _ Hit).
  unfold py_le_float, py_ge_float. rewrite Hx.
  repeat case_match; try (eexists _, _; reflexivity).
  all: unfold with_item; rewrite lookup_assign, Hit; eexists _, _; reflexivity.
Qed.

Lemma autotimer_static it it' :
  static it' = static it -> _autotimer it = None -> _autotimer it' = None.
Proof.
  intros E Ha. apply static_fields in E as (_&_&_&_&_&_&_&_&_&_&_&_&_&_&_&_&E).
  unfold has_autotimer in E. rewrite Ha in E. by destruct (_autotimer it').
Qed.

Lemma change_path_returns n w p it v c s d :
  items w !! p = Some it -> _on_change it = [] ->
  is_Some (num_of (_value it)) ->
  exists w' t, change_path (__update n) w p v c s d = Done w' t.
Proof.
  intros Hit Hoc Hnum. unfold change_path.
  set (w1 := assign p (fun it => set__prev_update (__last_update it) it) w).
  set (wa := assign p (set__last_update (now w1)) w1).
  assert (Hita : items wa !! p = Some (stamp_update (now w) it)).
  { unfold wa, w1. by rewrite !lookup_assign, Hit. }
  unfold __run_on_change. rewrite (with_item_lookup _ _ _ _ Hita).
  change (_on_change (stamp_update (now w) it)) with (_on_change it).
  rewrite Hoc, combine_nil_r. cbn [run_rules andthen emit app].
  rewrite (with_item_lookup _ _ _ _ Hita). cbn [andthen emit].
  destruct (notify_logics_returns wa p _ Hita Hnum) as (wb & tb & Hb).
  rewrite Hb. cbn [andthen].
  pose proof (notify_logics_Done _ _ _ _ _ Hita Hb) as (_ & Hwb & _).
  assert (exists itb, items wb !! p = Some itb) as [itb Hitb].
  { rewrite Hwb. destruct (_ && _); [|eauto]. rewrite lookup_assign, Hita. eauto. }
  rewrite (with_item_lookup _ _ _ _ Hitb). cbn [emit]. eauto.
Qed.

(** An update of such an item returns. *)
Lemma update_plain_returns n w p it v v' c s d :
  items w !! p = Some it -> plain_num it -> cast TNum v = Ok v' ->
  exists w' t, __update (S n) w p v c s d = Done w' t.
Proof.
  intros Hit (Hty & _ & Hou & Hoc & Hau & Hnum & _) Hcast.
  cbn [__update]. unfold update_body.
  rewrite (with_item_lookup _ _ _ _ Hit), Hty, Hcast.
  pose proof (locked_section_spec it v' c s d (now w)) as Hls.
  destruct (locked_section it v' c s d (now w)) as [[it1 ch] evs].
  destruct Hls as (E1 & -> & Hv1 & _ & _ & Ha1).
  pose proof (static_fields _ _ E1) as (_&_&_&_&E5&_&E7&_).
  set (w1 := {| items := <[p:=it1]> (items w); now := now w |}).
  assert (Hit1 : items w1 !! p = Some it1) by apply lookup_insert_eq.
  assert (Hnum1 : is_Some (num_of (_value it1))).
  { rewrite Hv1. destruct (py_ne v' (_value it)); [|done].
    by eapply cast_num_numeric. }
  unfold __run_on_update. rewrite (with_item_lookup _ _ _ _ Hit1).
  rewrite E5, Hou, combine_nil_r. cbn [run_rules andthen emit app].
  rewrite (with_item_lookup _ _ _ _ Hit1).
  assert (exists w2 t2 it2,
    (if py_ne v' (_value it) || _enforce_updates it1
        || String.eqb (type_name (_type it1)) "scene"
     then change_path (__update n) w1 p v' c s d else Done w1 [])
    = Done w2 t2 /\
    items w2 !! p = Some it2 /\ _autotimer it2 = None)
    as (w2 & t2 & it2 & -> & Hit2 & Ha2).
  { destruct (_ || _ || _); [|eexists _, _, _; split_and!; eauto; congruence].
    destruct (change_path_returns n w1 p it1 v' c s d Hit1) as (w2 & t2 & H2);
      [congruence | done |].
    destruct (change_path_Done (fun _ => True) (__update n)
                (update_rec_ok false _ n) w1 p v' c s d w2 t2 it1
                (closed_all w1) (dests_in_all w1 p) Hit1 H2)
      as (itg & Eg & _ & Hit2 & _).
    eexists _, _, _. split; [done|]. split; [done|].
    apply autotimer_static with it1; [|congruence].
    by destruct (gated itg && crossing itg). }
  cbn [andthen]. rewrite (with_item_lookup _ _ _ _ Hit2).
  assert (exists tk, match _cache it2 with
                     | Some file =>
                         if py_ne v' (_value it) && negb (_fading it2)
                         then Done w2 [EvCacheWrite file (_value it2)]
                         else Done w2 []
                     | None => Done w2 []
                     end = Done w2 tk) as [tk ->].
  { repeat case_match; eauto. }
  cbn [andthen emit]. rewrite (with_item_lookup _ _ _ _ Hit2), Ha2.
  cbn [emit]. eauto.
Qed.

Lemma rec_ok_none rec : rec_ok false (fun _ => False) rec.
Proof. by intros w q v c s d _ []. Qed.

Lemma closed_none w : closed w (fun _ => False).
Proof. by intros q it d []. Qed.

(** What an update does to such an item. *)
Lemma update_plain n w p it v v' c s d :
  items w !! p = Some it -> plain_num it -> cast TNum v = Ok v' ->
  exists w' t it',
    __update (S n) w p v c s d = Done w' t /\
    items w' !! p = Some it' /\ plain_num it' /\
    _value it' = (if py_ne v' (_value it) then v' else _value it) /\
    _fading it' =
      (if py_ne v' (_value it) && negb (String.eqb c "fader")
       then false else _fading it).
Proof.
  intros Hit Hpl Hcast.
  destruct (update_plain_returns n w p it v v' c s d Hit Hpl Hcast)
    as (w' & t & Hup).
  destruct Hpl as (Hty & Hev & Hou & Hoc & Hau & Hnum & Hds).
  assert (Hcast' : cast (_type it) v = Ok v') by by rewrite Hty.
  pose proof Hup as Hup'. cbn [__update] in Hup'.
  destruct (update_body_Done (fun _ => False) (__update n) (rec_ok_none _)
              w p v c s d w' t it v' (closed_none w)) as
    (itg & it' & Hit' & E' & _ & [[]|Hitg] & Hv & Hf & _); try done.
  { intros it0 d0 Hit0 Hd0. assert (it0 = it) as -> by congruence.
    rewrite Hds in Hd0. destruct Hd0. }
  pose proof (locked_section_spec it v' c s d (now w)) as Hls.
  destruct (locked_section it v' c s d (now w)) as [[it0 ch] evs].
  destruct Hls as (_ & -> & Hv0 & Hf0 & _). cbn [fst] in Hitg.
  assert (Hv' : _value it' = if py_ne v' (_value it) then v' else _value it).
  { rewrite Hv, Hitg, <- Hv0. by destruct (_ || _ || _). }
  exists w', t, it'. split; [done|]. split; [done|]. split; [|split; [done|]].
  - pose proof (static_fields _ _ E')
      as (_&E2&E3&_&E5&E6&E7&E8&_).
    unfold plain_num, dests in *. rewrite E2, E3, E5, E6, E7, E8, Hv'.
    split_and!; try done.
    + by apply autotimer_static with it.
    + destruct (py_ne v' (_value it)); [|done]. by eapply cast_num_numeric.
  - rewrite Hf, Hitg, <- Hf0. by destruct (_ || _ || _).
Qed.

Lemma cast_num_not_none v v' : cast TNum v = Ok v' -> is_none v = false.
Proof. by destruct v. Qed.

(** The same for a call issued by the fade job. *)
Lemma issue_plain n w p it v v' c :
  items w !! p = Some it -> plain_num it -> cast TNum v = Ok v' ->
  exists w' t it',
    issue (S n) w p v c = Done w' [EvCall p v c t] /\
    items w' !! p = Some it' /\ plain_num it' /\
    _value it' = (if py_ne v' (_value it) then v' else _value it) /\
    _fading it' =
      (if py_ne v' (_value it) && negb (String.eqb c "fader")
       then false else _fading it).
Proof.
  intros Hit Hpl Hcast.
  destruct (update_plain n w p it v v' c None None Hit Hpl Hcast)
    as (w' & t & it' & Hup & Hrest).
  exists w', t, it'. split; [|done].
  unfold issue, __call__. rewrite Hit, (cast_num_not_none _ _ Hcast).
  destruct Hpl as (_ & -> & _). cbn [snd]. by rewrite Hup.
Qed.

End PlainItems.

Section FadeJob.
Context `{Runtime}.

Lemma fade_loop_eq n fuel up w p dest step sched :
  fade_loop n fuel up w p dest step sched =
  with_item p w (fun it =>
    match (if up then py_add else py_sub) (_value it) step with
    | Raise e => Raised e w []
    | Ok next =>
        match (if up then py_lt_float else py_gt_float) next dest with
        | Raise e => Raised e w []
        | Ok further =>
            if further && _fading it then
              match n with
              | O => OutOfFuel
              | S n' =>
                  andthen (issue fuel w p next "fader") (fun w =>
                  andthen (wait fuel (hd Idle sched) w) (fun w =>
                  fade_loop n' fuel up w p dest step (tl sched)))
              end
            else Done w []
        end
    end).
Proof. by destruct n. Qed.

Lemma wait_undisturbed fuel e w :
  undisturbed e ->
  exists w', wait fuel e w = Done w' [] /\ items w' = items w.
Proof. destruct e; intros []; cbn; eauto. Qed.

Lemma py_ne_int_same a b : py_ne (VInt a) (VInt b) = false -> a = b.
Proof.
  unfold py_ne. cbn. unfold Qeq_bool. cbn. rewrite negb_false_iff.
  intros E%Z.eqb_eq. lia.
Qed.

Lemma ramp_S z st k :
  ramp z st (S k) = (VInt (z + st), "fader") :: ramp (z + st) st k.
Proof.
  unfold ramp. cbn [seq map]. f_equal; [do 2 f_equal; lia|].
  rewrite <- seq_shift, map_map. apply map_ext. intros i.
  do 2 f_equal. lia.
Qed.


Lemma plain_num_set_fading b it : plain_num it -> plain_num (set_fading b it).
Proof. done. Qed.






End FadeJob.


(* ===================================================================== *)
(** * Part II, continued: further properties                              *)
(* ===================================================================== *)

(** ** More facts about the [str] operations *)

Lemma append_nil_r a : a +:+ "" = a.
Proof. induction a as [|x a IH]; str_simpl; [done | by rewrite IH]. Qed.

Lemma append_assoc a b c : (a +:+ b) +:+ c = a +:+ (b +:+ c).
Proof. induction a as [|x a IH]; str_simpl; [done | by rewrite IH]. Qed.

Lemma mem_char_app c a b :
  mem_char c (a +:+ b) = mem_char c a || mem_char c b.
Proof.
  induction a as [|x a IH]; rewrite ?append_nil_l, ?append_cons;
    cbn [mem_char]; [done|]. by rewrite IH, orb_assoc.
Qed.

Lemma partition_char_absent c s :
  mem_char c s = false -> PyStr.partition s (String c "") = (s, "", "").
Proof.
  intros Hs. unfold PyStr.partition, PyStr.find.
  by rewrite find_char_absent.
Qed.

(** Partitioning at the first occurrence of a character. *)
Lemma partition_char_first c a b :
  mem_char c a = false ->
  PyStr.partition (a +:+ String c b) (String c "") = (a, String c "", b).
Proof.
  intros Ha. unfold PyStr.partition, PyStr.find.
  rewrite find_char_app by done. pose proof (len_nonneg a).
  destruct (Z.eqb_spec (0 + PyStr.len a) (-1)); [lia|].
  replace (0 + PyStr.len a) with (PyStr.len a) by lia.
  rewrite slice_to_app. change (PyStr.len (String c "")) with 1.
  by rewrite slice_from_app_cons.
Qed.

Lemma rstrip_app_space s : PyStr.rstrip (s +:+ " ") = PyStr.rstrip s.
Proof.
  induction s as [|a s IH]; rewrite ?append_nil_l, ?append_cons; [done|].
  cbn [PyStr.rstrip]. by rewrite IH.
Qed.

Lemma lstrip_app_space s :
  PyStr.lstrip (s +:+ " ") =
  match PyStr.lstrip s with "" => "" | r => r +:+ " " end.
Proof.
  induction s as [|a s IH]; rewrite ?append_nil_l, ?append_cons; [done|].
  cbn [PyStr.lstrip]. destruct (PyStr.is_space a); [done|].
  by rewrite append_cons.
Qed.

Lemma strip_app_space s : PyStr.strip (s +:+ " ") = PyStr.strip s.
Proof.
  unfold PyStr.strip. rewrite lstrip_app_space.
  destruct (PyStr.lstrip s) as [|a r]; [done|]. apply rstrip_app_space.
Qed.

Lemma strip_cons_space s : PyStr.strip (String " " s) = PyStr.strip s.
Proof. reflexivity. Qed.

Lemma lstrip_length s :
  (String.length (PyStr.lstrip s) <= String.length s)%nat.
Proof.
  induction s as [|a s IH]; cbn [PyStr.lstrip]; [done|].
  destruct (PyStr.is_space a); cbn [String.length]; lia.
Qed.

Lemma rstrip_length s :
  (String.length (PyStr.rstrip s) <= String.length s)%nat.
Proof.
  induction s as [|a s IH]; cbn [PyStr.rstrip]; [done|].
  destruct (PyStr.rstrip s); [destruct (PyStr.is_space a)|];
    cbn [String.length] in *; lia.
Qed.

(** A string that [strip] leaves alone has no whitespace at either end. *)
Lemma strip_fixed s :
  PyStr.strip s = s -> PyStr.lstrip s = s /\ PyStr.rstrip s = s.
Proof.
  intros E. assert (L : PyStr.lstrip s = s).
  { pose proof (rstrip_length (PyStr.lstrip s)) as H1.
    unfold PyStr.strip in E. rewrite E in H1.
    destruct s as [|a s]; [done|]. cbn [PyStr.lstrip] in *.
    destruct (PyStr.is_space a); [|done].
    pose proof (lstrip_length s). cbn [String.length] in H1. lia. }
  split; [done|]. unfold PyStr.strip in E. by rewrite L in E.
Qed.

Lemma last_app_char s c : PyStrExt.last (s +:+ String c "") = Some c.
Proof.
  induction s as [|a s IH]; rewrite ?append_nil_l, ?append_cons; [done|].
  cbn [PyStrExt.last]. rewrite IH.
  by destruct s; rewrite ?append_nil_l, ?append_cons.
Qed.

Lemma ends_with_char_absent s c :
  mem_char c s = false -> PyStrExt.ends_with_char s c = false.
Proof.
  unfold PyStrExt.ends_with_char.
  induction s as [|a s IH]; cbn [PyStrExt.last mem_char]; [done|].
  intros [Ha Hs]%orb_false_iff. destruct s as [|b s]; [done|]. by apply IH.
Qed.

(** [endswith] of a one-character suffix looks at the last character. *)
Lemma endswith_char s c :
  PyStr.endswith s (String c "") = PyStrExt.ends_with_char s c.
Proof.
  unfold PyStr.endswith, PyStrExt.ends_with_char.
  change (String.length (String c "")) with 1%nat.
  induction s as [|a s IH]; [done|].
  destruct s as [|b s].
  - cbn. by destruct (Ascii.eqb a c).
  - cbn [PyStrExt.last] in *. rewrite <- IH. cbn [String.length Nat.leb].
    replace (S (S (String.length s)) - 1)%nat with (S (String.length s)) by lia.
    replace (S (String.length s) - 1)%nat with (String.length s) by lia.
    reflexivity.
Qed.

Lemma rstrip_char_absent c s :
  mem_char c s = false -> PyStrExt.rstrip_char c s = s.
Proof.
  induction s as [|a s IH]; cbn [PyStrExt.rstrip_char mem_char]; [done|].
  intros [Ha Hs]%orb_false_iff. rewrite IH by done.
  destruct s; [by rewrite Ha | done].
Qed.

Lemma rstrip_char_app c s :
  PyStrExt.rstrip_char c (s +:+ String c "") = PyStrExt.rstrip_char c s.
Proof.
  induction s as [|a s IH]; rewrite ?append_nil_l, ?append_cons.
  - cbn [PyStrExt.rstrip_char]. by rewrite Ascii.eqb_refl.
  - cbn [PyStrExt.rstrip_char]. by rewrite IH.
Qed.

Lemma lstrip_char_absent c s b :
  mem_char c s = false -> s <> "" ->
  PyStrExt.lstrip_char c (s +:+ b) = s +:+ b.
Proof.
  destruct s as [|a s]; [done|]. cbn [mem_char].
  intros [Ha _]%orb_false_iff _. rewrite append_cons.
  cbn [PyStrExt.lstrip_char]. by rewrite Ha.
Qed.

(** Stripping the unit character off a number that does not contain it. *)
Lemma strip_char_unit c s :
  mem_char c s = false -> PyStrExt.strip_char c (s +:+ String c "") = s.
Proof.
  intros Hs. unfold PyStrExt.strip_char. destruct (String.eqb_spec s "") as [->|Hne].
  - rewrite append_nil_l. cbn [PyStrExt.lstrip_char].
    by rewrite Ascii.eqb_refl.
  - rewrite lstrip_char_absent, rstrip_char_app by done.
    by apply rstrip_char_absent.
Qed.

Lemma rstrip_app_nonspace s c :
  PyStr.is_space c = false ->
  PyStr.rstrip (s +:+ String c "") = s +:+ String c "".
Proof.
  intros Hc. induction s as [|a s IH]; rewrite ?append_nil_l, ?append_cons.
  - cbn [PyStr.rstrip]. by rewrite Hc.
  - cbn [PyStr.rstrip]. rewrite IH.
    by destruct s; rewrite ?append_nil_l, ?append_cons.
Qed.

Lemma lstrip_app_fixed s b :
  PyStr.lstrip s = s -> s <> "" -> PyStr.lstrip (s +:+ b) = s +:+ b.
Proof.
  destruct s as [|a s]; [done|]. intros E _. rewrite append_cons.
  cbn [PyStr.lstrip] in *. destruct (PyStr.is_space a); [|done].
  pose proof (lstrip_length s) as Hl. rewrite E in Hl.
  cbn [String.length] in Hl. lia.
Qed.

(** Appending a unit character to a stripped number keeps it stripped. *)
Lemma strip_app_unit s c :
  PyStr.strip s = s -> PyStr.is_space c = false ->
  PyStr.strip (s +:+ String c "") = s +:+ String c "".
Proof.
  intros [L R]%strip_fixed Hc. unfold PyStr.strip.
  destruct (String.eqb_spec s "") as [->|Hne].
  - rewrite append_nil_l. cbn [PyStr.lstrip]. rewrite Hc.
    cbn [PyStr.rstrip]. by rewrite Hc.
  - rewrite lstrip_app_fixed by done. by apply rstrip_app_nonspace.
Qed.

(** ** Duration/value strings *)

(** X1: joining a duration, a value and a compatibility tag and splitting
    the result gives the three parts back, with the default tag for an empty
    one.  The parts must be what a split can return: duration and value
    without ['='] and without surrounding whitespace, the value not quoted,
    the tag in lower case without surrounding whitespace. *)
Theorem split_join_duration_roundtrip (dflt t v c : string) :
  mem_char "=" t = false -> mem_char "=" v = false ->
  PyStr.strip t = t -> PyStr.strip v = v -> quoted v = false ->
  PyStr.lower (PyStr.strip c) = c ->
  _split_duration_value_string dflt (_join_duration_value_string t v c)
    = (t, v, if String.eqb c "" then dflt else c).
Proof.
  intros Ht Hv St Sv Qv Lc.
  assert (Ht' : mem_char "=" (t +:+ " ") = false)
    by (by rewrite mem_char_app, Ht).
  assert (Hv' : mem_char "=" (String " " v +:+ " ") = false)
    by (rewrite append_cons; cbn [mem_char]; by rewrite mem_char_app, Hv).
  assert (Hq : forall x, x = v ->
    (if negb (String.eqb x "")
        && ((starts_with_char x "'" && PyStrExt.ends_with_char x "'")
            || (starts_with_char x (Ascii.ascii_of_nat 34)
                && PyStrExt.ends_with_char x (Ascii.ascii_of_nat 34)))
     then PyStrExt.slice x 1 (-1) else x) = v).
  { intros x ->. unfold quoted in Qv. by rewrite Qv, andb_false_r. }
  unfold _join_duration_value_string, _split_duration_value_string.
  destruct (String.eqb_spec v "") as [->|Nv];
    destruct (String.eqb_spec c "") as [->|Nc]; cbn [negb orb].
  - rewrite (partition_char_absent "=" t Ht).
    rewrite (partition_char_absent "=" "" eq_refl). by rewrite St.
  - rewrite append_assoc.
    change (" =" +:+ (" = " +:+ c)) with (" " +:+ String "=" (" = " +:+ c)).
    rewrite <- append_assoc, (partition_char_first "=" (t +:+ " ") _ Ht').
    change (" = " +:+ c) with (" " +:+ String "=" (String " " c)).
    rewrite (partition_char_first "=" " " _ eq_refl).
    rewrite strip_app_space, St, (strip_cons_space c), Lc.
    change (PyStr.strip " ") with "". cbn [String.eqb negb andb].
    destruct (String.eqb_spec c ""); done.
  - rewrite !append_assoc.
    change (" =" +:+ (" " +:+ v)) with (" " +:+ String "=" (String " " v)).
    rewrite <- append_assoc, (partition_char_first "=" (t +:+ " ") _ Ht').
    rewrite (partition_char_absent "=" (String " " v)) by done.
    rewrite strip_app_space, St, (strip_cons_space v), Sv.
    by rewrite (Hq v eq_refl).
  - rewrite !append_assoc.
    change (" =" +:+ (" " +:+ (v +:+ (" = " +:+ c))))
      with (" " +:+ String "=" (String " " (v +:+ (" " +:+ String "=" (String " " c))))).
    rewrite <- append_assoc, (partition_char_first "=" (t +:+ " ") _ Ht').
    rewrite <- append_cons, <- append_assoc.
    rewrite (partition_char_first "=" (String " " v +:+ " ") _ Hv').
    rewrite strip_app_space, St, strip_app_space, (strip_cons_space v), Sv.
    rewrite (strip_cons_space c), Lc, (Hq v eq_refl).
    destruct (String.eqb_spec c ""); done.
Qed.

Lemma split_join_duration_roundtrip_witness :
  _split_duration_value_string "compat_1.2"
    (_join_duration_value_string "5m" "42" "latest") = ("5m", "42", "latest")
  /\ _split_duration_value_string "compat_1.2"
       (_join_duration_value_string "30" "on" "") = ("30", "on", "compat_1.2").
Proof.
  split.
  - apply (split_join_duration_roundtrip "compat_1.2" "5m" "42" "latest");
      reflexivity.
  - apply (split_join_duration_roundtrip "compat_1.2" "30" "on" "");
      reflexivity.
Defined.

(** X2: the units of a duration.  For a number text without whitespace
    around it and without the letters [m] and [s], the duration with an
    appended [s] is what the bare text gives, and the one with an appended
    [m] is sixty times that; when the text is not an integer, all three give
    [False] and a warning. *)
Theorem cast_duration_units (s : string) :
  PyStr.strip s = s -> mem_char "m" s = false -> mem_char "s" s = false ->
  _cast_duration (VStr s) = duration_of (int_of_string s) /\
  _cast_duration (VStr (s +:+ "s")) = duration_of (int_of_string s) /\
  _cast_duration (VStr (s +:+ "m"))
    = duration_of (match int_of_string s with
                   | Some z => Some (z * 60)
                   | None => None
                   end).
Proof.
  intros Ss Hm Hs. unfold _cast_duration, duration_of.
  rewrite Ss, !strip_app_unit by done.
  rewrite !endswith_char.
  rewrite (ends_with_char_absent s "m" Hm), (ends_with_char_absent s "s" Hs).
  unfold PyStrExt.ends_with_char. rewrite !last_app_char.
  cbn [Ascii.eqb Bool.eqb]. cbv iota.
  by rewrite !strip_char_unit.
Qed.

Lemma cast_duration_units_witness :
  _cast_duration (VStr "5") = (VInt 5, []) /\
  _cast_duration (VStr "5s") = (VInt 5, []) /\
  _cast_duration (VStr "5m") = (VInt 300, []).
Proof.
  exact (cast_duration_units "5" eq_refl eq_refl eq_refl).
Defined.

(** ** Relative paths inside expressions ([get_stringwithabsolutepathes]) *)

Lemma length_drop n s :
  String.length (PyStr.drop n s) = (String.length s - n)%nat.
Proof.
  revert s. induction n as [|n IH]; intros [|a s];
    cbn [PyStr.drop String.length]; rewrite ?IH; lia.
Qed.

Lemma find_nil sub i :
  sub <> "" -> PyStr.find_from "" sub i = -1.
Proof. by destruct sub. Qed.

Lemma append_not_nil_r a c b : a +:+ String c b <> "".
Proof. by destruct a. Qed.

(** With a non-empty begin tag every pass of the loop shortens the rest, so
    a budget of one pass per character is never used up. *)
Lemma expand_loop_returns p attr b e fuel :
  b <> "" ->
  forall pref rest logs,
    (String.length rest <= fuel)%nat ->
    is_Some (expand_loop fuel p attr b e pref rest logs).
Proof.
  intros Hb. induction fuel as [|fuel IH]; intros pref rest logs Hlen.
  - destruct rest; [|cbn in Hlen; lia]. cbn [expand_loop]. unfold PyStr.find.
    rewrite find_nil by apply append_not_nil_r. by eexists.
  - cbn [expand_loop].
    destruct (Z.eqb_spec (PyStr.find rest (b +:+ ".")) (-1)) as [E|E];
      cbn [negb]; [by eexists|].
    destruct (get_absolutepath p _ attr) as [abs l]. apply IH.
    unfold PyStr.slice_from at 1. rewrite length_drop.
    set (rest1 := PyStr.slice_from rest (PyStr.find rest (b +:+ ".") + PyStr.len b)).
    assert (String.length rest1 < String.length rest)%nat; [|lia].
    unfold rest1, PyStr.slice_from. rewrite length_drop.
    assert (Hr : (0 < String.length rest)%nat).
    { destruct rest; [|cbn; lia]. exfalso. apply E. unfold PyStr.find.
      apply find_nil, append_not_nil_r. }
    assert (Hb' : 0 < PyStr.len b).
    { destruct b; [done|]. rewrite len_cons. pose proof (len_nonneg b). lia. }
    pose proof (find_from_range rest (b +:+ ".") 0) as [?|Hi]; [done|].
    fold (PyStr.find rest (b +:+ ".")) in Hi.
    unfold PyStr.bound, PyStr.len in *.
    destruct (Z.ltb_spec (PyStr.find rest (b +:+ ".")
                          + Z.of_nat (String.length b)) 0); lia.
Qed.

(** X3: with a non-empty begin tag, [get_stringwithabsolutepathes] always
    returns: its loop ends within one pass per character of the string. *)
Theorem get_stringwithabsolutepathes_returns (p evalstr b e attr : string) :
  b <> "" -> is_Some (get_stringwithabsolutepathes p evalstr b e attr).
Proof.
  intros Hb. unfold get_stringwithabsolutepathes.
  destruct (PyStr.find evalstr (b +:+ ".") =? -1); [by eexists|].
  by apply expand_loop_returns.
Qed.

Lemma get_stringwithabsolutepathes_returns_witness :
  is_Some (get_stringwithabsolutepathes "a.b" "sh..c() + sh...d()" "sh." "(" "eval").
Proof.
  apply (get_stringwithabsolutepathes_returns "a.b" "sh..c() + sh...d()" "sh." "(" "eval").
  discriminate.
Defined.

(** X4: one relative reference.  When the first [begintag + '.'] of the
    string sits right behind [pre], the first [endtag] after it right behind
    [rel], and no further reference follows, the result is the string with
    [rel] replaced by its absolute path; begin tag and end tag stay in
    place. *)
Theorem get_stringwithabsolutepathes_one_reference
    (p attr b e pre rel post : string) :
  PyStr.find (pre +:+ b +:+ rel +:+ e +:+ post) (b +:+ ".") = PyStr.len pre ->
  PyStr.find (rel +:+ e +:+ post) e = PyStr.len rel ->
  PyStr.find (e +:+ post) (b +:+ ".") = -1 ->
  get_stringwithabsolutepathes p (pre +:+ b +:+ rel +:+ e +:+ post) b e attr
  = Some (pre +:+ b +:+ fst (get_absolutepath p rel attr) +:+ e +:+ post,
          snd (get_absolutepath p rel attr)).
Proof.
  intros H1 H2 H3. unfold get_stringwithabsolutepathes.
  pose proof (len_nonneg pre) as Hp.
  rewrite H1. destruct (Z.eqb_spec (PyStr.len pre) (-1)) as [?|_]; [lia|].
  destruct (String.length (pre +:+ b +:+ rel +:+ e +:+ post)) as [|fuel] eqn:Hl.
  { exfalso. destruct pre; [destruct b|]; try discriminate Hl.
    rewrite append_nil_l in *.
    destruct rel; [destruct e|]; try discriminate Hl.
    rewrite append_nil_l in *. destruct post; [|discriminate Hl].
    unfold PyStr.find in H1. cbn in H1. discriminate. }
  cbn [expand_loop]. rewrite H1.
  destruct (Z.eqb_spec (PyStr.len pre) (-1)) as [?|_]; [lia|]. cbn [negb].
  rewrite <- (append_assoc pre b), <- len_app, slice_to_app, slice_from_app.
  rewrite H2, slice_to_app, slice_from_app.
  destruct (get_absolutepath p rel attr) as [abs l]. cbn [fst snd].
  destruct fuel; cbn [expand_loop]; rewrite H3; cbn [negb Z.eqb];
    by rewrite !append_nil_l, !append_assoc.
Qed.

Lemma get_stringwithabsolutepathes_one_reference_witness :
  get_stringwithabsolutepathes "a.b" "1 + sh...c() * 2" "sh." "(" "eval"
  = Some ("1 + sh.a.c() * 2",
          [(INFO, "a.b.get_absolutepath('..c'): Result = 'a.c' (for attribute 'eval')")]).
Proof.
  exact (get_stringwithabsolutepathes_one_reference
           "a.b" "eval" "sh." "(" "1 + " "..c" ") * 2" eq_refl eq_refl eq_refl).
Defined.

(** ** More on relative paths ([get_absolutepath]) *)

Lemma startswith_refl s : PyStr.startswith s s = true.
Proof. induction s as [|a s IH]; cbn; [done|]. by rewrite Ascii.eqb_refl. Qed.

Lemma find_from_absent_cons a s sub :
  PyStr.find_from (String a s) sub 0 = -1 ->
  PyStr.startswith (String a s) sub = false /\ PyStr.find_from s sub 0 = -1.
Proof.
  cbn [PyStr.find_from].
  destruct (PyStr.startswith (String a s) sub) eqn:E; [done|].
  - intros E'. split; [done|]. rewrite find_from_shift in E'.
    destruct (Z.eqb_spec (PyStr.find_from s sub 0) (-1)); [done|].
    pose proof (find_from_range s sub 0) as [?|?]; [done | lia].
Qed.

(** Replacing a pattern that does not occur changes nothing. *)
Lemma replace_absent s old new :
  PyStr.find s old = -1 -> PyStr.replace s old new = s.
Proof.
  unfold PyStr.find, PyStr.replace.
  induction s as [|a s IH]; [done|].
  intros [E1 E2]%find_from_absent_cons. cbn [PyStr.replace_go].
  rewrite E1. by rewrite IH.
Qed.

Lemma startswith_app s a b :
  PyStr.startswith s (a +:+ b) = true -> PyStr.startswith s a = true.
Proof.
  revert s. induction a as [|x a IH]; intros s; [by destruct s|].
  rewrite append_cons. destruct s as [|y s]; cbn [PyStr.startswith]; [done|].
  intros [-> H]%andb_true_iff. by rewrite (IH _ H).
Qed.

Lemma find_absent_longer s a b :
  PyStr.find s a = -1 -> PyStr.find s (a +:+ b) = -1.
Proof.
  unfold PyStr.find. induction s as [|x s IH].
  - cbn [PyStr.find_from].
    destruct (PyStr.startswith "" a) eqn:E; [done|]. intros _.
    destruct (PyStr.startswith "" (a +:+ b)) eqn:E'; [|done].
    by rewrite (startswith_app _ _ _ E') in E.
  - intros [E1 E2]%find_from_absent_cons. cbn [PyStr.find_from].
    destruct (PyStr.startswith (String x s) (a +:+ b)) eqn:E'.
    { by rewrite (startswith_app _ _ _ E') in E1. }
    rewrite find_from_shift, (IH E2). done.
Qed.

(** A non-empty pattern that is a suffix of the string is found. *)
Lemma find_suffix n s old :
  old <> "" -> PyStr.drop n s = old -> PyStr.find s old <> -1.
Proof.
  intros Hne. unfold PyStr.find. revert s.
  induction n as [|n IH]; intros s E.
  - cbn [PyStr.drop] in E. subst s. destruct old as [|a old]; [done|].
    cbn [PyStr.find_from]. by rewrite startswith_refl.
  - destruct s as [|a s]; cbn [PyStr.drop] in E; [congruence|].
    specialize (IH s E). cbn [PyStr.find_from].
    destruct (PyStr.startswith (String a s) old); [done|].
    rewrite find_from_shift.
    destruct (Z.eqb_spec (PyStr.find_from s old 0) (-1)); [done|].
    pose proof (find_from_range s old 0) as [?|?]; [done | lia].
Qed.

(** A path without ['.self'] passes the two final replacements unchanged. *)
Lemma self_cleanup_absent r :
  PyStr.find r ".self" = -1 ->
  PyStr.replace
    (if String.eqb (PyStr.slice_from r (-5)) ".self"
     then PyStr.replace r ".self" "" else r) ".self." "." = r.
Proof.
  intros E. destruct (String.eqb_spec (PyStr.slice_from r (-5)) ".self") as [F|_].
  - exfalso. by apply (find_suffix _ _ ".self") in F.
  - apply replace_absent. by apply (find_absent_longer r ".self" ".").
Qed.

Lemma walk_up_stop p attr x root logs :
  starts_with_char x "." = false ->
  walk_up p attr x root logs = (x, root, logs).
Proof. destruct x as [|a x]; cbn [walk_up starts_with_char]; [done|]. by intros ->. Qed.

(** X5: children and siblings.  For a name [x] that is not empty, does not
    begin with a dot and has no trailing whitespace, and as long as no
    ['.self'] occurs in the result: ['.x'] is the child [x] of the item;
    ['..x'] is the sibling [x], which for a top-level item is the top-level
    item [x]. *)
Theorem get_absolutepath_child_and_sibling (par nm x attr : string) :
  x <> "" -> starts_with_char x "." = false -> PyStr.rstrip x = x ->
  mem_char "." nm = false -> nm <> "" ->
  (PyStr.find (par +:+ "." +:+ nm +:+ "." +:+ x) ".self" = -1 ->
   fst (get_absolutepath (par +:+ "." +:+ nm) ("." +:+ x) attr)
     = par +:+ "." +:+ nm +:+ "." +:+ x) /\
  (par <> "" -> PyStr.find (par +:+ "." +:+ x) ".self" = -1 ->
   fst (get_absolutepath (par +:+ "." +:+ nm) (".." +:+ x) attr)
     = par +:+ "." +:+ x) /\
  (PyStr.find (nm +:+ "." +:+ x) ".self" = -1 ->
   fst (get_absolutepath nm ("." +:+ x) attr) = nm +:+ "." +:+ x) /\
  (PyStr.find x ".self" = -1 ->
   fst (get_absolutepath nm (".." +:+ x) attr) = x).
Proof.
  intros Hx Hd Hr Hnm Hne.
  assert (Hxe : String.eqb x "" = false) by by destruct (String.eqb_spec x "").
  assert (Child : forall p, p <> "" ->
    PyStr.find (p +:+ "." +:+ x) ".self" = -1 ->
    fst (get_absolutepath p ("." +:+ x) attr) = p +:+ "." +:+ x).
  { intros p Hp Hs. unfold get_absolutepath.
    change ("." +:+ x) with (String "." x). cbn [starts_with_char].
    change (Ascii.eqb "." ".") with true. cbv iota.
    rewrite (rstrip_cons_nonspace ".") by reflexivity. rewrite Hr.
    cbn [walk_up]. change (Ascii.eqb "." ".") with true. cbv iota.
    rewrite Hd, walk_up_stop by done. rewrite Hxe. cbn [negb].
    destruct (String.eqb_spec p "") as [?|_]; [done|]. cbn [negb fst].
    by apply self_cleanup_absent. }
  split; [|split; [|split]].
  - intros Hs. rewrite Child.
    + by rewrite !append_assoc.
    + exact (append_not_nil_r par "." nm).
    + by rewrite !append_assoc.
  - intros Hp Hs. unfold get_absolutepath.
    change (".." +:+ x) with (String "." (String "." x)).
    change (par +:+ "." +:+ nm) with (par +:+ String "." nm).
    cbn [starts_with_char]. change (Ascii.eqb "." ".") with true. cbv iota.
    rewrite !(rstrip_cons_nonspace ".") by reflexivity. rewrite Hr.
    cbn [walk_up starts_with_char]. change (Ascii.eqb "." ".") with true.
    cbv iota. unfold PyStr.rfind.
    rewrite (rfind_char_app "." par nm 0 (-1) Hnm).
    pose proof (len_nonneg par).
    destruct (Z.eqb_spec (0 + PyStr.len par) (-1)); [lia|].
    replace (0 + PyStr.len par) with (PyStr.len par) by lia.
    rewrite slice_to_app, Hd, walk_up_stop by done. rewrite Hxe. cbn [negb].
    destruct (String.eqb_spec par "") as [?|_]; [done|]. cbn [negb fst].
    by apply self_cleanup_absent.
  - intros Hs. by apply Child.
  - intros Hs. unfold get_absolutepath.
    change (".." +:+ x) with (String "." (String "." x)).
    cbn [starts_with_char]. change (Ascii.eqb "." ".") with true. cbv iota.
    rewrite !(rstrip_cons_nonspace ".") by reflexivity. rewrite Hr.
    cbn [walk_up starts_with_char]. change (Ascii.eqb "." ".") with true.
    cbv iota. unfold PyStr.rfind at 1. rewrite rfind_char_absent by done.
    change (-1 =? -1) with true. cbv iota.
    destruct (String.eqb_spec nm "") as [?|_]; [done|].
    rewrite Hd, walk_up_stop by done. rewrite Hxe. cbn [negb].
    change (String.eqb "" "") with true. cbn [negb fst].
    by apply self_cleanup_absent.
Qed.

Lemma get_absolutepath_child_and_sibling_witness :
  fst (get_absolutepath "house.floor" ".lamp" "") = "house.floor.lamp" /\
  fst (get_absolutepath "house.floor" "..attic" "") = "house.attic" /\
  fst (get_absolutepath "floor" "..attic" "") = "attic".
Proof.
  pose proof (get_absolutepath_child_and_sibling "house" "floor" "lamp" ""
                ltac:(discriminate) eq_refl eq_refl eq_refl ltac:(discriminate))
    as (H1 & _).
  pose proof (get_absolutepath_child_and_sibling "house" "floor" "attic" ""
                ltac:(discriminate) eq_refl eq_refl eq_refl ltac:(discriminate))
    as (_ & H2 & _ & H4).
  exact (conj (H1 eq_refl)
           (conj (H2 ltac:(discriminate) eq_refl) (H4 eq_refl))).
Defined.

(** ** Casts *)

Section Casts.
Context `{Runtime}.

(** A value of the item's type passes the cast unchanged. *)
Lemma cast_well_typed t u : has_type t u = true -> cast t u = Ok u.
Proof.
  destruct t, u; try discriminate; intros _; try reflexivity.
  by destruct b.
Qed.

Lemma cast_has_type t v v' : cast t v = Ok v' -> has_type t v' = true.
Proof.
  destruct t; cbn [cast].
  - unfold _cast_num. repeat (case_match; try discriminate); by intros [= <-].
  - unfold _cast_str. destruct v; try discriminate. by intros [= <-].
  - unfold _cast_bool. repeat (case_match; try discriminate); by intros [= <-].
  - unfold _cast_list. repeat (case_match; try discriminate); by intros [= <-].
  - unfold _cast_dict. repeat (case_match; try discriminate); by intros [= <-].
  - done.
  - unfold _cast_scene. repeat (case_match; try discriminate); by intros [= <-].
Qed.

(** X6: the casts normalise.  Whatever a cast accepts, its result is a
    value of the item type ([num]: int or float, [bool]: bool, [str]: str,
    [list]: list, [dict]: dict, [scene]: int), and casting the result again
    returns it unchanged; so does casting any value of the item type. *)
Theorem cast_idempotent (t : itype) (v v' : value) :
  cast t v = Ok v' ->
  has_type t v' = true /\ cast t v' = Ok v' /\
  (forall u, has_type t u = true -> cast t u = Ok u).
Proof.
  intros Hc. pose proof (cast_has_type _ _ _ Hc) as Ht.
  split; [done|]. split; [by apply cast_well_typed|].
  apply cast_well_typed.
Qed.

(** X7: the fallback of [_castvalue_to_itemtype].  Without the tag
    [ATTRIB_COMPAT_LATEST] the value is returned as it is.  With it, for the
    item types [num], [str], [bool] and [foo] and a value that is neither a
    list nor a dict, the call never raises and returns a value of the item
    type (the cast of the value, or else the cast of the empty string); for
    a list or dict that cannot be cast the result is the empty list or dict,
    whatever the item type; for type [scene] a value that cannot be cast makes
    the call raise [ValueError]. *)
Theorem castvalue_to_itemtype_fallback (it : Item) (v : value) (compat : string) :
  (compat <> ATTRIB_COMPAT_LATEST ->
   _castvalue_to_itemtype it v compat = (Ok v, [])) /\
  (casts_empty (_type it) = true -> is_container v = false ->
   exists v' l,
     _castvalue_to_itemtype it v ATTRIB_COMPAT_LATEST = (Ok v', l) /\
     has_type (_type it) v' = true) /\
  (forall e, cast (_type it) v = Raise e -> is_container v = true ->
   exists l,
     _castvalue_to_itemtype it v ATTRIB_COMPAT_LATEST
       = (Ok (match v with VDict _ => VDict [] | _ => VList [] end), l)) /\
  (forall e, _type it = TScene -> cast TScene v = Raise e ->
   is_container v = false ->
   exists l,
     _castvalue_to_itemtype it v ATTRIB_COMPAT_LATEST = (Raise ValueError, l)).
Proof.
  unfold _castvalue_to_itemtype. split_and!.
  - intros Hne. by destruct (String.eqb_spec compat ATTRIB_COMPAT_LATEST).
  - intros Ht Hv. rewrite String.eqb_refl.
    destruct (cast (_type it) v) as [u|e] eqn:Hc.
    + eexists _, _. split; [done|]. by eapply cast_has_type.
    + assert (exists u, cast (_type it) (VStr "") = Ok u) as [u Hu].
      { destruct (_type it); try discriminate; by eexists. }
      exists u. eexists.
      split; [by destruct v; try discriminate; rewrite Hu|].
      by eapply cast_has_type.
  - intros e Hc Hv. rewrite String.eqb_refl, Hc.
    destruct v; try discriminate; by eexists.
  - intros e Ht Hc Hv. rewrite String.eqb_refl, Ht, Hc.
    destruct v; try discriminate; by eexists.
Qed.

End Casts.

Lemma cast_idempotent_witness :
  @cast demo_runtime TNum (VStr " 42 ") = Ok (VInt 42) /\
  @cast demo_runtime TNum (VInt 42) = Ok (VInt 42).
Proof.
  split; [reflexivity|].
  exact (proj1 (proj2 (@cast_idempotent demo_runtime TNum (VStr " 42 ")
                         (VInt 42) eq_refl))).
Defined.

(** ** The [Items] registry *)

(** X8: registering and looking up.  After [add_item(p, it)] the lookup of
    [p] gives [it], whether [p] was registered before or not, and the lookup
    of any other path gives what it gave before. *)
Theorem add_item_return_item (r : Items.t) (p q : string) (it : Item) :
  q <> p ->
  Items.return_item (Items.add_item p it r) p = Ok (Some it) /\
  Items.return_item (Items.add_item p it r) q = Items.return_item r q.
Proof.
  intros Hne. unfold Items.return_item, Items.getitem, Items.add_item.
  cbn [Items.__items Items.__item_dict]. split.
  - rewrite lookup_insert_eq.
    destruct (bool_decide_reflect (p ∈ Items.__items r)) as [Hin|Hin].
    + by rewrite bool_decide_eq_true_2.
    + rewrite bool_decide_eq_true_2; [done|].
      apply elem_of_app. right. by apply list_elem_of_singleton.
  - rewrite lookup_insert_ne by done.
    destruct (bool_decide_reflect (p ∈ Items.__items r)) as [Hin|Hin]; [done|].
    destruct (bool_decide_reflect (q ∈ Items.__items r)) as [Hq|Hq].
    + rewrite bool_decide_eq_true_2; [done|]. apply elem_of_app. by left.
    + rewrite bool_decide_eq_false_2; [done|].
      intros [?|?%list_elem_of_singleton]%elem_of_app; done.
Qed.

Lemma add_item_return_item_witness :
  let r := Items.add_item "a" (plain_item "a" TNum (VInt 0)) Items.empty in
  Items.return_item (Items.add_item "a" (plain_item "a" TNum (VInt 7)) r) "a"
    = Ok (Some (plain_item "a" TNum (VInt 7))) /\
  Items.return_item (Items.add_item "b" (plain_item "b" TStr (VStr "")) r) "a"
    = Ok (Some (plain_item "a" TNum (VInt 0))).
Proof.
  intros r. split.
  - apply (add_item_return_item r "a" "b"). discriminate.
  - etransitivity; [apply (add_item_return_item r "b" "a"); discriminate|].
    reflexivity.
Defined.

Lemma add_item_paths p it r q :
  q ∈ Items.__items (Items.add_item p it r) <-> q = p \/ q ∈ Items.__items r.
Proof.
  unfold Items.add_item. cbn [Items.__items].
  destruct (bool_decide_reflect (p ∈ Items.__items r)) as [Hin|Hin].
  - split; [by right | by intros [->|?]].
  - rewrite elem_of_app, list_elem_of_singleton. tauto.
Qed.

Lemma add_item_NoDup p it r :
  NoDup (Items.__items r) -> NoDup (Items.__items (Items.add_item p it r)).
Proof.
  unfold Items.add_item. cbn [Items.__items].
  destruct (bool_decide_reflect (p ∈ Items.__items r)) as [Hin|Hin]; [done|].
  intros Hnd. apply NoDup_app. split; [done|]. split; [|apply NoDup_singleton].
  by intros q Hq ->%list_elem_of_singleton.
Qed.

Lemma add_item_consistent p it r :
  (forall q, q ∈ Items.__items r <-> is_Some (Items.__item_dict r !! q)) ->
  forall q, q ∈ Items.__items (Items.add_item p it r)
            <-> is_Some (Items.__item_dict (Items.add_item p it r) !! q).
Proof.
  intros Hc q. rewrite add_item_paths. unfold Items.add_item.
  cbn [Items.__item_dict]. rewrite lookup_insert_is_Some, Hc.
  split; [intros [->|?]; [by left|]|intros [->|[_ ?]]; [by left | by right]].
  destruct (decide (p = q)); [by left | by right].
Qed.

Lemma registered_snoc l p it :
  registered (l ++ [(p, it)]) = Items.add_item p it (registered l).
Proof. unfold registered. by rewrite foldl_app. Qed.

Lemma collect_consistent r paths :
  (forall q, q ∈ paths -> is_Some (Items.__item_dict r !! q)) ->
  exists its, Items.collect r paths = Ok its /\ length its = length paths.
Proof.
  induction paths as [|p ps IH]; intros Hc; cbn [Items.collect].
  - by exists [].
  - destruct (Hc p) as [it Hit]; [by left|].
    unfold Items.getitem at 1. rewrite Hit.
    destruct IH as (its & -> & Hl); [intros; apply Hc; by right|].
    exists (it :: its). cbn. by rewrite Hl.
Qed.

(** The registry after any sequence of registrations. *)
Lemma registered_inv (l : list (string * Item)) :
  NoDup (Items.__items (registered l)) /\
  (forall p, p ∈ Items.__items (registered l) <-> p ∈ l.*1) /\
  (forall p, p ∈ Items.__items (registered l)
             <-> is_Some (Items.__item_dict (registered l) !! p)).
Proof.
  induction l as [|[p it] l IH] using rev_ind.
  - split; [constructor|]. split; intros p; cbn.
    + split; intros []%elem_of_nil.
    + rewrite lookup_empty. split; [by intros ?%elem_of_nil | by intros []].
  - destruct IH as (Hnd & Hp & Hc). rewrite registered_snoc.
    split; [by apply add_item_NoDup|]. split.
    + intros q. rewrite add_item_paths, Hp, fmap_app, elem_of_app.
      cbn. rewrite list_elem_of_singleton. tauto.
    + by apply add_item_consistent.
Qed.

(** X9: what registration keeps.  However many items are registered, and
    however often under the same path: the list of paths has no duplicates
    and holds exactly the paths registered; a path is in the list exactly
    when the dictionary has an item for it, so that a lookup never raises;
    and the generator of all items yields one item per path, as many as
    [item_count] tells. *)
Theorem registry_invariant (l : list (string * Item)) :
  let r := registered l in
  NoDup (Items.__items r) /\
  (forall p, p ∈ Items.__items r <-> p ∈ l.*1) /\
  (forall p, p ∈ Items.__items r <-> is_Some (Items.__item_dict r !! p)) /\
  (forall p, Items.return_item r p = Ok (Items.__item_dict r !! p)) /\
  exists its,
    Items.return_items r = Ok its /\
    Z.of_nat (length its) = Items.item_count r.
Proof.
  cbv zeta. destruct (registered_inv l) as (Hnd & Hp & Hc).
  split_and!; try done.
  - intros p. unfold Items.return_item, Items.getitem.
    destruct (bool_decide_reflect (p ∈ Items.__items (registered l))) as [Hin|Hin].
    + apply Hc in Hin as [it ->]. done.
    + destruct (Items.__item_dict (registered l) !! p) eqn:E; [|done].
      exfalso. apply Hin, Hc. by eexists.
  - destruct (collect_consistent (registered l) (Items.__items (registered l)))
      as (its & E & Hl); [intros q; apply Hc|].
    exists its. split; [done|]. unfold Items.item_count. by rewrite Hl.
Qed.

Lemma stop_loop_spec paths :
  forall d,
    (forall p, p ∈ paths -> is_Some (d !! p)) ->
    exists d',
      Items.stop_loop paths d = Ok d' /\
      forall q, d' !! q = if bool_decide (q ∈ paths)
                          then set_fading false <$> d !! q else d !! q.
Proof.
  induction paths as [|p ps IH]; intros d Hd; cbn [Items.stop_loop].
  - exists d. split; [done|]. intros q.
    by rewrite bool_decide_eq_false_2 by apply not_elem_of_nil.
  - destruct (Hd p) as [it Hit]; [by left|]. rewrite Hit.
    destruct (IH (<[p := set_fading false it]> d)) as (d' & -> & Hd').
    { intros q Hq. rewrite lookup_insert_is_Some.
      destruct (decide (p = q)); [by left | right; split; [done|]].
      apply Hd. by right. }
    exists d'. split; [done|]. intros q. rewrite Hd'.
    destruct (decide (q = p)) as [->|Hne].
    + rewrite lookup_insert_eq, Hit, (bool_decide_eq_true_2 (p ∈ p :: ps))
        by by left.
      by destruct (bool_decide (p ∈ ps)).
    + rewrite lookup_insert_ne by done.
      destruct (bool_decide_reflect (q ∈ ps)) as [Hq|Hq].
      * by rewrite bool_decide_eq_true_2 by by right.
      * rewrite bool_decide_eq_false_2; [done|].
        by intros [?|?]%elem_of_cons.
Qed.

(** X10: [Items.stop] on a registry whose path list and dictionary agree
    (as registration leaves them): it returns without raising, clears the
    fading flag of every item and changes nothing else, neither the paths
    nor any other field of any item. *)
Theorem registry_stop_clears_fading (r : Items.t) :
  (forall p, p ∈ Items.__items r <-> is_Some (Items.__item_dict r !! p)) ->
  Items.stop r =
    Ok {| Items.__items := Items.__items r;
          Items.__item_dict := set_fading false <$> Items.__item_dict r |}.
Proof.
  intros Hc. unfold Items.stop.
  destruct (stop_loop_spec (Items.__items r) (Items.__item_dict r))
    as (d' & -> & Hd'); [intros p; apply Hc|].
  do 2 f_equal. apply map_eq. intros q. rewrite Hd', lookup_fmap.
  destruct (bool_decide_reflect (q ∈ Items.__items r)) as [Hq|Hq]; [done|].
  destruct (Items.__item_dict r !! q) eqn:E; [|done].
  exfalso. apply Hq, Hc. by eexists.
Qed.

Lemma registry_stop_clears_fading_witness :
  let r := registered [("a", set_fading true (plain_item "a" TNum (VInt 3)));
                       ("b", plain_item "b" TStr (VStr "x"))] in
  Items.stop r =
    Ok {| Items.__items := Items.__items r;
          Items.__item_dict := set_fading false <$> Items.__item_dict r |}.
Proof.
  intros r. apply (registry_stop_clears_fading r).
  apply (registered_inv
           [("a", set_fading true (plain_item "a" TNum (VInt 3)));
            ("b", plain_item "b" TStr (VStr "x"))]).
Defined.

(** ** Invariants of the update path *)

Lemma all_items_assign (I : Q -> Item -> Prop) w p f :
  (forall it, items w !! p = Some it -> I (now w) it -> I (now w) (f it)) ->
  all_items I w -> all_items I (assign p f w).
Proof.
  intros Hf Hw q it'. unfold assign. cbn [items now].
  destruct (decide (p = q)) as [<-|Hne].
  - rewrite lookup_alter_eq. destruct (items w !! p) as [it|] eqn:E; [|done].
    intros [= <-]. apply Hf; [done|]. by apply Hw with p.
  - rewrite lookup_alter_ne by done. apply Hw.
Qed.

Lemma all_items_insert (I : Q -> Item -> Prop) w p it' :
  I (now w) it' -> all_items I w ->
  all_items I {| items := <[p:=it']> (items w); now := now w |}.
Proof.
  intros Hi Hw q it. cbn [items now].
  destruct (decide (p = q)) as [<-|Hne].
  - rewrite lookup_insert_eq. by intros [= <-].
  - rewrite lookup_insert_ne by done. apply Hw.
Qed.

Lemma all_items_world_of (I : Q -> Item -> Prop) l :
  Forall (fun pi => I 0%Q pi.2) l -> all_items I (world_of l).
Proof.
  unfold all_items, world_of. cbn [items now].
  induction 1 as [|[p it] l Hi _ IH]; intros q it'; cbn [list_to_map foldr].
  - by rewrite lookup_empty.
  - destruct (decide (p = q)) as [<-|Hne].
    + rewrite lookup_insert_eq. by intros [= <-].
    + rewrite lookup_insert_ne by done. apply IH.
Qed.

Section ItemInvariant.
Context `{Runtime}.

(** A property of items that every assignment of the update path keeps. *)
Variable I : Q -> Item -> Prop.
Hypothesis I_locked : forall tn it v v' c s d,
  I tn it -> cast (_type it) v = Ok v' ->
  I tn (locked_section it v' c s d tn).1.1.
Hypothesis I_stamp : forall tn it, I tn it -> I tn (stamp_update tn it).
Hypothesis I_crossed : forall tn it b, I tn it -> I tn (set__th_crossed b it).
Hypothesis I_autotimer : forall tn it a, I tn it -> I tn (set_autotimer a it).

Section Step.
Variable rec : world -> string -> value -> string -> option string ->
               option string -> outcome.
Hypothesis Hrec : forall w q v c s d,
  all_items I w -> ends_in (all_items I) (rec w q v c s d).

Lemma run_rules_inv w path v rules attr :
  all_items I w -> ends_in (all_items I) (run_rules rec w path v rules attr).
Proof.
  revert w. induction rules as [|[d e] rules IH]; intros w Hw;
    cbn [run_rules]; [done|].
  apply ends_in_andthen; [|intros w1 H1; by apply IH].
  unfold _run_on_xxx. apply ends_in_emit. unfold eval_rule.
  destruct (Eval w path v e) as [|dv]; [done|].
  destruct (negb (is_none dv)); [|done].
  destruct (negb (String.eqb d "")).
  - destruct (items w !! d); [|done].
    pose proof (Hrec w d dv attr (Some path) None Hw).
    by destruct (rec w d dv attr (Some path) None).
  - by destruct (Eval w path v e).
Qed.

Lemma notify_logics_inv w p :
  all_items I w -> ends_in (all_items I) (notify_logics w p).
Proof.
  intros Hw. unfold notify_logics. apply ends_in_with_item; [done|].
  intros it Hit.
  assert (Hset : forall b, all_items I (assign p (set__th_crossed b) w)).
  { intros b. apply all_items_assign; [|done]. intros; by apply I_crossed. }
  repeat case_match; simpl; try done;
    apply ends_in_with_item; try done; intros; simpl; done.
Qed.

Lemma change_path_inv w p v c s d :
  all_items I w -> ends_in (all_items I) (change_path rec w p v c s d).
Proof.
  intros Hw. unfold change_path.
  set (w1 := assign p (fun it => set__prev_update (__last_update it) it) w).
  set (w2 := assign p (set__last_update (now w1)) w1).
  assert (H2 : all_items I w2).
  { intros q it2. unfold w2, w1.
    destruct (decide (p = q)) as [<-|Hne].
    - rewrite !lookup_assign. destruct (items w !! p) as [it|] eqn:E; [|done].
      intros [= <-]. apply (I_stamp (now w) it). by apply Hw with p.
    - rewrite !lookup_assign_ne by done. apply Hw. }
  apply ends_in_andthen.
  { unfold __run_on_change. apply ends_in_with_item; [done|]. intros.
    by apply run_rules_inv. }
  intros w3 H3. apply ends_in_andthen.
  { apply ends_in_with_item; [done|]. intros; done. }
  intros w4 H4. apply ends_in_andthen; [by apply notify_logics_inv|].
  intros w5 H5. apply ends_in_with_item; [done|]. intros; done.
Qed.

Lemma update_body_inv w p v c s d :
  all_items I w -> ends_in (all_items I) (update_body rec w p v c s d).
Proof.
  intros Hw. unfold update_body. apply ends_in_with_item; [done|].
  intros it Hit. destruct (cast (_type it) v) as [v'|] eqn:Hcast; [|done].
  pose proof (I_locked (now w) it v v' c s d (Hw p it Hit) Hcast) as Hl.
  destruct (locked_section it v' c s d (now w)) as [[it' ch] evs].
  cbn [fst] in Hl.
  apply ends_in_emit, ends_in_andthen.
  { unfold __run_on_update. apply ends_in_with_item.
    - by apply all_items_insert.
    - intros. apply run_rules_inv. by apply all_items_insert. }
  intros w2 H2. apply ends_in_andthen.
  { apply ends_in_with_item; [done|]. intros it2 Hit2.
    case_match; [|done]. by apply change_path_inv. }
  intros w3 H3. apply ends_in_andthen.
  { apply ends_in_with_item; [done|]. intros it3 Hit3.
    repeat case_match; done. }
  intros w4 H4. apply ends_in_with_item; [done|]. intros it4 Hit4.
  destruct (_autotimer it4) as [a|]; [|done].
  destruct (negb (String.eqb c "Autotimer") && negb (_fading it4)); [|done].
  unfold rearm_autotimer. repeat case_match; simpl;
    apply all_items_assign; try done; intros; by apply I_autotimer.
Qed.

End Step.

(** Every update, whatever its rules start, keeps the property for all
    items. *)
Lemma update_inv n w p v c s d :
  all_items I w -> ends_in (all_items I) (__update n w p v c s d).
Proof.
  revert w p v c s d. induction n as [|n IH]; intros w p v c s d Hw;
    cbn [__update]; [done|].
  by apply update_body_inv.
Qed.

End ItemInvariant.

Section UpdateInvariants.
Context `{Runtime}.

(** X11: items stay typed.  When every registered item holds a value of
    its type, so does every item after an update, whether the update returns
    or raises and whatever its rules write to other items. *)
Theorem update_keeps_items_typed n w p v c s d :
  all_items well_typed w ->
  ends_in (all_items well_typed) (__update n w p v c s d).
Proof.
  apply update_inv; unfold well_typed; try done.
  intros tn it v0 v' c0 s0 d0 Hi Hc.
  pose proof (locked_section_spec it v' c0 s0 d0 tn) as Hs.
  destruct (locked_section it v' c0 s0 d0 tn) as [[it' ch] evs].
  destruct Hs as (E & _ & Ev & _). cbn [fst].
  apply static_fields in E as (_ & -> & _). rewrite Ev.
  destruct ch; [|done]. by eapply cast_has_type.
Qed.

Lemma Qle_sub_nonneg a b : (b <= a)%Q -> (0 <= a - b)%Q.
Proof. intros Hab. unfold Qminus. by rewrite <- Qle_minus_iff. Qed.

Lemma Qsub_nonneg_le a b : (0 <= a - b)%Q -> (b <= a)%Q.
Proof. intros Hab. unfold Qminus in Hab. by rewrite Qle_minus_iff. Qed.

(** X12: ages are never negative.  When for every registered item the
    times of the last and the previous change and update are in order and
    not in the future, they still are after an update: [age()],
    [update_age()], [prev_age()] and [prev_update_age()] of every item stay
    at or above zero. *)
Theorem update_keeps_ages_nonneg n w p v c s d :
  all_items ages_nonneg w ->
  ends_in (all_items ages_nonneg) (__update n w p v c s d).
Proof.
  apply update_inv; unfold ages_nonneg, age, update_age, prev_age,
    prev_update_age; try done.
  - intros tn it v0 v' c0 s0 d0 (H1 & H2 & H3 & H4) _.
    unfold locked_section. destruct (py_ne v' _); [|done].
    destruct (negb (String.eqb c0 "fader")); cbn; split_and!; try done;
      try (apply Qle_sub_nonneg, Qle_refl); by apply Qsub_nonneg_le in H1;
      apply Qle_sub_nonneg.
  - intros tn it (H1 & H2 & H3 & H4). cbn. split_and!; try done.
    apply Qle_sub_nonneg, Qle_refl.
Qed.

(** X13: an update keeps the registry's shape.  After an update, returned
    or raised, the clock reading is the same, the same paths are registered,
    and every item has the configuration it had: path, type, eval
    expression, rules and their destinations, subscribers, threshold bounds,
    cache file and whether it has an autotimer. *)
Theorem update_keeps_configuration n w p v c s d :
  ends_in (same_configuration w) (__update n w p v c s d).
Proof.
  destruct (items w !! p) as [it|] eqn:Hit.
  - eapply ends_in_mono;
      [|apply (update_evolves false (fun _ => True) n w p v c s d
                 (closed_all w) I); discriminate].
    intros w' [Hn Hq]. split; [done|]. intros q. specialize (Hq q).
    by destruct Hq as [? ? (E & _)|].
  - destruct n as [|n]; cbn [__update]; [done|].
    unfold update_body, with_item. rewrite Hit. cbn. split; [done|].
    intros q. by destruct (items w !! q).
Qed.


End UpdateInvariants.

Lemma update_keeps_items_typed_witness :
  exists w' t,
    @__update demo_runtime 3 demo_world "a" (VStr "5") "Logic" None None
      = Done w' t /\
    all_items well_typed w'.
Proof.
  assert (H0 : all_items well_typed demo_world)
    by (apply all_items_world_of; repeat constructor).
  pose proof (@update_keeps_items_typed demo_runtime 3 demo_world "a"
                (VStr "5") "Logic" None None H0) as Hu.
  destruct (@__update demo_runtime 3 demo_world "a" (VStr "5") "Logic" None None)
    as [w' t| |] eqn:E; [|by vm_compute in E..].
  exists w', t. split; [reflexivity | exact Hu].
Defined.

Lemma update_keeps_ages_nonneg_witness :
  exists w' t,
    @__update demo_runtime 3 demo_world "a" (VInt 5) "Logic" None None
      = Done w' t /\
    all_items ages_nonneg w'.
Proof.
  assert (H0 : all_items ages_nonneg demo_world)
    by (apply all_items_world_of; repeat constructor; discriminate).
  pose proof (@update_keeps_ages_nonneg demo_runtime 3 demo_world "a"
                (VInt 5) "Logic" None None H0) as Hu.
  destruct (@__update demo_runtime 3 demo_world "a" (VInt 5) "Logic" None None)
    as [w' t| |] eqn:E; [|by vm_compute in E..].
  exists w', t. split; [reflexivity | exact Hu].
Defined.


(** ** What an update records *)



Section Recorded.
Context `{Runtime}.
Variable S : string -> Prop.
Variable rec : world -> string -> value -> string -> option string ->
               option string -> outcome.
Hypothesis Hrec : rec_ok false S rec.


End Recorded.

Section Bookkeeping.
Context `{Runtime}.


(** X16: [Item.set] stores a value silently.  When the cast accepts the
    value, [set] writes it with the provenance [caller:None]; previous
    value, update times, fading flag, threshold state and configuration stay;
    the only effect besides is one line in the change log: no rule, no
    subscriber, no dispatch, no cache write, no timer.  An update with the
    same value afterwards evaluates the [on_update] rules but, unless forced,
    skips the change path: the subscribers never hear of a value that was
    stored with [set]. *)
Theorem set_is_silent w p it v v' c s d pc lc :
  items w !! p = Some it -> cast (_type it) v = Ok v' ->
  py_eq v' v' = true ->
  exists w1 it1,
    set w p v c s d pc lc = Done w1 [EvChangeLog (_path it) v' c s d] /\
    items w1 !! p = Some it1 /\
    (forall q, q <> p -> items w1 !! q = items w !! q) /\
    _value it1 = v' /\ __changed_by it1 = fmt_by c None /\
    __updated_by it1 = fmt_by c None /\
    __prev_value it1 = __prev_value it /\
    __last_update it1 = __last_update it /\ _fading it1 = _fading it /\
    __th_crossed it1 = __th_crossed it /\ static it1 = static it /\
    forall n c2 s2 d2 w2 t2,
      __update n w1 p v c2 s2 d2 = Done w2 t2 ->
      on_update_ran it t2 /\ (forced it = false -> change_path_skipped t2).
Proof.
  intros Hit Hcast Hrefl. unfold set, with_item. rewrite Hit, Hcast.
  match goal with
  | |- exists w1 it1, Done ?w _ = _ /\ _ => set (w1 := w)
  end.
  assert (exists it1, items w1 !! p = Some it1 /\
            _value it1 = v' /\ __changed_by it1 = fmt_by c None /\
            __updated_by it1 = fmt_by c None /\
            __prev_value it1 = __prev_value it /\
            __last_update it1 = __last_update it /\ _fading it1 = _fading it /\
            __th_crossed it1 = __th_crossed it /\ static it1 = static it)
    as (it1 & Hit1 & Hv & Hcb & Hub & Hpv & Hlu & Hf & Hth & Est).
  { eexists. split; [unfold w1; by rewrite !lookup_assign, Hit|].
    cbn. split_and!; done. }
  exists w1, it1. split; [reflexivity|]. split; [done|].
  split; [intros q Hq; unfold w1; by rewrite !lookup_assign_ne|].
  split_and!; try done.
  intros n c2 s2 d2 w2 t2 Hup.
  pose proof (static_fields _ _ Est) as (_&Ety&_&_&E5&E6&_).
  eapply update_gating in Hup as [Hu Hg]; [|exact Hit1|by rewrite Ety].
  split; [unfold on_update_ran in *; by rewrite <- E5, <- E6|].
  intros Hfo. rewrite Hv, (forced_static _ _ Est), Hfo in Hg.
  unfold py_ne in Hg. by rewrite Hrefl in Hg.
Qed.

(** X17: a timer whose duration is not understood fires at once.  When
    [_cast_duration] rejects the duration (a float, [None], a text that is
    no integer), [Item.timer] logs the warning and still hands the value to
    the scheduler, for the current time. *)
Theorem timer_rejected_duration_fires_now w p it time v v' auto compat l :
  items w !! p = Some it ->
  fst (_cast_duration time) = VBool false ->
  _castvalue_to_itemtype it v compat = (Ok v', l) ->
  exists w' t nx,
    timer w p time v auto compat = Done w' t /\
    timers t = [(v', if auto then "Autotimer" else "Timer")] /\
    schedule t = [nx] /\ (nx == now w)%Q /\
    warnings t <> [] /\
    forall q, fst (_cast_duration (VFloat q)) = VBool false.
Proof.
  intros Hit Hd Hv. unfold timer, with_item. rewrite Hit.
  assert (exists m, _cast_duration time = (VBool false, [EvLog WARNING m]))
    as [m Hm].
  { revert Hd. unfold _cast_duration. repeat case_match; cbn; try discriminate;
      intros _; by eexists. }
  rewrite Hm, Hv. cbn [timedelta_seconds num_of].
  assert (Hl : l = [] \/ exists lv m', l = [EvLog lv m'])
    by (by eapply castvalue_logs).
  eexists _, _, _. split; [reflexivity|].
  assert (Hnow : now (if auto
                      then assign p (set_autotimer
                             (Some {| at_time := VBool false; at_value := v';
                                      at_compat := compat; at_timeitem := None;
                                      at_valueitem := None |})) w
                      else w) = now w) by by destruct auto.
  split_and!.
  - destruct Hl as [->|(lv & m' & ->)]; by destruct auto.
  - destruct Hl as [->|(lv & m' & ->)]; reflexivity.
  - rewrite Hnow, Qred_correct. unfold inject_Z. ring.
  - by destruct Hl as [->|(lv & m' & ->)].
  - done.
Qed.

End Bookkeeping.


Lemma set_is_silent_witness :
  exists w1 it1,
    @set demo_runtime demo_world "a" (VStr "7") "Init" None None None None
      = Done w1 [EvChangeLog "a" (VInt 7) "Init" None None] /\
    items w1 !! "a" = Some it1 /\ _value it1 = VInt 7.
Proof.
  destruct (@set_is_silent demo_runtime demo_world "a"
              (ruled_item "a" (VInt 0)) (VStr "7") (VInt 7) "Init" None None
              None None eq_refl eq_refl eq_refl)
    as (w1 & it1 & H1 & H2 & _ & H3 & _).
  exists w1, it1. split; [exact H1|]. split; [exact H2 | exact H3].
Defined.

Lemma timer_rejected_duration_fires_now_witness :
  exists w' t nx,
    @timer demo_runtime demo_world "a" (VFloat (5 # 2)) (VInt 1) false ""
      = Done w' t /\
    schedule t = [nx] /\ (nx == 0)%Q.
Proof.
  destruct (@timer_rejected_duration_fires_now demo_runtime demo_world "a"
              (ruled_item "a" (VInt 0)) (VFloat (5 # 2)) (VInt 1) (VInt 1)
              false "" [] eq_refl eq_refl eq_refl)
    as (w' & t & nx & H1 & _ & H2 & H3 & _).
  exists w', t, nx. split; [exact H1|]. split; [exact H2 | exact H3].
Defined.

(** ** More on the fade job *)

Section FadeMore.
Context `{Runtime}.

Lemma Qlt_bool_true x y : (x < y)%Q -> Qle_bool y x = false.
Proof.
  intros Hlt. destruct (Qle_bool y x) eqn:E; [|done].
  apply Qle_bool_iff in E. by apply Qlt_not_le in Hlt.
Qed.

Lemma Qlt_bool_false x y : ~ (x < y)%Q -> Qle_bool y x = true.
Proof. intros Hn. by apply Qle_bool_iff, Qnot_lt_le. Qed.

Lemma issue_fader_step n w p it z z' :
  items w !! p = Some it -> plain_num it ->
  _value it = VInt z -> _fading it = true ->
  exists w1 t1 it1,
    issue (S n) w p (VInt z') "fader" = Done w1 [EvCall p (VInt z') "fader" t1] /\
    items w1 !! p = Some it1 /\ plain_num it1 /\
    _value it1 = VInt z' /\ _fading it1 = true.
Proof.
  intros Hit Hpl Hv Hf.
  destruct (issue_plain n w p it (VInt z') (VInt z') "fader" Hit Hpl eq_refl)
    as (w1 & t1 & it1 & E & Hit1 & Hpl1 & Hv1 & Hf1).
  exists w1, t1, it1. split_and!; try done.
  - rewrite Hv in Hv1. rewrite Hv1.
    destruct (py_ne (VInt z') (VInt z)) eqn:E'; [done|].
    apply py_ne_int_same in E'. by subst.
  - rewrite Hf1. cbn. by rewrite andb_false_r.
Qed.

(** The second loop of [_fadejob], left alone, on an item that is fading:
    [k] stepped updates downwards, after which the next step would reach
    [dest]. *)
Lemma fade_loop_ramp_down p dest st k :
  forall n fuel w it z sched,
    (k <= n)%nat -> items w !! p = Some it -> plain_num it ->
    _value it = VInt z -> _fading it = true -> Forall undisturbed sched ->
    (forall i, (i < k)%nat -> (dest < inject_Z (z - Z.of_nat (S i) * st))%Q) ->
    ~ (dest < inject_Z (z - Z.of_nat (S k) * st))%Q ->
    exists w' t it',
      fade_loop n (S fuel) false w p dest (VInt st) sched = Done w' t /\
      calls_issued t = ramp z (- st) k /\
      items w' !! p = Some it' /\ plain_num it' /\
      _value it' = VInt (z - Z.of_nat k * st) /\ _fading it' = true.
Proof.
  induction k as [|k IH]; intros n fuel w it z sched Hn Hit Hpl Hv Hf Hq Hlt Hge;
    rewrite fade_loop_eq, (with_item_lookup _ _ _ _ Hit), Hv;
    cbn [py_sub]; unfold py_gt_float; cbn [num_of].
  - rewrite Qlt_bool_false.
    2:{ intros ?. apply Hge.
        replace (z - Z.of_nat 1 * st) with (z - st); [done | lia]. }
    cbn [negb andb]. exists w, [], it. split_and!; try done.
    rewrite Hv. f_equal. lia.
  - rewrite Qlt_bool_true.
    2:{ specialize (Hlt O ltac:(lia)).
        replace (z - Z.of_nat 1 * st) with (z - st) in Hlt; [done | lia]. }
    rewrite Hf. cbn [negb andb]. destruct n as [|n]; [lia|].
    destruct (issue_fader_step fuel w p it z (z - st) Hit Hpl Hv Hf)
      as (w1 & t1 & it1 & -> & Hit1 & Hpl1 & Hv1 & Hf1).
    cbn [andthen].
    destruct (wait_undisturbed (S fuel) (hd Idle sched) w1) as (w2 & -> & Hw2).
    { destruct Hq; [done|]. done. }
    cbn [andthen emit].
    destruct (IH n fuel w2 it1 (z - st) (tl sched)) as
      (w' & t & it' & -> & Hc & Hit' & Hpl' & Hv' & Hf'); try done.
    + lia.
    + by rewrite Hw2.
    + destruct Hq; [constructor | done].
    + intros i Hi. specialize (Hlt (S i) ltac:(lia)).
      replace (z - st - Z.of_nat (S i) * st)
        with (z - Z.of_nat (S (S i)) * st); [done | lia].
    + replace (z - st - Z.of_nat (S k) * st)
        with (z - Z.of_nat (S (S k)) * st); [done | lia].
    + exists w', (EvCall p (VInt (z - st)) "fader" t1 :: t), it'.
      cbn [emit app]. split; [done|]. split_and!; try done.
      * rewrite ramp_S. change (z + - st) with (z - st). rewrite <- Hc.
        reflexivity.
      * rewrite Hv'. f_equal. lia.
Qed.

(** X18: fading downwards.  For a plain numeric item that holds the
    integer [z] above the destination and is not fading, the job, left
    alone, issues the updates [z - st], [z - 2 st], ... with caller ['fader']
    for as long as the stepped value stays above the destination, then one
    update with the destination itself, as a float, with caller ['Fader'];
    afterwards the item holds the destination and is not fading. *)
Theorem fade_downwards n fuel w p it z st k dest sched :
  items w !! p = Some it -> plain_num it ->
  _value it = VInt z -> _fading it = false ->
  (k <= n)%nat -> Forall undisturbed sched ->
  (dest < inject_Z z)%Q ->
  (forall i, (i < k)%nat -> (dest < inject_Z (z - Z.of_nat (S i) * st))%Q) ->
  ~ (dest < inject_Z (z - Z.of_nat (S k) * st))%Q ->
  exists w' t it',
    _fadejob n (S fuel) w p dest (VInt st) sched = Done w' t /\
    calls_issued t = (ramp z (- st) k ++ [(VFloat dest, "Fader")])%list /\
    items w' !! p = Some it' /\
    _value it' = VFloat dest /\ _fading it' = false.
Proof.
  intros Hit Hpl Hv Hf Hn Hq Hz Hlt Hge.
  set (w1 := assign p (set_fading true) w).
  assert (Hit1 : items w1 !! p = Some (set_fading true it)).
  { unfold w1. by rewrite lookup_assign, Hit. }
  unfold _fadejob. rewrite (with_item_lookup _ _ _ _ Hit), Hf, Hv.
  unfold py_lt_float. cbn [num_of].
  rewrite (Qlt_bool_false (inject_Z z) dest).
  2:{ intros ?. eapply Qlt_irrefl, Qlt_trans; eauto. }
  cbn [negb]. fold w1.
  destruct (fade_loop_ramp_down p dest st k n fuel w1 (set_fading true it) z
              sched) as (w2 & t2 & it2 & -> & Hc2 & Hit2 & Hpl2 & Hv2 & Hf2);
    try done.
  cbn [andthen]. rewrite (with_item_lookup _ _ _ _ Hit2), Hf2.
  set (w3 := assign p (set_fading false) w2).
  assert (Hit3 : items w3 !! p = Some (set_fading false it2)).
  { unfold w3. by rewrite lookup_assign, Hit2. }
  destruct (issue_plain fuel w3 p (set_fading false it2) (VFloat dest)
              (VFloat dest) "Fader" Hit3 Hpl2 eq_refl)
    as (w4 & t4 & it4 & -> & Hit4 & _ & Hv4 & Hf4).
  change (_value (set_fading false it2)) with (_value it2) in Hv4, Hf4.
  rewrite Hv2 in Hv4, Hf4.
  assert (Hne : py_ne (VFloat dest) (VInt (z - Z.of_nat k * st)) = true).
  { unfold py_ne. cbn [py_eq num_of]. apply negb_true_iff.
    destruct (Qeq_bool dest (inject_Z (z - Z.of_nat k * st))) eqn:E; [|done].
    apply Qeq_bool_iff in E. exfalso.
    assert (Hd : (dest < inject_Z (z - Z.of_nat k * st))%Q).
    { destruct k as [|k'].
      - replace (z - Z.of_nat 0 * st) with z by lia. done.
      - apply (Hlt k'). lia. }
    rewrite E in Hd. by apply Qlt_irrefl in Hd. }
  rewrite Hne in Hv4, Hf4.
  exists w4, (t2 ++ [EvCall p (VFloat dest) "Fader" t4])%list, it4.
  cbn [emit]. split_and!; try done.
  unfold calls_issued in *. by rewrite omap_app, Hc2.
Qed.

(** The first loop with a step that does not lead upwards never comes to
    its end. *)
Lemma fade_loop_stuck p dest st :
  st <= 0 ->
  forall n fuel w it z sched,
    items w !! p = Some it -> plain_num it ->
    _value it = VInt z -> _fading it = true -> Forall undisturbed sched ->
    (inject_Z z < dest)%Q ->
    fade_loop n (S fuel) true w p dest (VInt st) sched = OutOfFuel.
Proof.
  intros Hst. induction n as [|n IH]; intros fuel w it z sched Hit Hpl Hv Hf Hq Hz;
    rewrite fade_loop_eq, (with_item_lookup _ _ _ _ Hit), Hv;
    cbn [py_add]; unfold py_lt_float; cbn [num_of];
    (assert (Hz' : (inject_Z (z + st) < dest)%Q);
     [eapply Qle_lt_trans; [|exact Hz]; rewrite <- Zle_Qle; lia|]);
    rewrite (Qlt_bool_true _ _ Hz'), Hf; cbn [negb andb]; [done|].
  destruct (issue_fader_step fuel w p it z (z + st) Hit Hpl Hv Hf)
    as (w1 & t1 & it1 & -> & Hit1 & Hpl1 & Hv1 & Hf1).
  cbn [andthen].
  destruct (wait_undisturbed (S fuel) (hd Idle sched) w1) as (w2 & -> & Hw2).
  { destruct Hq; [done|]. done. }
  cbn [andthen emit].
  rewrite (IH fuel w2 it1 (z + st) (tl sched)); try done.
  - by rewrite Hw2.
  - destruct Hq; [constructor | done].
Qed.

(** X19: a fade that cannot arrive.  With a step of zero, or a negative
    one, towards a destination above the value, the job, left alone, never
    finishes: whatever bound is put on the number of passes of its loop, the
    loop is still running when the bound is reached. *)
Theorem fade_without_progress_never_ends n fuel w p it z st dest sched :
  items w !! p = Some it -> plain_num it ->
  _value it = VInt z -> _fading it = false ->
  Forall undisturbed sched ->
  (inject_Z z < dest)%Q -> st <= 0 ->
  _fadejob n (S fuel) w p dest (VInt st) sched = OutOfFuel.
Proof.
  intros Hit Hpl Hv Hf Hq Hz Hst.
  set (w1 := assign p (set_fading true) w).
  assert (Hit1 : items w1 !! p = Some (set_fading true it)).
  { unfold w1. by rewrite lookup_assign, Hit. }
  unfold _fadejob. rewrite (with_item_lookup _ _ _ _ Hit), Hf, Hv.
  unfold py_lt_float. cbn [num_of]. rewrite (Qlt_bool_true _ _ Hz).
  cbn [negb]. fold w1.
  by rewrite (fade_loop_stuck p dest st Hst n fuel w1 (set_fading true it) z
                sched Hit1 Hpl Hv eq_refl Hq Hz).
Qed.

End FadeMore.

Lemma fade_downwards_witness :
  let w := world_of [("a", plain_item "a" TNum (VInt 10))] in
  exists w' t it',
    @_fadejob demo_runtime 4 1 w "a" 0 (VInt 3) [] = Done w' t /\
    calls_issued t =
      [(VInt 7, "fader"); (VInt 4, "fader"); (VInt 1, "fader");
       (VFloat 0, "Fader")] /\
    items w' !! "a" = Some it' /\ _value it' = VFloat 0 /\ _fading it' = false.
Proof.
  intros w.
  apply (@fade_downwards demo_runtime 4 0 w "a"
           (plain_item "a" TNum (VInt 10)) 10 3 3 0 []).
  - by vm_compute.
  - unfold plain_num. cbn. split_and!; eauto.
  - reflexivity.
  - reflexivity.
  - lia.
  - constructor.
  - reflexivity.
  - intros i Hi. do 3 (destruct i as [|i]; [reflexivity|]). lia.
  - discriminate.
Defined.

Lemma fade_without_progress_never_ends_witness :
  let w := world_of [("a", plain_item "a" TNum (VInt 0))] in
  @_fadejob demo_runtime 1000 1 w "a" (10 # 1) (VInt 0) [] = OutOfFuel.
Proof.
  intros w.
  apply (@fade_without_progress_never_ends demo_runtime 1000 0 w "a"
           (plain_item "a" TNum (VInt 0)) 0 0 (10 # 1) []).
  - by vm_compute.
  - unfold plain_num. cbn. split_and!; eauto.
  - reflexivity.
  - reflexivity.
  - constructor.
  - reflexivity.
  - lia.
Defined.

(** ** More on the casts and the duration/value strings *)

Lemma lower_ascii_idem a :
  PyStr.lower_ascii (PyStr.lower_ascii a) = PyStr.lower_ascii a.
Proof. by destruct a as [[] [] [] [] [] [] [] []]. Qed.

Lemma lower_idem s : PyStr.lower (PyStr.lower s) = PyStr.lower s.
Proof.
  induction s as [|a s IH]; cbn [PyStr.lower]; [done|].
  by rewrite lower_ascii_idem, IH.
Qed.

(** X20: what [_cast_bool] accepts.  Of the numbers ([bool], [int],
    [float]) exactly those equal to 0 and to 1 are accepted, as [False] and
    [True]; every other number, 2 for one, raises [ValueError].  A string is
    judged by its lower-case form.  [None], lists and dicts raise
    [TypeError]. *)
Theorem cast_bool_accepts (v : value) :
  (forall q, num_of v = Some q ->
     _cast_bool v = if Qeq_bool q 0 then Ok (VBool false)
                    else if Qeq_bool q 1 then Ok (VBool true)
                    else Raise ValueError) /\
  (forall s, v = VStr s -> _cast_bool v = _cast_bool (VStr (PyStr.lower s))) /\
  (num_of v = None -> (forall s, v <> VStr s) -> _cast_bool v = Raise TypeError) /\
  _cast_bool (VInt 2) = Raise ValueError.
Proof.
  split_and!.
  - intros q Hq. destruct v; try discriminate; injection Hq as <-; reflexivity.
  - intros s ->. unfold _cast_bool. by rewrite lower_idem.
  - intros Hn Hs. destruct v; try discriminate; try done. by destruct (Hs s).
  - reflexivity.
Qed.

Lemma cast_num_strip x y :
  PyStr.strip x = PyStr.strip y -> _cast_num (VStr x) = _cast_num (VStr y).
Proof. unfold _cast_num. by intros ->. Qed.

Lemma lstrip_head s :
  PyStr.lstrip s = "" \/
  exists a r, PyStr.lstrip s = String a r /\ PyStr.is_space a = false.
Proof.
  induction s as [|a s IH]; cbn [PyStr.lstrip]; [by left|].
  destruct (PyStr.is_space a) eqn:E; [done|]. right. by exists a, s.
Qed.

Lemma rstrip_idem s : PyStr.rstrip (PyStr.rstrip s) = PyStr.rstrip s.
Proof.
  induction s as [|a s IH]; [done|]. cbn [PyStr.rstrip].
  destruct (PyStr.rstrip s) as [|b r] eqn:E.
  - destruct (PyStr.is_space a) eqn:Ea; [done|]. cbn [PyStr.rstrip].
    by rewrite Ea.
  - cbn [PyStr.rstrip] in *. rewrite IH. done.
Qed.

Lemma strip_idem s : PyStr.strip (PyStr.strip s) = PyStr.strip s.
Proof.
  unfold PyStr.strip. destruct (lstrip_head s) as [->|(a & r & -> & Ha)];
    [done|].
  rewrite (rstrip_cons_nonspace a r Ha). cbn [PyStr.lstrip]. rewrite Ha.
  rewrite (rstrip_cons_nonspace a _ Ha). by rewrite rstrip_idem.
Qed.

(** X21: [_cast_num] ignores the whitespace around a number text: a
    blank before or after it, or stripping it beforehand, does not change
    the result; a text of nothing but whitespace gives the integer 0. *)
Theorem cast_num_ignores_whitespace (s : string) :
  _cast_num (VStr (" " +:+ s)) = _cast_num (VStr s) /\
  _cast_num (VStr (s +:+ " ")) = _cast_num (VStr s) /\
  _cast_num (VStr (PyStr.strip s)) = _cast_num (VStr s) /\
  (PyStr.strip s = "" -> _cast_num (VStr s) = Ok (VInt 0)).
Proof.
  split_and!.
  - apply cast_num_strip. reflexivity.
  - apply cast_num_strip, strip_app_space.
  - apply cast_num_strip, strip_idem.
  - intros E. unfold _cast_num. by rewrite E.
Qed.

(** The slice [[1:-1]] removes the first and the last character. *)
Lemma slice_inner a s b :
  PyStrExt.slice (String a (s +:+ String b "")) 1 (-1) = s.
Proof.
  unfold PyStrExt.slice, PyStr.bound.
  assert (L : PyStr.len (String a (s +:+ String b "")) = PyStr.len s + 2).
  { rewrite len_cons, len_app, len_cons. change (PyStr.len "") with 0. lia. }
  rewrite L. pose proof (len_nonneg s) as Hs.
  change (1 <? 0) with false. change (-1 <? 0) with true. cbv iota.
  rewrite Z.min_l, Z.max_r by lia.
  change (Z.to_nat 1) with 1%nat. cbn [PyStr.drop].
  replace (Z.to_nat (PyStr.len s + 2 + -1) - 1)%nat with (String.length s).
  - apply take_app.
  - unfold PyStr.len. lia.
Qed.

(** X22: a quoted value.  When the value part of a duration/value string
    is put between two single or two double quotes, the quotes are removed
    and everything between them is the value, whitespace at its ends
    included; the duration is the stripped text before the ['='] and the tag
    is the default. *)
Theorem split_duration_quoted (dflt t v : string) (q : ascii) :
  q = "'"%char \/ q = Ascii.ascii_of_nat 34 ->
  mem_char "=" t = false -> mem_char "=" v = false ->
  _split_duration_value_string dflt
    (t +:+ " = " +:+ String q (v +:+ String q ""))
    = (PyStr.strip t, v, dflt).
Proof.
  intros Hq Ht Hv.
  assert (Hqs : PyStr.is_space q = false) by (by destruct Hq as [->| ->]).
  assert (Hqe : Ascii.eqb q "=" = false) by (by destruct Hq as [->| ->]).
  assert (Ht' : mem_char "=" (t +:+ " ") = false)
    by (by rewrite mem_char_app, Ht).
  assert (Hv' : mem_char "=" (String " " (String q (v +:+ String q ""))) = false).
  { cbn [mem_char]. rewrite Hqe, mem_char_app, Hv. cbn [mem_char].
    by rewrite Hqe. }
  unfold _split_duration_value_string.
  change (" = " +:+ String q (v +:+ String q ""))
    with (" " +:+ String "=" (String " " (String q (v +:+ String q "")))).
  rewrite <- append_assoc, (partition_char_first "=" (t +:+ " ") _ Ht').
  rewrite (partition_char_absent "=" _ Hv').
  rewrite strip_app_space, (strip_cons_space (String q _)).
  assert (Sv : PyStr.strip (String q (v +:+ String q ""))
               = String q (v +:+ String q "")).
  { unfold PyStr.strip. cbn [PyStr.lstrip]. rewrite Hqs.
    rewrite <- append_cons. by apply rstrip_app_nonspace. }
  rewrite Sv. cbn [String.eqb negb andb starts_with_char].
  unfold PyStrExt.ends_with_char. rewrite <- append_cons, last_app_char.
  rewrite append_cons, slice_inner.
  change (PyStr.lower (PyStr.strip "")) with "". cbn [String.eqb].
  by destruct Hq as [->| ->].
Qed.

Lemma split_duration_quoted_witness :
  _split_duration_value_string "compat_1.2" "5m = ' on '"
    = ("5m", " on ", "compat_1.2").
Proof.
  exact (split_duration_quoted "compat_1.2" "5m" " on " "'"
           (or_introl eq_refl) eq_refl eq_refl).
Defined.

(** ** The cache *)

Section Cache.
Context `{Runtime}.


End Cache.


(** ** Updates that always return *)

Section PlainUpdate.
Context `{Runtime}.

(** X24: an update of a plain numeric item always returns.  For an item
    of type [num] that holds a number and has no rules and no autotimer
    (thresholds, subscribers, dependents and a cache file are allowed),
    every update, whatever the value and the caller, returns normally: it
    does not raise and does not depend on any nested update. *)
Theorem update_plain_item_returns n w p it v c s d :
  items w !! p = Some it -> plain_num it ->
  exists w' t, __update (S n) w p v c s d = Done w' t.
Proof.
  intros Hit Hpl. destruct (cast TNum v) as [v'|e] eqn:Hc.
  - by eapply update_plain_returns.
  - exists w. eexists. cbn [__update]. unfold update_body, with_item.
    destruct Hpl as (Hty & _). by rewrite Hit, Hty, Hc.
Qed.

End PlainUpdate.

Lemma update_plain_item_returns_witness :
  exists w' t,
    @__update demo_runtime 1
      (world_of [("t", threshold_item "t" TNum (VInt 0))]) "t" (VStr "21.5")
      "Logic" None None = Done w' t.
Proof.
  apply (@update_plain_item_returns demo_runtime 0
           (world_of [("t", threshold_item "t" TNum (VInt 0))]) "t"
           (threshold_item "t" TNum (VInt 0))).
  - by vm_compute.
  - unfold plain_num. cbn. split_and!; eauto.
Defined.

(** ** Subscriptions *)

Lemma list_remove_absent x l : x ∉ l -> list_remove x l = Raise ValueError.
Proof.
  induction l as [|y l IH]; cbn [list_remove]; [done|].
  intros [Hne Hl]%not_elem_of_cons.
  destruct (String.eqb_spec y x) as [->|_]; [done|]. by rewrite IH.
Qed.

Lemma list_remove_snoc_absent x l :
  x ∉ l -> list_remove x (l ++ [x]) = Ok l.
Proof.
  induction l as [|y l IH]; cbn [list_remove app].
  - by rewrite String.eqb_refl.
  - intros [Hne Hl]%not_elem_of_cons.
    destruct (String.eqb_spec y x) as [->|_]; [done|]. by rewrite IH.
Qed.

Lemma list_remove_present x l1 l2 :
  x ∉ l1 -> list_remove x (l1 ++ x :: l2) = Ok (l1 ++ l2)%list.
Proof.
  induction l1 as [|y l IH]; cbn [list_remove app].
  - by rewrite String.eqb_refl.
  - intros [Hne Hl]%not_elem_of_cons.
    destruct (String.eqb_spec y x) as [->|_]; [done|]. by rewrite IH.
Qed.

Lemma set_logics_same it :
  set__logics_to_trigger (__logics_to_trigger it) it = it.
Proof. by destruct it. Qed.

(** X25: subscribing and unsubscribing a logic.  Removing a logic takes
    out its first registration only and keeps the order of the others;
    removing a logic that is not registered raises [ValueError]; adding a
    logic that was not registered and removing it again gives the item
    back as it was.  For a logic that was registered before, adding and
    removing moves its registration to the end. *)
Theorem logic_trigger_add_remove (it : Item) (x : string) (l1 l2 : list string) :
  x ∉ l1 ->
  (get_logic_triggers it = (l1 ++ x :: l2)%list ->
   remove_logic_trigger x it
     = Ok (set__logics_to_trigger (l1 ++ l2)%list it) /\
   remove_logic_trigger x (add_logic_trigger x it)
     = Ok (set__logics_to_trigger (l1 ++ l2 ++ [x])%list it)) /\
  (get_logic_triggers it = l1 ->
   remove_logic_trigger x it = Raise ValueError /\
   remove_logic_trigger x (add_logic_trigger x it) = Ok it).
Proof.
  intros Hx. unfold get_logic_triggers, remove_logic_trigger, add_logic_trigger.
  split.
  - intros E. cbn [__logics_to_trigger set__logics_to_trigger]. rewrite E.
    rewrite <- app_assoc. cbn [app].
    by rewrite !list_remove_present by done.
  - intros E. cbn [__logics_to_trigger set__logics_to_trigger].
    rewrite E, list_remove_absent, list_remove_snoc_absent by done.
    split; [done|]. f_equal. rewrite <- E. by destruct it.
Qed.

Lemma logic_trigger_add_remove_witness :
  let it := threshold_item "t" TNum (VInt 0) in
  remove_logic_trigger "logic2" it = Raise ValueError /\
  remove_logic_trigger "logic2" (add_logic_trigger "logic2" it) = Ok it /\
  remove_logic_trigger "logic1" (add_logic_trigger "logic1" it) = Ok it.
Proof.
  intros it.
  destruct (logic_trigger_add_remove it "logic2" ["logic1"] [])
    as (_ & H2).
  { by intros [?|[]%elem_of_nil]%elem_of_cons. }
  destruct (logic_trigger_add_remove it "logic1" [] [])
    as (H1 & _); [apply not_elem_of_nil|].
  destruct (H2 eq_refl) as [Ha Hb]. destruct (H1 eq_refl) as [_ Hc].
  split; [exact Ha|]. split; [exact Hb | exact Hc].
Defined.

Section Subscribed.
Context `{Runtime}.

(** X26: a subscription is honoured by the next update.  After a logic
    and a method have been added to an item, a returning update that changes
    the value calls every method subscriber, the new one last, and, on an
    item without threshold, triggers every logic, the new one last; one
    registered twice is called twice. *)
Theorem subscribers_are_notified n w p it l m v v' c s d w' t :
  items w !! p = Some it ->
  cast (_type it) v = Ok v' -> py_ne v' (_value it) = true ->
  __update n (assign p (fun i => add_method_trigger m (add_logic_trigger l i)) w)
    p v c s d = Done w' t ->
  methods_called t = (get_method_triggers it ++ [m])%list /\
  (_threshold it = false ->
   logics_fired t = (get_logic_triggers it ++ [l])%list).
Proof.
  intros Hit Hcast Hne Hup.
  eapply update_gating in Hup as [_ Hg];
    [|by rewrite lookup_assign, Hit|exact Hcast].
  cbn [_value add_method_trigger add_logic_trigger set__methods_to_trigger
       set__logics_to_trigger] in Hg.
  rewrite Hne in Hg. cbn [orb] in Hg.
  destruct Hg as (_ & Hm & _ & Hl). split; [exact Hm|].
  intros Hth. apply Hl. unfold gated. cbn. by rewrite Hth.
Qed.

End Subscribed.

Lemma subscribers_are_notified_witness :
  exists w' t,
    @__update demo_runtime 3
      (assign "a" (fun i => add_method_trigger "visu"
                              (add_logic_trigger "logic1" i)) demo_world)
      "a" (VInt 5) "Logic" None None = Done w' t /\
    methods_called t = ["knx"; "visu"] /\
    logics_fired t = ["logic1"; "logic1"].
Proof.
  destruct (@__update demo_runtime 3
              (assign "a" (fun i => add_method_trigger "visu"
                                      (add_logic_trigger "logic1" i)) demo_world)
              "a" (VInt 5) "Logic" None None)
    as [w' t| |] eqn:Hup; [|by vm_compute in Hup..].
  destruct (@subscribers_are_notified demo_runtime 3 demo_world "a"
              (ruled_item "a" (VInt 0)) "logic1" "visu" (VInt 5) (VInt 5)
              "Logic" None None w' t eq_refl eq_refl eq_refl Hup) as [Hm Hl].
  exists w', t. split; [reflexivity|]. split; [exact Hm | exact (Hl eq_refl)].
Defined.

(** ** Trigger conditions ([_build_trigger_condition_eval]) *)

Lemma startswith_mem c s pat :
  PyStr.startswith s pat = true -> mem_char c pat = true -> mem_char c s = true.
Proof.
  revert s. induction pat as [|x pat IH]; intros s; [discriminate 2|].
  destruct s as [|y s]; cbn [PyStr.startswith mem_char]; [discriminate|].
  intros [Exy Hs]%andb_true_iff [Hx|Hp]%orb_true_iff.
  - apply Ascii.eqb_eq in Exy as ->. by rewrite Hx.
  - by rewrite (IH _ Hs Hp), orb_true_r.
Qed.

(** A pattern with a character that the string lacks is not found. *)
Lemma find_absent_char c s pat i :
  mem_char c s = false -> mem_char c pat = true ->
  PyStr.find_from s pat i = -1.
Proof.
  intros Hs Hp. revert i. induction s as [|y s IH]; intros i;
    cbn [PyStr.find_from].
  - destruct (PyStr.startswith "" pat) eqn:E; [|done].
    by rewrite (startswith_mem c _ _ E Hp) in Hs.
  - destruct (PyStr.startswith (String y s) pat) eqn:E.
    + by rewrite (startswith_mem c _ _ E Hp) in Hs.
    + cbn [mem_char] in Hs. apply orb_false_iff in Hs as [_ Hs]. by apply IH.
Qed.

(** Replacing the only occurrence of a character. *)
Lemma replace_single c a b new :
  mem_char c a = false -> mem_char c b = false ->
  PyStr.replace (a +:+ String c b) (String c "") new = a +:+ new +:+ b.
Proof.
  intros Ha Hb. unfold PyStr.replace.
  induction a as [|x a IH]; rewrite ?append_nil_l, ?append_cons;
    cbn [PyStr.replace_go PyStr.startswith].
  - rewrite Ascii.eqb_refl, startswith_nil. cbn [andb String.length Nat.sub].
    f_equal. apply (replace_absent b (String c "") new).
    unfold PyStr.find. by apply find_char_absent.
  - cbn [mem_char] in Ha. apply orb_false_iff in Ha as [Hx Ha].
    rewrite Ascii.eqb_sym, Hx. cbn [andb]. by rewrite IH.
Qed.

(** A condition with a single ['='] and without ['<'] and ['>']: the ['=']
    is doubled. *)
Lemma condition_expr_assignment p kc a b :
  mem_char "=" a = false -> mem_char "=" b = false ->
  mem_char "<" (a +:+ b) = false -> mem_char ">" (a +:+ b) = false ->
  PyStr.find (PyStr.lower (a +:+ "==" +:+ b)) "true" = -1 ->
  PyStr.find (PyStr.lower (a +:+ "==" +:+ b)) "false" = -1 ->
  PyStr.find (a +:+ "==" +:+ b) "sh.." = -1 ->
  condition_expr p kc (a +:+ "=" +:+ b) = Some (a +:+ "==" +:+ b, []).
Proof.
  intros Ha Hb Hlt Hgt Ht Hf Hs. unfold condition_expr.
  change (a +:+ "=" +:+ b) with (a +:+ String "=" b).
  rewrite mem_char_app in Hlt, Hgt.
  apply orb_false_iff in Hlt as [La Lb]. apply orb_false_iff in Hgt as [Ga Gb].
  assert (Lc : mem_char "<" (a +:+ String "=" b) = false)
    by (rewrite mem_char_app; cbn [mem_char]; by rewrite La, Lb).
  assert (Gc : mem_char ">" (a +:+ String "=" b) = false)
    by (rewrite mem_char_app; cbn [mem_char]; by rewrite Ga, Gb).
  unfold PyStr.find in *.
  rewrite (find_char_app "=" a b 0 Ha), (find_pair_app "=" a b 0 Ha).
  assert (Hb0 : starts_with_char b "=" = false).
  { destruct b as [|y b]; [done|]. cbn [mem_char starts_with_char] in *.
    by apply orb_false_iff in Hb as [-> _]. }
  rewrite Hb0, (find_char_absent "=" b "=" _ Hb).
  rewrite (find_absent_char "<" _ "<=" 0 Lc eq_refl),
    (find_absent_char ">" _ ">=" 0 Gc eq_refl),
    (find_absent_char "<" _ "=<" 0 Lc eq_refl),
    (find_absent_char ">" _ "=>" 0 Gc eq_refl).
  pose proof (len_nonneg a).
  destruct (Z.eqb_spec (0 + PyStr.len a) (-1)); [lia|].
  change (-1 =? -1) with true. cbn [negb andb].
  rewrite (replace_single "=" a b "==" Ha Hb).
  rewrite Ht. change (-1 =? -1) with true. cbn [negb].
  rewrite Hf. change (-1 =? -1) with true. cbn [negb].
  unfold get_stringwithabsolutepathes, PyStr.find.
  change ("sh." +:+ ".") with "sh..". by rewrite Hs.
Qed.

(** X27: the assignment operator in a trigger condition.  A condition
    that has a single ['='] and neither ['<'] nor ['>'] comes out with the
    ['='] doubled; this also holds when the ['='] belongs to a ['!=']: the
    condition ['sh.x() != 1'] becomes ['sh.x() !== 1']. *)
Theorem trigger_condition_doubles_equals (p kc k a b : string) :
  PyStr.lower k <> "value" ->
  mem_char "=" a = false -> mem_char "=" b = false ->
  mem_char "<" (a +:+ b) = false -> mem_char ">" (a +:+ b) = false ->
  PyStr.find (PyStr.lower (a +:+ "==" +:+ b)) "true" = -1 ->
  PyStr.find (PyStr.lower (a +:+ "==" +:+ b)) "false" = -1 ->
  PyStr.find (a +:+ "==" +:+ b) "sh.." = -1 ->
  _build_trigger_condition_eval p kc [[(k, [a +:+ "=" +:+ b])]]
    = Built (a +:+ "==" +:+ b) [].
Proof.
  intros Hk Ha Hb Hlt Hgt Ht Hf Hs.
  unfold _build_trigger_condition_eval.
  cbn [or_cond_loop key_loop and_cond_loop].
  destruct (String.eqb_spec (PyStr.lower k) "value") as [?|_]; [done|].
  by rewrite condition_expr_assignment.
Qed.

Lemma trigger_condition_doubles_equals_witness :
  _build_trigger_condition_eval "a.b" "trigger_condition"
    [[("condition1", ["sh.x() != 1"])]] = Built "sh.x() !== 1" [].
Proof.
  apply (trigger_condition_doubles_equals "a.b" "trigger_condition"
           "condition1" "sh.x() !" " 1"); try reflexivity. discriminate.
Defined.

Section Groups.
Variables p kc : string.
Variable g : string -> string.

(** Every condition is expanded to what [g] tells, without a log record. *)
Let plain (conds : list string) : Prop :=
  forall c, In c conds -> condition_expr p kc c = Some (g c, []).

Lemma and_cond_loop_plain conds :
  plain conds -> and_cond_loop p kc conds = Some (map g conds, []).
Proof.
  unfold plain. induction conds as [|c cs IH]; intros Hp; cbn [and_cond_loop map];
    [done|].
  rewrite (Hp c) by by left. rewrite IH; [done|]. intros; apply Hp. by right.
Qed.

Lemma key_loop_plain or_cond :
  (forall k conds, In (k, conds) or_cond -> plain conds) ->
  forall we r,
    (r = match we with [] => None | _ => Some (PyStrExt.join ") or (" we) end) ->
    let we' := (we ++ groups_of g or_cond)%list in
    key_loop p kc or_cond we r []
      = Some (we', match we' with
                   | [] => None
                   | _ => Some (PyStrExt.join ") or (" we')
                   end, []).
Proof.
  induction or_cond as [|[k conds] oc IH]; intros Hp we r Hr;
    cbn [key_loop groups_of flat_map fst snd].
  - by rewrite app_nil_r, Hr.
  - destruct (String.eqb (PyStr.lower k) "value") eqn:Ek.
    + cbn [app]. apply IH; [|done]. intros; eapply Hp. by right.
    + rewrite and_cond_loop_plain by (eapply Hp; by left).
      cbn [app]. fold (group_expr (map g conds) (length conds)).
      rewrite (IH (fun k' c' Hin => Hp k' c' (or_intror Hin))
                 (we ++ [group_expr (map g conds) (length conds)])%list
                 (Some (PyStrExt.join ") or ("
                          (we ++ [group_expr (map g conds) (length conds)])))).
      * cbv zeta. unfold groups_of. by rewrite <- app_assoc.
      * by destruct we.
Qed.

Lemma or_cond_loop_plain tc :
  (forall oc k conds, In oc tc -> In (k, conds) oc -> plain conds) ->
  forall we r,
    (r = match we with [] => None | _ => Some (PyStrExt.join ") or (" we) end) ->
    let we' := (we ++ flat_map (groups_of g) tc)%list in
    or_cond_loop p kc tc we r []
      = Some (we', match we' with
                   | [] => None
                   | _ => Some (PyStrExt.join ") or (" we')
                   end, []).
Proof.
  induction tc as [|oc tc IH]; intros Hp we r Hr; cbn [or_cond_loop flat_map].
  - by rewrite app_nil_r, Hr.
  - rewrite (key_loop_plain oc (fun k c Hin => Hp oc k c (or_introl eq_refl) Hin)
               we r Hr).
    cbv zeta. rewrite IH; [by rewrite <- app_assoc| |done].
    intros oc' k c Hin. apply Hp. by right.
Qed.

(** X28: the shape of a trigger condition.  With [g] telling what each
    condition is expanded to: the result joins one group per key other than
    ['value'] (any case), through all dicts in order, with [') or (']; a
    group joins the conditions of its key with [') and ('] and is put in
    parentheses when the key has more than one condition; the whole is put
    in parentheses only when there is more than one dict, so that one dict
    with two keys gives the unbalanced [c1) or (c2].  When there is no
    such key at all, as for the empty list, the method fails with
    [UnboundLocalError]. *)
Theorem trigger_condition_shape (tc : list (list (string * list string))) :
  (forall oc k conds c,
     In oc tc -> In (k, conds) oc -> In c conds ->
     condition_expr p kc c = Some (g c, [])) ->
  _build_trigger_condition_eval p kc tc =
    match flat_map (groups_of g) tc with
    | [] => UnboundLocalError
    | gs =>
        Built (if 1 <? Z.of_nat (length tc)
               then "(" +:+ PyStrExt.join ") or (" gs +:+ ")"
               else PyStrExt.join ") or (" gs) []
    end.
Proof.
  intros Hp. unfold _build_trigger_condition_eval.
  rewrite (or_cond_loop_plain tc) with (r := None); [|intros oc k conds Ho Hk c Hc; eauto|done].
  cbv zeta. cbn [app]. by destruct (flat_map (groups_of g) tc).
Qed.

End Groups.

Lemma trigger_condition_shape_witness :
  _build_trigger_condition_eval "a.b" "trigger_condition"
    [[("c1", ["x==1"]); ("Value", ["9"]); ("c2", ["y==2"; "z"])]]
    = Built "x==1) or ((y==2) and (z)" [] /\
  _build_trigger_condition_eval "a.b" "trigger_condition" [[("value", ["9"])]]
    = UnboundLocalError.
Proof.
  split.
  - apply (trigger_condition_shape "a.b" "trigger_condition" (fun c => c)).
    intros oc k conds c [<-|[]] Hk Hc.
    destruct Hk as [[= <- <-]|[[= <- <-]|[[= <- <-]|[]]]];
      cbn in Hc; intuition (subst; reflexivity).
  - apply (trigger_condition_shape "a.b" "trigger_condition" (fun c => c)).
    intros oc k conds c [<-|[]] [[= <- <-]|[]] [<-|[]]. reflexivity.
Defined.
